(** * sqy-mumbai-poc: the batch scripts under [scripts/], embedded and verified

    The repository is four Python command-line scripts.  This development
    embeds three of them as Rocq functions and proves (or refutes) the
    properties the specification states about them:

    - [scripts/preprocess_metrics.py]  (module [PreprocessMetrics]),
    - [scripts/geo_validator.py]       (module [GeoValidator]),
    - [scripts/make_dims.py]           (module [MakeDims]).

    Module [Py] holds the part of the Python runtime the scripts rely on:
    exceptions, truthiness, [int(str)], [float(str)] and [math.isfinite].

    Conventions.  A Python [str] is a Rocq [string]; the model covers ASCII
    text (code points below 128).  A Python [float] is a primitive binary64
    [float]; a Python [int] is a [Z].  Code that can raise returns a
    [result]; [None] is the [None] of [option]. *)

From Stdlib Require Import ZArith Ascii String DecimalString.
From Stdlib Require Import PrimFloat SpecFloat FloatOps FloatAxioms.
From stdpp Require Import base option list gmap strings.

Local Open Scope Z_scope.

(** ** The Python runtime the scripts use *)
Module Py.

(** The exceptions the embedded code can raise. *)
Inductive exn : Set :=
| ValueError
| KeyError
| TypeError
| IndexError
| AttributeError
| SystemExit (code : Z).

(** Outcome of running a piece of code: a value, or an uncaught exception. *)
Inductive result (A : Type) : Type :=
| Ok (a : A)
| Raise (e : exn).
Arguments Ok {A} a.
Arguments Raise {A} e.

#[export] Instance result_ret : MRet result := fun A a => Ok a.
#[export] Instance result_bind : MBind result := fun A B k r =>
  match r with
  | Ok a => k a
  | Raise e => Raise e
  end.

Definition is_Ok {A} (r : result A) : Prop := ∃ a, r = Ok a.

(** The exit status of a script whose [main()] ended with [r]: 0 when it
    returned, the code of [sys.exit], and 1 for any other uncaught exception. *)
Definition exit_code {A} (r : result A) : Z :=
  match r with
  | Ok _ => 0
  | Raise (SystemExit code) => code
  | Raise _ => 1
  end.

(** [l[0]] and [l[1]] *)
Definition index0 {A} (l : list A) : result A :=
  match l with
  | x :: _ => Ok x
  | [] => Raise IndexError
  end.

Definition index1 {A} (l : list A) : result A :=
  match l with
  | _ :: x :: _ => Ok x
  | _ => Raise IndexError
  end.

(** A list comprehension whose element expression can raise. *)
Fixpoint map_result {A B} (f : A → result B) (l : list A) : result (list B) :=
  match l with
  | [] => Ok []
  | x :: l' => y ← f x; ys ← map_result f l'; mret (y :: ys)
  end.

(** [min(l)] and [max(l)] on floats: the first element, replaced by a later
    one that compares below (above) it; an empty list raises [ValueError]. *)
Definition py_min (l : list float) : result float :=
  match l with
  | [] => Raise ValueError
  | x :: l' => Ok (fold_left (λ cur y, if PrimFloat.ltb y cur then y else cur) l' x)
  end.

Definition py_max (l : list float) : result float :=
  match l with
  | [] => Raise ValueError
  | x :: l' => Ok (fold_left (λ cur y, if PrimFloat.ltb cur y then y else cur) l' x)
  end.

(** A CSV cell as [csv.DictReader] hands it over: a [str], or [None] when the
    row is shorter than the header. *)
Definition Cell : Type := option string.

(** Truthiness of a cell: [None] and the empty string are falsy. *)
Definition truthy_cell (c : Cell) : bool :=
  match c with
  | Some s => negb (String.eqb s "")
  | None => false
  end.

(** Truthiness of a float: only [0.0] and [-0.0] are falsy. *)
Definition truthy_float (v : float) : bool := negb (PrimFloat.eqb v 0%float).

(** Truthiness of [None]-or-float. *)
Definition truthy_ofloat (o : option float) : bool :=
  match o with
  | Some v => truthy_float v
  | None => false
  end.

(** [math.isfinite]. *)
Definition isfinite (v : float) : bool := PrimFloat.is_finite v.

Definition code (c : ascii) : N := N_of_ascii c.

(** [Py_ISSPACE]: the whitespace [int()] and [float()] skip. *)
Definition is_space (c : ascii) : bool :=
  let n := code c in
  ((9 <=? n) && (n <=? 13) || (n =? 32))%N.

(** Whitespace of [str.strip()] ([str.isspace] on ASCII): [Py_ISSPACE] and the
    separators 0x1C..0x1F. *)
Definition is_uspace (c : ascii) : bool :=
  let n := code c in
  is_space c || ((28 <=? n) && (n <=? 31))%N.

Definition is_digit (c : ascii) : bool :=
  let n := code c in ((48 <=? n) && (n <=? 57))%N.

Definition digit_val (c : ascii) : Z := Z.of_N (code c) - 48.

Definition lower (c : ascii) : ascii :=
  let n := code c in
  if ((65 <=? n) && (n <=? 90))%N then ascii_of_N (n + 32) else c.

(** Strings are processed as lists of characters. *)
Definition chars (s : string) : list ascii := list_ascii_of_string s.
Definition str (l : list ascii) : string := string_of_list_ascii l.

Fixpoint lstrip_by (sp : ascii → bool) (l : list ascii) : list ascii :=
  match l with
  | c :: l' => if sp c then lstrip_by sp l' else l
  | [] => []
  end.

Definition strip_by (sp : ascii → bool) (l : list ascii) : list ascii :=
  rev (lstrip_by sp (rev (lstrip_by sp l))).

(** [s.strip()] *)
Definition strip (s : string) : string := str (strip_by is_uspace (chars s)).

(** [s.lower()] *)
Definition str_lower (s : string) : string := str (map lower (chars s)).

(** [s.endswith(suffix)] *)
Definition endswith (s suffix : string) : bool :=
  let l := chars s in
  let x := chars suffix in
  bool_decide (drop (length l - length x)%nat l = x).

(** *** [int(s)] for a [str] *)

(** A [digitpart]: digits, single underscores allowed between two digits.
    [prev] is the character read last; [acc] the value read so far. *)
Fixpoint digitpart (l : list ascii) (prev : ascii) (acc : Z) : option Z :=
  match l with
  | [] => if is_digit prev then Some acc else None
  | c :: l' =>
      if is_digit c then digitpart l' c (10 * acc + digit_val c)
      else if Ascii.eqb c "_" then
        if is_digit prev then digitpart l' c acc else None
      else None
  end.

(** Optional sign; returns [true] for a minus sign and the rest. *)
Definition take_sign (l : list ascii) : bool * list ascii :=
  match l with
  | c :: l' =>
      if Ascii.eqb c "-" then (true, l')
      else if Ascii.eqb c "+" then (false, l')
      else (false, l)
  | [] => (false, [])
  end.

(** [int(s)], base 10: surrounding whitespace, an optional sign, a digitpart;
    anything else raises [ValueError]. *)
Definition int_of_str (s : string) : result Z :=
  let '(neg, l) := take_sign (strip_by is_space (chars s)) in
  match digitpart l " " 0 with
  | Some n => Ok (if neg then - n else n)
  | None => Raise ValueError
  end.

(** [int(x)] for a cell: [int(None)] raises [TypeError]. *)
Definition int_of_cell (c : Cell) : result Z :=
  match c with
  | Some s => int_of_str s
  | None => Raise TypeError
  end.

(** *** [float(s)] for a [str] *)

(** Every underscore stands between two digits. *)
Fixpoint underscores_ok (l : list ascii) (prev : ascii) : bool :=
  match l with
  | [] => negb (Ascii.eqb prev "_")
  | c :: l' =>
      if Ascii.eqb c "_" then is_digit prev && underscores_ok l' c
      else (negb (Ascii.eqb prev "_") || is_digit c) && underscores_ok l' c
  end.

Definition drop_underscores (l : list ascii) : list ascii :=
  filter (λ c, c ≠ "_"%char) l.

(** The leading digits of [l] and what follows them. *)
Fixpoint span_digits (l : list ascii) : list ascii * list ascii :=
  match l with
  | c :: l' =>
      if is_digit c then let '(d, r) := span_digits l' in (c :: d, r)
      else ([], l)
  | [] => ([], [])
  end.

(** Value of a digit string, base 10. *)
Definition digits_val (d : list ascii) : Z :=
  fold_left (λ acc c, 10 * acc + digit_val c) d 0.

(** The binary64 number nearest to [p / q] (ties to even), with sign [sx];
    [0 <= p], [0 < q].  The quotient is taken with at least 64 significant
    bits and the remainder gives the rounding direction, as in [SFdiv]. *)
Definition ratio_to_float (sx : bool) (p q : Z) : float :=
  if p =? 0 then SF2Prim (S754_zero sx)
  else
    let s := Z.max 0 (64 + Z.log2 q - Z.log2 p) in
    let '(m, r) := Z.div_eucl (Z.shiftl p s) q in
    SF2Prim (binary_round_aux prec emax sx m (- s) (new_location q r)).

(** [mant * 10^e10] as a binary64 number. *)
Definition decimal_to_float (sx : bool) (mant e10 : Z) : float :=
  if mant =? 0 then SF2Prim (S754_zero sx)
  else if 0 <=? e10 then ratio_to_float sx (mant * 10 ^ e10) 1
  else ratio_to_float sx mant (10 ^ (- e10)).

(** An optional exponent part at the end of the number: [Some e] for the
    exponent's value ([0] when there is none), [None] when the text does not
    end after it. *)
Definition exponent_part (l : list ascii) : option Z :=
  match l with
  | [] => Some 0
  | c :: l' =>
      if Ascii.eqb (lower c) "e" then
        let '(neg, l'') := take_sign l' in
        let '(d, r) := span_digits l'' in
        match d, r with
        | _ :: _, [] => Some (if neg then - digits_val d else digits_val d)
        | _, _ => None
        end
      else None
  end.

(** [number [exponent]] of Python's float grammar, after the sign. *)
Definition decimal_part (sx : bool) (l : list ascii) : option float :=
  let '(ip, r) := span_digits l in
  let '(fp, r') :=
    match r with
    | c :: r1 => if Ascii.eqb c "." then span_digits r1 else ([], r)
    | [] => ([], [])
    end in
  match ip ++ fp with
  | [] => None
  | ds =>
      match exponent_part r' with
      | Some e => Some (decimal_to_float sx (digits_val ds) (e - Z.of_nat (length fp)))
      | None => None
      end
  end.

(** [float(s)]: underscores checked and removed, surrounding whitespace
    skipped, then a signed decimal number, [inf], [infinity] or [nan] in any
    letter case; anything else raises [ValueError].  Overflow gives an
    infinity, underflow a zero or a subnormal number. *)
Definition float_of_str (s : string) : result float :=
  let l := chars s in
  if negb (underscores_ok l " ") then Raise ValueError
  else
    let '(sx, l1) := take_sign (strip_by is_space (drop_underscores l)) in
    let w := str (map lower l1) in
    if String.eqb w "inf" || String.eqb w "infinity" then
      Ok (if sx then neg_infinity else infinity)
    else if String.eqb w "nan" then Ok nan
    else
      match decimal_part sx l1 with
      | Some v => Ok v
      | None => Raise ValueError
      end.

(** [float(x)] for a cell: [float(None)] raises [TypeError]. *)
Definition float_of_cell (c : Cell) : result float :=
  match c with
  | Some s => float_of_str s
  | None => Raise TypeError
  end.

(** *** Reasoning about [result] *)

Lemma bind_Ok {X Y : Type} (r : result X) (k : X → result Y) (y : Y) :
  (x ← r; k x) = Ok y ↔ ∃ x, r = Ok x ∧ k x = Ok y.
Proof.
  destruct r as [x|e]; simpl; split.
  - intros Hk. by exists x.
  - by intros (x' & [= <-] & Hk).
  - discriminate.
  - by intros (x' & [=] & _).
Qed.

Lemma ret_Ok {X : Type} (x y : X) : (mret x : result X) = Ok y → x = y.
Proof. by intros [= ->]. Qed.

(** Splits a hypothesis [H : (x ← r; k x) = Ok y] into [Hx : r = Ok x] and
    [H : k x = Ok y]. *)
Ltac inv_bind H x Hx :=
  apply bind_Ok in H; destruct H as (x & Hx & H).

End Py.

(** ** [scripts/preprocess_metrics.py]: the metrics aggregator *)
Module PreprocessMetrics.
Import Py.

(** A row of [csv.DictReader]: column name to cell. *)
Abbreviation Row := (gmap string Cell).

(** The join key [(Month, AssetType, BHK, LocalityID)]. *)
Definition Key : Type := Cell * Cell * Cell * Cell.

(** [row[k]] *)
Definition getitem (row : Row) (k : string) : result Cell :=
  match row !! k with
  | Some c => Ok c
  | None => Raise KeyError
  end.

(** [row.get(k)] *)
Definition get (row : Row) (k : string) : Cell := mjoin (row !! k).

(** Truthiness of a dict: only the empty dict is falsy. *)
Definition truthy_row (row : Row) : bool := negb (bool_decide (row = ∅)).

(** [to_key(row)] *)
Definition to_key (row : Row) : result Key :=
  month ← getitem row "Month";
  asset ← getitem row "AssetType";
  bhk ← getitem row "BHK";
  loc_id ← getitem row "LocalityID";
  mret (month, asset, bhk, loc_id).

(** [{ to_key(r): r for r in rows }]: a later row replaces an earlier one
    with the same key. *)
Fixpoint index_rows (rows : list Row) (acc : gmap Key Row) : result (gmap Key Row) :=
  match rows with
  | [] => Ok acc
  | r :: rows' => k ← to_key r; index_rows rows' (<[k := r]> acc)
  end.

(** [f2(x)]: the float in [x] when it parses to a finite number, else [None];
    the bare [except] catches every exception of [float(x)]. *)
Definition f2 (x : Cell) : option float :=
  match float_of_cell x with
  | Ok v => if isfinite v then Some v else None
  | Raise _ => None
  end.

(** [int(x["SampleSize"]) if x and x.get("SampleSize") else 0],
    where [x] is the result of [dict.get] on one of the three mappings. *)
Definition sample_size (x : option Row) : result Z :=
  match x with
  | Some row =>
      if truthy_row row && truthy_cell (get row "SampleSize")
      then c ← getitem row "SampleSize"; int_of_cell c
      else Ok 0
  | None => Ok 0
  end.

(** [f2(x[col]) if x else None] *)
Definition value_of (x : option Row) (col : string) : result (option float) :=
  match x with
  | Some row =>
      if truthy_row row then c ← getitem row col; mret (f2 c) else Ok None
  | None => Ok None
  end.

(** A choropleth point [{"id": ..., "value": ...}]. *)
Record Point : Type := { id : Z; value : float }.

(** Key of the paint accumulator: [(metric, month, asset, bhk)]. *)
Definition PaintKey : Type := string * Cell * Cell * Cell.

(** [paints = defaultdict(list)] *)
Abbreviation Paints := (gmap PaintKey (list Point)).

(** [paints[k]] read without inserting: the default is the empty list. *)
Definition paints_get (paints : Paints) (k : PaintKey) : list Point :=
  default [] (paints !! k).

(** [paints[k].append({"id": int(loc_id), "value": v})] *)
Definition append_point (paints : Paints) (k : PaintKey) (loc_id : Cell) (v : float)
  : result Paints :=
  i ← int_of_cell loc_id;
  mret (<[k := paints_get paints k ++ [{| id := i; value := v |}]]> paints).

(** The summary object written per key. *)
Record Summary : Type := {
  month : Cell;
  asset : Cell;
  bhk : Cell;
  locality_id : Z;
  median_asking : option float;
  median_registered : option float;
  median_rent : option float;
  yield : option float;
  count_asking : Z;
  count_registered : Z;
  count_rent : Z
}.

(** [str(x)] for a cell. *)
Definition str_of_cell (c : Cell) : string :=
  match c with
  | Some s => s
  | None => "None"
  end.

(** A path below [out_root], as the list of its components.  Joining a
    [Path] with [None] raises [TypeError]. *)
Definition Path : Type := list string.

Definition path_join (p : Path) (c : Cell) : result Path :=
  match c with
  | Some s => Ok (p ++ [s])
  | None => Raise TypeError
  end.

(** The values parsed for one key (lines 47-57 of the script). *)
Record Parsed : Type := {
  nA : Z; nR : Z; nN : Z;
  vA : option float; vR : option float; vN : option float
}.

Definition parse_key (A R N : gmap Key Row) (k : Key) : result Parsed :=
  let a := A !! k in
  let r := R !! k in
  let n := N !! k in
  nA ← sample_size a;
  nR ← sample_size r;
  nN ← sample_size n;
  vA ← value_of a "MedianAskingPrice";
  vR ← value_of r "MedianRegisteredPrice";
  vN ← value_of n "MedianMonthlyRent";
  mret {| nA := nA; nR := nR; nN := nN; vA := vA; vR := vR; vN := vN |}.

(** [vR and vR > 0 and vN] *)
Definition yield_defined (vR vN : option float) : bool :=
  truthy_ofloat vR
  && match vR with Some r => PrimFloat.ltb 0 r | None => false end
  && truthy_ofloat vN.

(** [12.0 * vN / vR], evaluated only where [yield_defined] holds. *)
Definition yield_value (vR vN : option float) : float :=
  match vR, vN with
  | Some r, Some n => (12 * n / r)%float
  | _, _ => nan
  end.

(** [if v and n >= min_sample: paints[(metric, ...)].append(...)] *)
Definition paint_metric (min_sample : Z) (metric : string) (k : Key)
    (v : option float) (n : Z) (paints : Paints) : result Paints :=
  let '(month, asset, bhk, loc_id) := k in
  match v with
  | Some x =>
      if truthy_float x && (min_sample <=? n)
      then append_point paints (metric, month, asset, bhk) loc_id x
      else Ok paints
  | None => Ok paints
  end.

(** Lines 59-68: the four conditional appends, yield first. *)
Definition emit_paints (min_sample : Z) (k : Key) (p : Parsed) (paints : Paints)
  : result Paints :=
  let '(month, asset, bhk, loc_id) := k in
  paints ←
    (if yield_defined (vR p) (vN p) && (min_sample <=? nR p) && (min_sample <=? nN p)
     then append_point paints ("yield", month, asset, bhk) loc_id
            (yield_value (vR p) (vN p))
     else Ok paints);
  paints ← paint_metric min_sample "asking" k (vA p) (nA p) paints;
  paints ← paint_metric min_sample "registered" k (vR p) (nR p) paints;
  paint_metric min_sample "rent" k (vN p) (nN p) paints.

(** Lines 70-75: the summary dict. *)
Definition make_summary (k : Key) (p : Parsed) : result Summary :=
  let '(month, asset, bhk, loc_id) := k in
  i ← int_of_cell loc_id;
  mret {| month := month; asset := asset; bhk := bhk; locality_id := i;
          median_asking := vA p; median_registered := vR p;
          median_rent := vN p;
          yield := if yield_defined (vR p) (vN p)
                   then Some (yield_value (vR p) (vN p)) else None;
          count_asking := nA p; count_registered := nR p;
          count_rent := nN p |}.

(** Lines 76-78: [summary/<loc_id>/<month>/<asset>/<bhk>.json]. *)
Definition summary_path (k : Key) : result Path :=
  let '(month, asset, bhk, loc_id) := k in
  d ← path_join ["summary"; str_of_cell loc_id] month;
  d ← path_join d asset;
  mret (d ++ [str_of_cell bhk +:+ ".json"]).

(** The state the loop over the keys threads: the paint accumulator and the
    summary files written so far, oldest first. *)
Record LoopState : Type := {
  paints : Paints;
  summaries : list (Path * Summary)
}.

(** The body of the loop over the keys (lines 46-79). *)
Definition process_key (min_sample : Z) (A R N : gmap Key Row) (st : LoopState)
    (k : Key) : result LoopState :=
  p ← parse_key A R N k;
  paints' ← emit_paints min_sample k p (paints st);
  summary ← make_summary k p;
  file ← summary_path k;
  mret {| paints := paints'; summaries := summaries st ++ [(file, summary)] |}.

(** [for k in keys: ...], stopping at the first exception. *)
Fixpoint process_keys (min_sample : Z) (A R N : gmap Key Row) (st : LoopState)
    (keys : list Key) : result LoopState :=
  match keys with
  | [] => Ok st
  | k :: keys' =>
      st' ← process_key min_sample A R N st k;
      process_keys min_sample A R N st' keys'
  end.

(** Lines 81-85: one file [choropleth/<metric>/<month>/<asset>/<bhk>.json]
    per entry of the accumulator. *)
Definition choropleth_path (pk : PaintKey) : result Path :=
  let '(metric, month, asset, bhk) := pk in
  d ← path_join ["choropleth"; metric] month;
  d ← path_join d asset;
  mret (d ++ [str_of_cell bhk +:+ ".json"]).

Fixpoint write_paints (items : list (PaintKey * list Point))
  : result (list (Path * list Point)) :=
  match items with
  | [] => Ok []
  | (pk, arr) :: items' =>
      file ← choropleth_path pk;
      rest ← write_paints items';
      mret ((file, arr) :: rest)
  end.

(** What a completed run leaves behind. *)
Record Output : Type := {
  final_paints : Paints;
  summary_files : list (Path * Summary);
  choropleth_files : list (Path * list Point)
}.

(** [keys = set(A.keys()) | set(R.keys()) | set(N.keys())] *)
Definition all_keys (A R N : gmap Key Row) : gset Key := dom A ∪ dom R ∪ dom N.

(** [main()], after argument parsing and [read_csv]: [ask], [reg] and [rent]
    are the rows of the three metric files.  A Python set has no fixed
    iteration order; the model visits the keys in the order of [elements]. *)
Definition main (min_sample : Z) (ask reg rent : list Row) : result Output :=
  A ← index_rows ask ∅;
  R ← index_rows reg ∅;
  N ← index_rows rent ∅;
  st ← process_keys min_sample A R N {| paints := ∅; summaries := [] |}
         (elements (all_keys A R N));
  files ← write_paints (map_to_list (paints st));
  mret {| final_paints := paints st; summary_files := summaries st;
          choropleth_files := files |}.

(** *** Sample data *)

Definition mk_row (value_col : string) (month asset bhk loc : string)
    (v n : string) : Row :=
  list_to_map [("Month", Some month); ("AssetType", Some asset); ("BHK", Some bhk);
               ("LocalityID", Some loc); (value_col, Some v);
               ("SampleSize", Some n)].

Definition ask_row := mk_row "MedianAskingPrice".
Definition reg_row := mk_row "MedianRegisteredPrice".
Definition rent_row := mk_row "MedianMonthlyRent".

(** *** Floats: a positive number is truthy *)

Lemma zero_SF : Prim2SF 0%float = S754_zero false.
Proof. reflexivity. Qed.

Lemma pos_truthy (r : float) : PrimFloat.ltb 0 r = true → truthy_float r = true.
Proof.
  unfold truthy_float. rewrite FloatAxioms.ltb_spec, FloatAxioms.eqb_spec, zero_SF.
  unfold SFltb, SFeqb.
  destruct (Prim2SF r) as [s|s| |s m e]; simpl; try done; by destruct s.
Qed.

(** *** The paint accumulator *)

Lemma paints_get_insert (paints : Paints) (pk pk' : PaintKey) (l : list Point) :
  paints_get (<[pk := l]> paints) pk' =
  if decide (pk = pk') then l else paints_get paints pk'.
Proof.
  unfold paints_get. case_decide as Hpk.
  - subst. by rewrite lookup_insert_eq.
  - by rewrite lookup_insert_ne.
Qed.

(** The point a metric contributes for one key: [if v and n >= min_sample]. *)
Definition point_if (min_sample : Z) (i : Z) (v : option float) (n : Z)
  : list Point :=
  match v with
  | Some x =>
      if truthy_float x && (min_sample <=? n)
      then [{| id := i; value := x |}] else []
  | None => []
  end.

(** The point list one key adds to the array of [metric]: empty or a single
    point.  This reads off lines 59-68 without the accumulator. *)
Definition emitted (min_sample : Z) (p : Parsed) (i : Z) (metric : string)
  : list Point :=
  if decide (metric = "yield") then
    if yield_defined (vR p) (vN p) && (min_sample <=? nR p) && (min_sample <=? nN p)
    then [{| id := i; value := yield_value (vR p) (vN p) |}] else []
  else if decide (metric = "asking") then point_if min_sample i (vA p) (nA p)
  else if decide (metric = "registered") then point_if min_sample i (vR p) (nR p)
  else if decide (metric = "rent") then point_if min_sample i (vN p) (nN p)
  else [].

Lemma paint_metric_spec (min_sample : Z) (metric : string) (mo a b loc : Cell)
    (v : option float) (n i : Z) (paints : Paints) :
  int_of_cell loc = Ok i →
  ∃ paints', paint_metric min_sample metric (mo, a, b, loc) v n paints = Ok paints' ∧
    ∀ pk, paints_get paints' pk =
          paints_get paints pk ++
          (if decide ((metric, mo, a, b) = pk) then point_if min_sample i v n else []).
Proof.
  intros Hi. unfold paint_metric, point_if, append_point. rewrite Hi. simpl.
  destruct v as [x|]; [destruct (truthy_float x && (min_sample <=? n))|];
    eexists; (split; [reflexivity|]); intros pk;
    rewrite ?paints_get_insert;
    repeat case_decide; subst; try done; by rewrite ?app_nil_r.
Qed.

Lemma emit_paints_spec (min_sample : Z) (mo a b loc : Cell) (p : Parsed) (i : Z)
    (paints : Paints) :
  int_of_cell loc = Ok i →
  ∃ paints', emit_paints min_sample (mo, a, b, loc) p paints = Ok paints' ∧
    ∀ metric mo' a' b',
      paints_get paints' (metric, mo', a', b') =
      paints_get paints (metric, mo', a', b') ++
      (if decide ((mo', a', b') = (mo, a, b)) then emitted min_sample p i metric else []).
Proof.
  intros Hi. unfold emit_paints.
  set (c := yield_defined (vR p) (vN p) && (min_sample <=? nR p) && (min_sample <=? nN p)).
  assert (∃ p0, (if c then append_point paints ("yield", mo, a, b) loc
                               (yield_value (vR p) (vN p)) else Ok paints) = Ok p0 ∧
            ∀ pk, paints_get p0 pk = paints_get paints pk ++
              (if decide (("yield", mo, a, b) = pk)
               then (if c then [{| id := i; value := yield_value (vR p) (vN p) |}] else [])
               else [])) as (p0 & -> & H0).
  { unfold append_point. rewrite Hi. simpl.
    destruct c; eexists; (split; [reflexivity|]); intros pk;
      rewrite ?paints_get_insert;
      repeat case_decide; subst; try done; by rewrite ?app_nil_r. }
  cbn [mbind result_bind].
  destruct (paint_metric_spec min_sample "asking" mo a b loc (vA p) (nA p) i p0 Hi)
    as (p1 & -> & H1). cbn [mbind result_bind].
  destruct (paint_metric_spec min_sample "registered" mo a b loc (vR p) (nR p) i p1 Hi)
    as (p2 & -> & H2). cbn [mbind result_bind].
  destruct (paint_metric_spec min_sample "rent" mo a b loc (vN p) (nN p) i p2 Hi)
    as (p3 & Hp3 & H3).
  exists p3. split; [done|]. intros metric mo' a' b'.
  rewrite H3, H2, H1, H0, <- !app_assoc. f_equal. unfold emitted. fold c.
  destruct (decide ((mo', a', b') = (mo, a, b))) as [[= -> -> ->]|Hne].
  - destruct (decide (metric = "yield")) as [->|Hy].
    { repeat (case_decide; [|done || congruence]); try done.
      repeat (case_decide; [congruence|]). by rewrite !app_nil_r. }
    rewrite (decide_False (P := ("yield", mo, a, b) = (metric, mo, a, b))) by congruence.
    destruct (decide (metric = "asking")) as [->|Ha].
    { rewrite (decide_True (P := ("asking", mo, a, b) = ("asking", mo, a, b))) by done.
      rewrite !decide_False by congruence. by rewrite !app_nil_r. }
    rewrite (decide_False (P := ("asking", mo, a, b) = (metric, mo, a, b))) by congruence.
    destruct (decide (metric = "registered")) as [->|Hr].
    { rewrite (decide_True (P := ("registered", mo, a, b) = ("registered", mo, a, b))) by done.
      rewrite !decide_False by congruence. by rewrite !app_nil_r. }
    rewrite (decide_False (P := ("registered", mo, a, b) = (metric, mo, a, b))) by congruence.
    destruct (decide (metric = "rent")) as [->|Hn].
    { by rewrite (decide_True (P := ("rent", mo, a, b) = ("rent", mo, a, b))) by done. }
    by rewrite (decide_False (P := ("rent", mo, a, b) = (metric, mo, a, b))) by congruence.
  - rewrite !decide_False by congruence. done.
Qed.

(** *** The eligibility rule, as a proposition *)

Lemma truthy_and_sampled (min_sample : Z) (x : float) (n : Z) :
  truthy_float x && (min_sample <=? n) = true ↔
  PrimFloat.eqb x 0 = false ∧ min_sample ≤ n.
Proof.
  unfold truthy_float. rewrite andb_true_iff, negb_true_iff, Z.leb_le. done.
Qed.

Lemma yield_defined_iff (r n : option float) :
  yield_defined r n = true ↔
  ∃ xr xn, r = Some xr ∧ n = Some xn ∧
           PrimFloat.ltb 0 xr = true ∧ PrimFloat.eqb xn 0 = false.
Proof.
  unfold yield_defined, truthy_ofloat. split.
  - destruct r as [xr|], n as [xn|]; rewrite ?andb_true_iff; try naive_solver.
    intros [[_ Hr] Hn]. exists xr, xn. unfold truthy_float in Hn.
    by rewrite negb_true_iff in Hn.
  - intros (xr & xn & -> & -> & Hr & Hn).
    rewrite (pos_truthy xr Hr), Hr. unfold truthy_float. by rewrite Hn.
Qed.

(** [paint_rule min_sample p metric v]: the values [p] parsed for a key put a
    point of value [v] into the array of [metric].  A value counts when it is
    present and not zero and its sample count reaches [min_sample]; yield
    needs a registered price above zero, a rent that counts, and both sample
    counts. *)
Definition paint_rule (min_sample : Z) (p : Parsed) (metric : string) (v : float)
  : Prop :=
  (metric = "asking" ∧ vA p = Some v ∧ PrimFloat.eqb v 0 = false ∧ min_sample ≤ nA p)
  ∨ (metric = "registered" ∧ vR p = Some v ∧ PrimFloat.eqb v 0 = false
     ∧ min_sample ≤ nR p)
  ∨ (metric = "rent" ∧ vN p = Some v ∧ PrimFloat.eqb v 0 = false ∧ min_sample ≤ nN p)
  ∨ (metric = "yield" ∧ ∃ r n, vR p = Some r ∧ PrimFloat.ltb 0 r = true
     ∧ vN p = Some n ∧ PrimFloat.eqb n 0 = false
     ∧ min_sample ≤ nR p ∧ min_sample ≤ nN p ∧ v = (12 * n / r)%float).

Lemma point_if_cases (min_sample i : Z) (v : option float) (n : Z) :
  (∃ x, v = Some x ∧ PrimFloat.eqb x 0 = false ∧ min_sample ≤ n
        ∧ point_if min_sample i v n = [{| id := i; value := x |}])
  ∨ ((∀ x, ¬ (v = Some x ∧ PrimFloat.eqb x 0 = false ∧ min_sample ≤ n))
     ∧ point_if min_sample i v n = []).
Proof.
  unfold point_if. destruct v as [x|]; [|right; naive_solver].
  destruct (truthy_float x && (min_sample <=? n)) eqn:E.
  - apply truthy_and_sampled in E. left. naive_solver.
  - right. split; [|done]. intros x' ([= <-] & H).
    apply truthy_and_sampled in H. congruence.
Qed.

(** A key adds to the array of a metric exactly the point the rule names, or
    nothing when the rule names none. *)
Lemma emitted_cases (min_sample : Z) (p : Parsed) (i : Z) (metric : string) :
  (∃ v, paint_rule min_sample p metric v
        ∧ emitted min_sample p i metric = [{| id := i; value := v |}])
  ∨ ((∀ v, ¬ paint_rule min_sample p metric v)
     ∧ emitted min_sample p i metric = []).
Proof.
  unfold emitted, paint_rule.
  destruct (decide (metric = "yield")) as [->|Hy].
  { destruct (yield_defined (vR p) (vN p) && (min_sample <=? nR p)
              && (min_sample <=? nN p)) eqn:E.
    - rewrite !andb_true_iff, !Z.leb_le, yield_defined_iff in E.
      destruct E as [[(r & n & Hr & Hn & Hpos & Hnz) HnR] HnN].
      left. eexists. split; [|reflexivity]. do 3 right. split; [done|].
      exists r, n. rewrite Hr, Hn. naive_solver.
    - right. split; [|done].
      intros v [(?&_)|[(?&_)|[(?&_)|(_ & r & n & Hr & Hpos & Hn & Hnz & HnR & HnN & _)]]];
        try discriminate.
      assert (yield_defined (vR p) (vN p) = true) as Hd
        by (apply yield_defined_iff; naive_solver).
      apply Z.leb_le in HnR, HnN. by rewrite Hd, HnR, HnN in E. }
  destruct (decide (metric = "asking")) as [->|Ha].
  { destruct (point_if_cases min_sample i (vA p) (nA p))
      as [(x & Hv & Hnz & Hn & ->)|[Hno ->]]; [left|right]; [naive_solver|].
    split; [|done]. intros v [(_&H)|[(?&_)|[(?&_)|(?&_)]]]; try discriminate.
    by apply (Hno v). }
  destruct (decide (metric = "registered")) as [->|Hr].
  { destruct (point_if_cases min_sample i (vR p) (nR p))
      as [(x & Hv & Hnz & Hn & ->)|[Hno ->]]; [left|right]; [naive_solver|].
    split; [|done]. intros v [(?&_)|[(_&H)|[(?&_)|(?&_)]]]; try discriminate.
    by apply (Hno v). }
  destruct (decide (metric = "rent")) as [->|Hn].
  { destruct (point_if_cases min_sample i (vN p) (nN p))
      as [(x & Hv & Hnz & Hn' & ->)|[Hno ->]]; [left|right]; [naive_solver|].
    split; [|done]. intros v [(?&_)|[(?&_)|[(_&H)|(?&_)]]]; try discriminate.
    by apply (Hno v). }
  right. split; [|done]. naive_solver.
Qed.

(** *** One key *)

(** The summary a key with parsed values [p] and locality number [i] gets. *)
Definition summary_of (k : Key) (p : Parsed) (i : Z) : Summary :=
  let '(mo, a, b, _) := k in
  {| month := mo; asset := a; bhk := b; locality_id := i;
     median_asking := vA p; median_registered := vR p; median_rent := vN p;
     yield := if yield_defined (vR p) (vN p)
              then Some (yield_value (vR p) (vN p)) else None;
     count_asking := nA p; count_registered := nR p; count_rent := nN p |}.

(** The loop body succeeds when the key's values parse, its locality id is an
    integer and month and asset are strings; it then appends one summary file
    and the points of [emitted]. *)
Lemma process_key_spec (min_sample : Z) (A R N : gmap Key Row) (st : LoopState)
    (mo a b loc : Cell) (p : Parsed) (i : Z) :
  parse_key A R N (mo, a, b, loc) = Ok p →
  int_of_cell loc = Ok i →
  is_Some mo → is_Some a →
  ∃ st' file,
    process_key min_sample A R N st (mo, a, b, loc) = Ok st'
    ∧ summary_path (mo, a, b, loc) = Ok file
    ∧ summaries st' = summaries st ++ [(file, summary_of (mo, a, b, loc) p i)]
    ∧ ∀ metric mo' a' b',
        paints_get (paints st') (metric, mo', a', b') =
        paints_get (paints st) (metric, mo', a', b') ++
        (if decide ((mo', a', b') = (mo, a, b))
         then emitted min_sample p i metric else []).
Proof.
  intros Hp Hi [smo ->] [sa ->]. unfold process_key. rewrite Hp.
  cbn [mbind result_bind].
  destruct (emit_paints_spec min_sample (Some smo) (Some sa) b loc p i (paints st) Hi)
    as (paints' & -> & Hget).
  cbn [mbind result_bind]. unfold make_summary. rewrite Hi.
  unfold summary_path, path_join. cbn [mbind result_bind mret result_ret].
  eexists _, _. split; [reflexivity|]. split; [reflexivity|].
  split; [reflexivity|]. exact Hget.
Qed.

(** Conversely, a loop body that returns has parsed the key. *)
Lemma process_key_inv (min_sample : Z) (A R N : gmap Key Row) (st st' : LoopState)
    (k : Key) :
  process_key min_sample A R N st k = Ok st' →
  ∃ p i, parse_key A R N k = Ok p ∧ int_of_cell k.2 = Ok i
         ∧ is_Some k.1.1.1 ∧ is_Some k.1.1.2.
Proof.
  destruct k as [[[mo a] b] loc]. unfold process_key. intros H.
  inv_bind H p Hp. inv_bind H paints' Hpaints. inv_bind H s Hs.
  inv_bind H file Hfile. exists p.
  unfold make_summary in Hs. inv_bind Hs i Hi. exists i.
  unfold summary_path, path_join in Hfile. cbn [fst snd].
  destruct mo, a; try discriminate. eauto.
Qed.

(** *** The whole run *)

Lemma make_summary_inv (k : Key) (p : Parsed) (s : Summary) :
  make_summary k p = Ok s → ∃ i, int_of_cell k.2 = Ok i ∧ s = summary_of k p i.
Proof.
  destruct k as [[[mo a] b] loc]. unfold make_summary. intros H.
  inv_bind H i Hi. apply ret_Ok in H. subst s. by exists i.
Qed.

(** What one key contributes to the summary files. *)
Definition summary_entry (A R N : gmap Key Row) (k : Key) (e : Path * Summary)
  : Prop :=
  ∃ p i, parse_key A R N k = Ok p ∧ int_of_cell k.2 = Ok i
         ∧ summary_path k = Ok e.1 ∧ e.2 = summary_of k p i.

Lemma process_key_summaries (min_sample : Z) (A R N : gmap Key Row)
    (st st' : LoopState) (k : Key) :
  process_key min_sample A R N st k = Ok st' →
  ∃ e, summary_entry A R N k e ∧ summaries st' = summaries st ++ [e].
Proof.
  intros H. unfold process_key in H.
  inv_bind H p Hp. inv_bind H paints' Hpaints. inv_bind H s Hs.
  inv_bind H file Hfile. apply ret_Ok in H. subst st'.
  apply make_summary_inv in Hs as (i & Hi & ->).
  exists (file, summary_of k p i). split; [|done]. by exists p, i.
Qed.

(** The loop writes one summary file per key, in the order of the keys. *)
Lemma process_keys_summaries (min_sample : Z) (A R N : gmap Key Row)
    (keys : list Key) (st st' : LoopState) :
  process_keys min_sample A R N st keys = Ok st' →
  ∃ es, Forall2 (summary_entry A R N) keys es
        ∧ summaries st' = summaries st ++ es.
Proof.
  revert st. induction keys as [|k keys IH]; intros st H; simpl in H.
  - injection H as <-. exists []. by rewrite app_nil_r.
  - inv_bind H st1 H1.
    apply process_key_summaries in H1 as (e & He & H1).
    apply IH in H as (es & Hes & H). exists (e :: es). split.
    + by constructor.
    + by rewrite H, H1, <- app_assoc.
Qed.

Lemma main_inv (min_sample : Z) (ask reg rent : list Row) (out : Output) :
  main min_sample ask reg rent = Ok out →
  ∃ A R N st,
    index_rows ask ∅ = Ok A ∧ index_rows reg ∅ = Ok R ∧ index_rows rent ∅ = Ok N
    ∧ process_keys min_sample A R N {| paints := ∅; summaries := [] |}
        (elements (all_keys A R N)) = Ok st
    ∧ final_paints out = paints st ∧ summary_files out = summaries st.
Proof.
  unfold main. intros H.
  inv_bind H mA HA. inv_bind H mR HR. inv_bind H mN HN. inv_bind H st Hst.
  inv_bind H files Hfiles. apply ret_Ok in H. subst out.
  by exists mA, mR, mN, st.
Qed.

(** Every summary file of a completed run is the summary of one of the keys. *)
Lemma main_summaries (min_sample : Z) (ask reg rent : list Row) (out : Output) :
  main min_sample ask reg rent = Ok out →
  ∃ A R N,
    index_rows ask ∅ = Ok A ∧ index_rows reg ∅ = Ok R ∧ index_rows rent ∅ = Ok N
    ∧ Forall2 (summary_entry A R N) (elements (all_keys A R N)) (summary_files out).
Proof.
  intros H. apply main_inv in H as (A & R & N & st & HA & HR & HN & Hst & _ & ->).
  apply process_keys_summaries in Hst as (es & Hes & ->).
  by exists A, R, N.
Qed.

(** The yield field of a summary is a function of its two medians. *)
Lemma summary_of_yield (k : Key) (p : Parsed) (i : Z) (y : float) :
  yield (summary_of k p i) = Some y ↔
  ∃ r n, median_registered (summary_of k p i) = Some r
         ∧ PrimFloat.ltb 0 r = true
         ∧ median_rent (summary_of k p i) = Some n
         ∧ PrimFloat.eqb n 0 = false
         ∧ y = (12 * n / r)%float.
Proof.
  destruct k as [[[mo a] b] loc]. simpl.
  destruct (yield_defined (vR p) (vN p)) eqn:E.
  - apply yield_defined_iff in E as (r & n & Hr & Hn & Hpos & Hnz).
    rewrite Hr, Hn. simpl. split.
    + intros [= <-]. by exists r, n.
    + by intros (r' & n' & [= <-] & _ & [= <-] & _ & ->).
  - split; [done|]. intros (r & n & Hr & Hpos & Hn & Hnz & _).
    assert (yield_defined (vR p) (vN p) = true) as Hd
      by (apply yield_defined_iff; by exists r, n).
    congruence.
Qed.

(** *** C1: when the summary's yield is defined *)

(** Registered price 1,000,000 and rent 10,000 for one key, each from a
    sample of five. *)
Definition thin_reg : list Row := [reg_row "2024-01" "APT" "2" "101" "1000000" "5"].
Definition thin_rent : list Row := [rent_row "2024-01" "APT" "2" "101" "10000" "5"].

(** C1, as stated, fails: with [min_sample = 20] and both samples of size 5
    the run still writes a summary whose yield is not null.  The claim would
    give [20 <= 5]. *)
Lemma summary_yield_ignores_min_sample :
  ¬ (∀ (min_sample : Z) (ask reg rent : list Row) (out : Output)
       (file : Path) (s : Summary),
       main min_sample ask reg rent = Ok out →
       (file, s) ∈ summary_files out →
       yield s ≠ None →
       (∃ r, median_registered s = Some r ∧ PrimFloat.ltb 0 r = true)
       ∧ is_Some (median_rent s)
       ∧ min_sample ≤ count_registered s ∧ min_sample ≤ count_rent s).
Proof.
  intros H.
  destruct (main 20 [] thin_reg thin_rent) as [out|e] eqn:E;
    [|by vm_compute in E].
  assert (∃ file s, summary_files out = [(file, s)]
                    ∧ yield s = Some 0.12%float ∧ count_registered s = 5)
    as (file & s & Hfiles & Hy & Hn).
  { vm_compute in E. injection E as <-. by eexists _, _. }
  destruct (H 20 [] thin_reg thin_rent out file s E) as (_ & _ & Hmin & _).
  - rewrite Hfiles. apply list_elem_of_singleton. done.
  - by rewrite Hy.
  - rewrite Hn in Hmin. lia.
Qed.

(** C1, amended: in every summary a completed run writes, the yield is
    non-null exactly when the registered price is present and above zero and
    the rent is present and not zero, and it is then [12 * rent / registered];
    the sample counts play no part.  *)
Theorem summary_yield_rule (min_sample : Z) (ask reg rent : list Row)
    (out : Output) (file : Path) (s : Summary) (y : float) :
  main min_sample ask reg rent = Ok out →
  (file, s) ∈ summary_files out →
  yield s = Some y ↔
  ∃ r n, median_registered s = Some r ∧ PrimFloat.ltb 0 r = true
         ∧ median_rent s = Some n ∧ PrimFloat.eqb n 0 = false
         ∧ y = (12 * n / r)%float.
Proof.
  intros Hmain Hin.
  apply main_summaries in Hmain as (A & R & N & _ & _ & _ & Hall).
  apply list_elem_of_lookup in Hin as [j Hj].
  destruct (Forall2_lookup_r _ _ _ _ _ Hall Hj) as (k & _ & p & i & _ & _ & _ & Hs).
  simpl in Hs. subst s. apply summary_of_yield.
Qed.

Lemma summary_yield_rule_witness :
  ∃ out file s,
    main 20 [] thin_reg thin_rent = Ok out
    ∧ (file, s) ∈ summary_files out
    ∧ (yield s = Some 0.12%float ↔
       ∃ r n, median_registered s = Some r ∧ PrimFloat.ltb 0 r = true
              ∧ median_rent s = Some n ∧ PrimFloat.eqb n 0 = false
              ∧ 0.12%float = (12 * n / r)%float).
Proof.
  destruct (main 20 [] thin_reg thin_rent) as [out|e] eqn:E;
    [|by vm_compute in E].
  assert (∃ file s, summary_files out = [(file, s)]) as (file & s & Hfiles).
  { vm_compute in E. injection E as <-. by eexists _, _. }
  assert ((file, s) ∈ summary_files out) as Hin
    by (rewrite Hfiles; by apply list_elem_of_singleton).
  exists out, file, s. split; [done|]. split; [done|].
  exact (summary_yield_rule 20 [] thin_reg thin_rent out file s 0.12%float E Hin).
Defined.

(** *** C3: which points a key paints *)

(** For one key, the array of each metric gains the point the rule names, or
    stays as it was when the rule names none. *)
Lemma process_key_emits (min_sample : Z) (A R N : gmap Key Row) (st : LoopState)
    (mo a b loc : Cell) (p : Parsed) (i : Z) :
  parse_key A R N (mo, a, b, loc) = Ok p →
  int_of_cell loc = Ok i →
  is_Some mo → is_Some a →
  ∃ st' file,
    process_key min_sample A R N st (mo, a, b, loc) = Ok st'
    ∧ summaries st' = summaries st ++ [(file, summary_of (mo, a, b, loc) p i)]
    ∧ ∀ metric,
        (∃ v, paint_rule min_sample p metric v
              ∧ paints_get (paints st') (metric, mo, a, b) =
                paints_get (paints st) (metric, mo, a, b) ++ [{| id := i; value := v |}])
        ∨ ((∀ v, ¬ paint_rule min_sample p metric v)
           ∧ paints_get (paints st') (metric, mo, a, b) =
             paints_get (paints st) (metric, mo, a, b)).
Proof.
  intros Hp Hi Hmo Ha.
  destruct (process_key_spec min_sample A R N st mo a b loc p i Hp Hi Hmo Ha)
    as (st' & file & Hrun & _ & Hsum & Hget).
  exists st', file. split; [done|]. split; [done|]. intros metric.
  rewrite Hget, decide_True by done.
  destruct (emitted_cases min_sample p i metric) as [(v & Hrule & ->)|[Hno ->]].
  - left. by exists v.
  - right. by rewrite app_nil_r.
Qed.

Lemma app_singleton_neq {X : Type} (l : list X) (x : X) : l ≠ l ++ [x].
Proof.
  intros H. apply (f_equal length) in H. rewrite length_app in H. simpl in H. lia.
Qed.

(** One asking row for locality 101 with a median price of 0 from a sample
    of 20. *)
Definition zero_key : Key := (Some "2024-01", Some "APT", Some "2", Some "101").
Definition zero_ask : gmap Key Row :=
  {[ zero_key := ask_row "2024-01" "APT" "2" "101" "0" "20" ]}.
Definition zero_parsed : Parsed :=
  {| nA := 20; nR := 0; nN := 0; vA := Some 0%float; vR := None; vN := None |}.
Definition empty_state : LoopState := {| paints := ∅; summaries := [] |}.

(** C3, as stated, fails: an asking price of 0 is present and its sample
    count equals [min_sample], yet no asking point is emitted. *)
Lemma present_zero_value_not_painted :
  ¬ (∀ (min_sample : Z) (A R N : gmap Key Row) (st st' : LoopState)
       (mo a b loc : Cell) (p : Parsed) (i : Z),
       parse_key A R N (mo, a, b, loc) = Ok p →
       int_of_cell loc = Ok i →
       process_key min_sample A R N st (mo, a, b, loc) = Ok st' →
       ((∃ v, vA p = Some v ∧ min_sample ≤ nA p
              ∧ paints_get (paints st') ("asking", mo, a, b) =
                paints_get (paints st) ("asking", mo, a, b) ++ [{| id := i; value := v |}])
        ∨ (¬ (is_Some (vA p) ∧ min_sample ≤ nA p)
           ∧ paints_get (paints st') ("asking", mo, a, b) =
             paints_get (paints st) ("asking", mo, a, b)))).
Proof.
  intros H.
  destruct (process_key 20 zero_ask ∅ ∅ empty_state zero_key) as [st'|e] eqn:E;
    [|by vm_compute in E].
  assert (paints_get (paints st') ("asking", Some "2024-01", Some "APT", Some "2") = [])
    as Hnone.
  { vm_compute in E. injection E as <-. reflexivity. }
  destruct (H 20 zero_ask ∅ ∅ empty_state st' (Some "2024-01") (Some "APT")
              (Some "2") (Some "101") zero_parsed 101) as [(v & _ & _ & Hv)|[Hno _]].
  - vm_compute. reflexivity.
  - vm_compute. reflexivity.
  - exact E.
  - pose proof (eq_trans (eq_sym Hnone) Hv) as Hbad. by vm_compute in Hbad.
  - apply Hno. split; [by eexists|]. simpl. lia.
Qed.

(** C3, amended: for every key and each metric, one point [{id, value}] is
    emitted exactly when the rule [paint_rule] holds: the value is present
    and not zero and its sample count is at least [min_sample] (equality
    qualifies); for yield the registered price is above zero, the rent is
    present and not zero, and both counts reach [min_sample].  Otherwise the
    key leaves the metric's array as it was. *)
Theorem paint_emission_rule (min_sample : Z) (A R N : gmap Key Row)
    (st : LoopState) (mo a b loc : Cell) (p : Parsed) (i : Z) (metric : string) :
  parse_key A R N (mo, a, b, loc) = Ok p →
  int_of_cell loc = Ok i →
  is_Some mo → is_Some a →
  ∃ st',
    process_key min_sample A R N st (mo, a, b, loc) = Ok st'
    ∧ ((∃ v, paint_rule min_sample p metric v
             ∧ paints_get (paints st') (metric, mo, a, b) =
               paints_get (paints st) (metric, mo, a, b) ++ [{| id := i; value := v |}])
       ∨ ((∀ v, ¬ paint_rule min_sample p metric v)
          ∧ paints_get (paints st') (metric, mo, a, b) =
            paints_get (paints st) (metric, mo, a, b))).
Proof.
  intros Hp Hi Hmo Ha.
  destruct (process_key_emits min_sample A R N st mo a b loc p i Hp Hi Hmo Ha)
    as (st' & file & Hrun & _ & Hrule).
  exists st'. split; [exact Hrun|]. apply Hrule.
Qed.

(** An asking row whose sample count is exactly the threshold. *)
Definition edge_ask : gmap Key Row :=
  {[ zero_key := ask_row "2024-01" "APT" "2" "101" "1200000" "20" ]}.
Definition edge_parsed : Parsed :=
  {| nA := 20; nR := 0; nN := 0; vA := Some 1200000%float; vR := None; vN := None |}.

Lemma paint_emission_rule_witness :
  ∃ st',
    process_key 20 edge_ask ∅ ∅ empty_state zero_key = Ok st'
    ∧ ((∃ v, paint_rule 20 edge_parsed "asking" v
             ∧ paints_get (paints st') ("asking", Some "2024-01", Some "APT", Some "2") =
               paints_get (paints empty_state)
                 ("asking", Some "2024-01", Some "APT", Some "2")
               ++ [{| id := 101; value := v |}])
       ∨ ((∀ v, ¬ paint_rule 20 edge_parsed "asking" v)
          ∧ paints_get (paints st') ("asking", Some "2024-01", Some "APT", Some "2") =
            paints_get (paints empty_state)
              ("asking", Some "2024-01", Some "APT", Some "2"))).
Proof.
  apply (paint_emission_rule 20 edge_ask ∅ ∅ empty_state
           (Some "2024-01") (Some "APT") (Some "2") (Some "101") edge_parsed 101 "asking").
  - vm_compute. reflexivity.
  - vm_compute. reflexivity.
  - by eexists.
  - by eexists.
Defined.

(** *** C4: the yield formula *)

Lemma yield_rule_value (min_sample : Z) (p : Parsed) (v : float) :
  paint_rule min_sample p "yield" v →
  ∃ r n, vR p = Some r ∧ vN p = Some n ∧ v = (12 * n / r)%float.
Proof.
  intros [(Hm & _)|[(Hm & _)|[(Hm & _)|(_ & r & n & Hr & _ & Hn & _ & _ & _ & ->)]]];
    try discriminate Hm.
  by exists r, n.
Qed.

(** C4: for every key the yield written to the summary and the yield painted
    are [12 * rent / registered] in binary64 arithmetic; with a registered
    price of 1,000,000 and a rent of 10,000 whose sample counts reach
    [min_sample] both are 0.12. *)
Theorem yield_formula (min_sample : Z) (A R N : gmap Key Row) (st : LoopState)
    (mo a b loc : Cell) (p : Parsed) (i : Z) :
  parse_key A R N (mo, a, b, loc) = Ok p →
  int_of_cell loc = Ok i →
  is_Some mo → is_Some a →
  ∃ st' file s,
    process_key min_sample A R N st (mo, a, b, loc) = Ok st'
    ∧ summaries st' = summaries st ++ [(file, s)]
    ∧ (∀ y, yield s = Some y →
            ∃ r n, vR p = Some r ∧ vN p = Some n ∧ y = (12 * n / r)%float)
    ∧ (∀ v, paints_get (paints st') ("yield", mo, a, b) =
            paints_get (paints st) ("yield", mo, a, b) ++ [{| id := i; value := v |}] →
            ∃ r n, vR p = Some r ∧ vN p = Some n ∧ v = (12 * n / r)%float)
    ∧ (vR p = Some 1000000%float → vN p = Some 10000%float →
       min_sample ≤ nR p → min_sample ≤ nN p →
       yield s = Some 0.12%float
       ∧ paints_get (paints st') ("yield", mo, a, b) =
         paints_get (paints st) ("yield", mo, a, b)
         ++ [{| id := i; value := 0.12%float |}]).
Proof.
  intros Hp Hi Hmo Ha.
  destruct (process_key_emits min_sample A R N st mo a b loc p i Hp Hi Hmo Ha)
    as (st' & file & Hrun & Hsum & Hrule).
  exists st', file, (summary_of (mo, a, b, loc) p i).
  split; [exact Hrun|]. split; [exact Hsum|]. split; [|split].
  - intros y Hy.
    apply (proj1 (summary_of_yield _ _ _ _)) in Hy
      as (r & n & Hr & _ & Hn & _ & ->).
    by exists r, n.
  - intros v Hv. destruct (Hrule "yield") as [(v' & Hv' & Hget)|[_ Hget]].
    + rewrite Hget in Hv. apply app_inv_head in Hv. injection Hv as ->.
      by apply (yield_rule_value min_sample).
    + rewrite Hget in Hv. by apply app_singleton_neq in Hv.
  - intros Hr Hn HnR HnN. split.
    + apply (proj2 (summary_of_yield _ _ _ _)).
      exists 1000000%float, 10000%float.
      split; [exact Hr|]. split; [reflexivity|]. split; [exact Hn|].
      split; reflexivity.
    + destruct (Hrule "yield") as [(v' & Hv' & Hget)|[Hno _]].
      * apply yield_rule_value in Hv' as (r & n & Hr' & Hn' & ->).
        rewrite Hr in Hr'. injection Hr' as <-.
        rewrite Hn in Hn'. injection Hn' as <-. exact Hget.
      * exfalso. apply (Hno 0.12%float). do 3 right. split; [done|].
        exists 1000000%float, 10000%float.
        split; [exact Hr|]. split; [reflexivity|]. split; [exact Hn|].
        split; [reflexivity|]. split; [exact HnR|]. split; [exact HnN|].
        reflexivity.
Qed.

(** Registered price 1,000,000 and rent 10,000 for one key, each from a
    sample of exactly 20. *)
Definition full_reg : gmap Key Row :=
  {[ zero_key := reg_row "2024-01" "APT" "2" "101" "1000000" "20" ]}.
Definition full_rent : gmap Key Row :=
  {[ zero_key := rent_row "2024-01" "APT" "2" "101" "10000" "20" ]}.
Definition full_parsed : Parsed :=
  {| nA := 0; nR := 20; nN := 20;
     vA := None; vR := Some 1000000%float; vN := Some 10000%float |}.

Lemma yield_formula_witness :
  ∃ st' file s,
    process_key 20 ∅ full_reg full_rent empty_state zero_key = Ok st'
    ∧ summaries st' = [(file, s)]
    ∧ yield s = Some 0.12%float
    ∧ paints_get (paints st') ("yield", Some "2024-01", Some "APT", Some "2") =
      [{| id := 101; value := 0.12%float |}].
Proof.
  destruct (yield_formula 20 ∅ full_reg full_rent empty_state
              (Some "2024-01") (Some "APT") (Some "2") (Some "101") full_parsed 101)
    as (st' & file & s & Hrun & Hsum & _ & _ & H012).
  - vm_compute. reflexivity.
  - vm_compute. reflexivity.
  - by eexists.
  - by eexists.
  - exists st', file, s. split; [exact Hrun|]. split; [exact Hsum|].
    apply H012; [reflexivity | reflexivity | simpl; lia | simpl; lia].
Defined.

(** *** C10: a value of zero *)

Lemma zero_not_positive (v : float) :
  PrimFloat.eqb v 0 = true → PrimFloat.ltb 0 v = false.
Proof.
  intros Hz. destruct (PrimFloat.ltb 0 v) eqn:E; [|done].
  apply pos_truthy in E. unfold truthy_float in E. by rewrite Hz in E.
Qed.

(** C10: a value that parses to zero ([0.0] or [-0.0]) is never painted for
    its metric, whatever its sample count; a rent of zero (and likewise a
    registered price of zero) leaves the yield array untouched and the
    summary's yield null; the zero itself is still written to the summary's
    median field. *)
Theorem zero_value_never_painted (min_sample : Z) (A R N : gmap Key Row)
    (st : LoopState) (mo a b loc : Cell) (p : Parsed) (i : Z) :
  parse_key A R N (mo, a, b, loc) = Ok p →
  int_of_cell loc = Ok i →
  is_Some mo → is_Some a →
  ∃ st' file s,
    process_key min_sample A R N st (mo, a, b, loc) = Ok st'
    ∧ summaries st' = summaries st ++ [(file, s)]
    ∧ (∀ v, vA p = Some v → PrimFloat.eqb v 0 = true →
         paints_get (paints st') ("asking", mo, a, b) =
         paints_get (paints st) ("asking", mo, a, b)
         ∧ median_asking s = Some v)
    ∧ (∀ v, vR p = Some v → PrimFloat.eqb v 0 = true →
         paints_get (paints st') ("registered", mo, a, b) =
         paints_get (paints st) ("registered", mo, a, b)
         ∧ paints_get (paints st') ("yield", mo, a, b) =
           paints_get (paints st) ("yield", mo, a, b)
         ∧ yield s = None
         ∧ median_registered s = Some v)
    ∧ (∀ v, vN p = Some v → PrimFloat.eqb v 0 = true →
         paints_get (paints st') ("rent", mo, a, b) =
         paints_get (paints st) ("rent", mo, a, b)
         ∧ paints_get (paints st') ("yield", mo, a, b) =
           paints_get (paints st) ("yield", mo, a, b)
         ∧ yield s = None
         ∧ median_rent s = Some v).
Proof.
  intros Hp Hi Hmo Ha.
  destruct (process_key_emits min_sample A R N st mo a b loc p i Hp Hi Hmo Ha)
    as (st' & file & Hrun & Hsum & Hrule).
  exists st', file, (summary_of (mo, a, b, loc) p i).
  split; [exact Hrun|]. split; [exact Hsum|].
  assert (∀ metric, (∀ v, ¬ paint_rule min_sample p metric v) →
            paints_get (paints st') (metric, mo, a, b) =
            paints_get (paints st) (metric, mo, a, b)) as Hsame.
  { intros metric Hno. destruct (Hrule metric) as [(v & Hv & _)|[_ Hget]]; [|done].
    by destruct (Hno v). }
  assert (∀ v, (vR p = Some v ∨ vN p = Some v) → PrimFloat.eqb v 0 = true →
            (∀ y, ¬ paint_rule min_sample p "yield" y)
            ∧ yield (summary_of (mo, a, b, loc) p i) = None) as Hyield.
  { intros v Hv Hz.
    assert (∀ r n, vR p = Some r → PrimFloat.ltb 0 r = true →
              vN p = Some n → PrimFloat.eqb n 0 = false → False) as Hoff.
    { intros r n Hr Hpos Hn Hnz. destruct Hv as [Hv|Hv].
      - rewrite Hr in Hv. injection Hv as <-.
        apply zero_not_positive in Hz. congruence.
      - rewrite Hn in Hv. injection Hv as <-. congruence. }
    split.
    - intros y [(Hm & _)|[(Hm & _)|[(Hm & _)|(_ & r & n & Hr & Hpos & Hn & Hnz & _)]]];
        try discriminate Hm.
      by apply (Hoff r n).
    - destruct (yield (summary_of (mo, a, b, loc) p i)) as [y|] eqn:E; [|done].
      apply (proj1 (summary_of_yield _ _ _ _)) in E
        as (r & n & Hr & Hpos & Hn & Hnz & _).
      by destruct (Hoff r n). }
  split; [|split].
  - intros v Hv Hz. split; [|exact Hv]. apply Hsame.
    intros v' [(_ & Hv' & Hnz & _)|[(Hm & _)|[(Hm & _)|(Hm & _)]]];
      try discriminate Hm.
    rewrite Hv in Hv'. injection Hv' as <-. congruence.
  - intros v Hv Hz. destruct (Hyield v (or_introl Hv) Hz) as [Hno Hnone].
    split; [|split; [by apply Hsame|split; [exact Hnone|exact Hv]]].
    apply Hsame.
    intros v' [(Hm & _)|[(_ & Hv' & Hnz & _)|[(Hm & _)|(Hm & _)]]];
      try discriminate Hm.
    rewrite Hv in Hv'. injection Hv' as <-. congruence.
  - intros v Hv Hz. destruct (Hyield v (or_intror Hv) Hz) as [Hno Hnone].
    split; [|split; [by apply Hsame|split; [exact Hnone|exact Hv]]].
    apply Hsame.
    intros v' [(Hm & _)|[(Hm & _)|[(_ & Hv' & Hnz & _)|(Hm & _)]]];
      try discriminate Hm.
    rewrite Hv in Hv'. injection Hv' as <-. congruence.
Qed.

(** A rent of zero beside a registered price, both from samples of 20. *)
Definition zero_rent : gmap Key Row :=
  {[ zero_key := rent_row "2024-01" "APT" "2" "101" "0" "20" ]}.
Definition zero_rent_parsed : Parsed :=
  {| nA := 0; nR := 20; nN := 20;
     vA := None; vR := Some 1000000%float; vN := Some 0%float |}.

Lemma zero_value_never_painted_witness :
  ∃ st' file s,
    process_key 20 ∅ full_reg zero_rent empty_state zero_key = Ok st'
    ∧ summaries st' = [(file, s)]
    ∧ paints_get (paints st') ("rent", Some "2024-01", Some "APT", Some "2") = []
    ∧ paints_get (paints st') ("yield", Some "2024-01", Some "APT", Some "2") = []
    ∧ yield s = None
    ∧ median_rent s = Some 0%float.
Proof.
  destruct (zero_value_never_painted 20 ∅ full_reg zero_rent empty_state
              (Some "2024-01") (Some "APT") (Some "2") (Some "101")
              zero_rent_parsed 101)
    as (st' & file & s & Hrun & Hsum & _ & _ & Hrent).
  - vm_compute. reflexivity.
  - vm_compute. reflexivity.
  - by eexists.
  - by eexists.
  - exists st', file, s. split; [exact Hrun|]. split; [exact Hsum|].
    apply (Hrent 0%float); reflexivity.
Defined.

(** *** C2: numeric fields that do not parse *)

(** [f2] has no exception to pass on, and what it returns is finite. *)
Lemma f2_finite (x : Cell) (v : float) : f2 x = Some v → isfinite v = true.
Proof.
  unfold f2. destruct (float_of_cell x) as [w|e]; [|done].
  destruct (isfinite w) eqn:E; [|done]. by intros [= <-].
Qed.

(** C2, evaluated: a sample size that is present but not an integer ("abc")
    makes [int()] raise [ValueError], which nothing catches: the run aborts.
    An absent or empty sample size gives 0, and [f2] returns [None] for an
    absent, unparseable, infinite or NaN value. *)
Theorem unparseable_sample_size_aborts :
  main 20 [ask_row "2024-01" "APT" "2" "101" "1200000" "abc"] [] [] = Raise ValueError
  ∧ main 20 [] [reg_row "2024-01" "APT" "2" "101" "1000000" "12.0"] [] = Raise ValueError
  ∧ sample_size (Some (ask_row "2024-01" "APT" "2" "101" "1200000" "")) = Ok 0
  ∧ sample_size (Some (delete "SampleSize"
                         (ask_row "2024-01" "APT" "2" "101" "1200000" "7"))) = Ok 0
  ∧ sample_size None = Ok 0
  ∧ f2 None = None ∧ f2 (Some "") = None ∧ f2 (Some "abc") = None
  ∧ f2 (Some "inf") = None ∧ f2 (Some "-Infinity") = None
  ∧ f2 (Some "nan") = None ∧ f2 (Some "1e999") = None.
Proof.
  repeat split; vm_compute; reflexivity.
Qed.

(** *** C5: the union of the keys, and a key with rent only *)

Lemma index_rows_lookup (rows : list Row) (acc m : gmap Key Row) :
  index_rows rows acc = Ok m →
  (∀ k, k ∈ dom m ↔ k ∈ dom acc ∨ ∃ r, r ∈ rows ∧ to_key r = Ok k)
  ∧ (∀ k r, m !! k = Some r → acc !! k = Some r ∨ (r ∈ rows ∧ to_key r = Ok k)).
Proof.
  revert acc. induction rows as [|r rows IH]; intros acc H; cbn [index_rows] in H.
  - injection H as <-. split; [|auto].
    intros k. split; [auto|]. intros [?|(r & Hr & _)]; [done|].
    by apply elem_of_nil in Hr.
  - inv_bind H k Hk. apply IH in H as [Hdom Hlook]. split.
    + intros k'. rewrite Hdom, dom_insert_L, elem_of_union, elem_of_singleton.
      split.
      * intros [[->|?]|(r' & Hr' & Hk')].
        -- right. exists r. split; [apply list_elem_of_here|done].
        -- by left.
        -- right. exists r'. split; [by apply list_elem_of_further|done].
      * intros [?|(r' & Hr' & Hk')]; [left; by right|].
        apply elem_of_cons in Hr' as [->|Hr'].
        -- left. left. congruence.
        -- right. by exists r'.
    + intros k' r' Hm. apply Hlook in Hm as [Hm|[Hr' Hk']].
      * destruct (decide (k = k')) as [->|Hne].
        -- rewrite lookup_insert_eq in Hm. injection Hm as <-.
           right. split; [apply list_elem_of_here|done].
        -- rewrite lookup_insert_ne in Hm by done. by left.
      * right. split; [by apply list_elem_of_further|done].
Qed.

(** A key no asking row and no registered row carries parses to absent
    asking and registered values with sample counts of 0. *)
Lemma parse_key_rent_only (A R N : gmap Key Row) (k : Key) (p : Parsed) :
  A !! k = None → R !! k = None →
  parse_key A R N k = Ok p →
  nA p = 0 ∧ vA p = None ∧ nR p = 0 ∧ vR p = None.
Proof.
  intros HA HR H. unfold parse_key in H. rewrite HA, HR in H.
  cbn [sample_size value_of mbind result_bind] in H.
  inv_bind H n Hn. inv_bind H v Hv. apply ret_Ok in H. by subst p.
Qed.

(** **** Inputs on which the run completes *)

(** A sample-size cell the run can take: absent, empty, or an integer. *)
Definition sample_ok (row : Row) : Prop :=
  truthy_cell (get row "SampleSize") = false
  ∨ ∃ n, int_of_cell (get row "SampleSize") = Ok n.

(** A key the run can take: month and asset are strings and the locality id
    is an integer. *)
Definition key_ok (k : Key) : Prop :=
  is_Some k.1.1.1 ∧ is_Some k.1.1.2 ∧ ∃ i, int_of_cell k.2 = Ok i.

(** A row the run can take from the metric file whose value column is [col]. *)
Definition row_ok (col : string) (row : Row) : Prop :=
  (∃ k, to_key row = Ok k ∧ key_ok k) ∧ is_Some (row !! col) ∧ sample_ok row.

Lemma sample_size_ok (x : option Row) :
  (∀ row, x = Some row → sample_ok row) → ∃ n, sample_size x = Ok n.
Proof.
  destruct x as [row|]; [|by exists 0]. intros H. specialize (H row eq_refl).
  unfold sample_size.
  destruct (truthy_row row && truthy_cell (get row "SampleSize")) eqn:E;
    [|by exists 0].
  apply andb_true_iff in E as [_ E]. unfold sample_ok, getitem, get in *.
  destruct (row !! "SampleSize") as [c|]; [|done].
  cbn [mjoin option_join mbind result_bind] in *.
  destruct H as [H|[n H]]; [congruence|]. by exists n.
Qed.

Lemma value_of_ok (x : option Row) (col : string) :
  (∀ row, x = Some row → is_Some (row !! col)) → ∃ v, value_of x col = Ok v.
Proof.
  destruct x as [row|]; [|by exists None]. intros H.
  destruct (H row eq_refl) as [c Hc]. unfold value_of, getitem. rewrite Hc.
  destruct (truthy_row row); by eexists.
Qed.

Lemma parse_key_ok (A R N : gmap Key Row) (k : Key) :
  (∀ row, A !! k = Some row → is_Some (row !! "MedianAskingPrice") ∧ sample_ok row) →
  (∀ row, R !! k = Some row → is_Some (row !! "MedianRegisteredPrice") ∧ sample_ok row) →
  (∀ row, N !! k = Some row → is_Some (row !! "MedianMonthlyRent") ∧ sample_ok row) →
  ∃ p, parse_key A R N k = Ok p.
Proof.
  intros HA HR HN. unfold parse_key.
  destruct (sample_size_ok (A !! k)) as [nA' ->]; [naive_solver|].
  destruct (sample_size_ok (R !! k)) as [nR' ->]; [naive_solver|].
  destruct (sample_size_ok (N !! k)) as [nN' ->]; [naive_solver|].
  destruct (value_of_ok (A !! k) "MedianAskingPrice") as [vA' ->]; [naive_solver|].
  destruct (value_of_ok (R !! k) "MedianRegisteredPrice") as [vR' ->]; [naive_solver|].
  destruct (value_of_ok (N !! k) "MedianMonthlyRent") as [vN' ->]; [naive_solver|].
  by eexists.
Qed.

Lemma process_keys_ok (min_sample : Z) (A R N : gmap Key Row) (keys : list Key)
    (st : LoopState) :
  Forall (λ k, key_ok k ∧ ∃ p, parse_key A R N k = Ok p) keys →
  ∃ st', process_keys min_sample A R N st keys = Ok st'.
Proof.
  intros H. revert st. induction H as [|k keys [Hk [p Hp]] _ IH]; intros st.
  - by exists st.
  - destruct k as [[[mo a] b] loc]. destruct Hk as (Hmo & Ha & i & Hi).
    destruct (process_key_spec min_sample A R N st mo a b loc p i Hp Hi Hmo Ha)
      as (st1 & file & Hrun & _).
    cbn [process_keys]. rewrite Hrun. apply IH.
Qed.

(** The accumulator only gets keys made of the month and asset of a key that
    was processed, so every choropleth path can be built. *)
Definition paths_ok (paints : Paints) : Prop :=
  ∀ pk, is_Some (paints !! pk) → is_Some pk.1.1.2 ∧ is_Some pk.1.2.

Lemma append_point_paths (paints paints' : Paints) (pk : PaintKey) (loc : Cell)
    (v : float) :
  paths_ok paints → is_Some pk.1.1.2 → is_Some pk.1.2 →
  append_point paints pk loc v = Ok paints' → paths_ok paints'.
Proof.
  intros Hok Hmo Ha H. unfold append_point in H. inv_bind H i Hi.
  apply ret_Ok in H. subst paints'. intros pk' Hpk'.
  apply lookup_insert_is_Some' in Hpk' as [<-|Hpk']; [done|by apply Hok].
Qed.

Lemma paint_metric_paths (min_sample : Z) (metric : string) (mo a b loc : Cell)
    (v : option float) (n : Z) (paints paints' : Paints) :
  paths_ok paints → is_Some mo → is_Some a →
  paint_metric min_sample metric (mo, a, b, loc) v n paints = Ok paints' →
  paths_ok paints'.
Proof.
  intros Hok Hmo Ha H. unfold paint_metric in H.
  destruct v as [x|]; [destruct (truthy_float x && (min_sample <=? n))|];
    try (injection H as <-; done).
  exact (append_point_paths paints paints' (metric, mo, a, b) loc x Hok Hmo Ha H).
Qed.

Lemma process_key_paths (min_sample : Z) (A R N : gmap Key Row)
    (st st' : LoopState) (k : Key) :
  paths_ok (paints st) →
  process_key min_sample A R N st k = Ok st' → paths_ok (paints st').
Proof.
  intros Hok H.
  destruct (process_key_inv _ _ _ _ _ _ _ H) as (_ & _ & _ & _ & Hmo & Ha).
  destruct k as [[[mo a] b] loc]. cbn [fst snd] in Hmo, Ha.
  unfold process_key in H. inv_bind H p Hp. inv_bind H paints' Hpaints.
  inv_bind H s Hs. inv_bind H file Hfile. apply ret_Ok in H. subst st'.
  cbn [paints]. unfold emit_paints in Hpaints.
  inv_bind Hpaints p0 H0. inv_bind Hpaints p1 H1. inv_bind Hpaints p2 H2.
  assert (paths_ok p0) as Hok0.
  { destruct (yield_defined (vR p) (vN p) && (min_sample <=? nR p)
              && (min_sample <=? nN p)).
    - exact (append_point_paths _ _ ("yield", mo, a, b) _ _ Hok Hmo Ha H0).
    - by injection H0 as <-. }
  eapply paint_metric_paths in H1; [|done..].
  eapply paint_metric_paths in H2; [|done..].
  eapply paint_metric_paths in Hpaints; done.
Qed.

Lemma process_keys_paths (min_sample : Z) (A R N : gmap Key Row) (keys : list Key)
    (st st' : LoopState) :
  paths_ok (paints st) →
  process_keys min_sample A R N st keys = Ok st' → paths_ok (paints st').
Proof.
  revert st. induction keys as [|k keys IH]; intros st Hok H;
    cbn [process_keys] in H.
  - by injection H as <-.
  - inv_bind H st1 H1. eapply IH; [|exact H]. by eapply process_key_paths.
Qed.

Lemma write_paints_ok (items : list (PaintKey * list Point)) :
  Forall (λ it, is_Some it.1.1.1.2 ∧ is_Some it.1.1.2) items →
  ∃ files, write_paints items = Ok files.
Proof.
  induction 1 as [|[[[[metric mo] a] b] arr] items [Hmo Ha] _ [files IH]].
  - by exists [].
  - cbn [fst snd] in Hmo, Ha. destruct Hmo as [smo ->], Ha as [sa ->].
    cbn [write_paints]. unfold choropleth_path, path_join.
    cbn [mbind result_bind mret result_ret]. rewrite IH. by eexists.
Qed.

(** The run completes on well-formed rows, whatever keys each file has. *)
Lemma main_total (min_sample : Z) (ask reg rent : list Row) :
  Forall (row_ok "MedianAskingPrice") ask →
  Forall (row_ok "MedianRegisteredPrice") reg →
  Forall (row_ok "MedianMonthlyRent") rent →
  ∃ out, main min_sample ask reg rent = Ok out.
Proof.
  intros Hask Hreg Hrent.
  assert (∀ col rows, Forall (row_ok col) rows →
            ∃ m, index_rows rows ∅ = Ok m
                 ∧ ∀ k r, m !! k = Some r → row_ok col r ∧ key_ok k) as Hindex.
  { intros col rows Hrows.
    assert (∀ acc, ∃ m, index_rows rows acc = Ok m) as Hsome.
    { induction Hrows as [|r rows [(k & Hk & _) _] _ IH]; intros acc.
      - by exists acc.
      - cbn [index_rows]. rewrite Hk. apply IH. }
    destruct (Hsome ∅) as [m Hm]. exists m. split; [done|].
    intros k r Hkr.
    destruct (index_rows_lookup _ _ _ Hm) as [_ Hlook].
    destruct (Hlook k r Hkr) as [Hempty|[Hin Hkey]]; [by rewrite lookup_empty in Hempty|].
    rewrite Forall_forall in Hrows. pose proof (Hrows r Hin) as Hr.
    split; [done|]. destruct Hr as [(k' & Hk' & Hok) _]. congruence. }
  destruct (Hindex _ _ Hask) as (mA & HA & HAok).
  destruct (Hindex _ _ Hreg) as (mR & HR & HRok).
  destruct (Hindex _ _ Hrent) as (mN & HN & HNok).
  unfold main. rewrite HA, HR, HN. cbn [mbind result_bind].
  destruct (process_keys_ok min_sample mA mR mN (elements (all_keys mA mR mN))
              {| paints := ∅; summaries := [] |}) as [st Hst].
  { apply Forall_forall. intros k Hk. apply elem_of_elements in Hk.
    unfold all_keys in Hk. rewrite !elem_of_union, !elem_of_dom in Hk. split.
    - destruct Hk as [[[r Hr]|[r Hr]]|[r Hr]];
        [apply HAok in Hr|apply HRok in Hr|apply HNok in Hr]; by destruct Hr.
    - apply parse_key_ok; intros row Hrow.
      + apply HAok in Hrow as [(_ & Hcol & Hs) _]. by split.
      + apply HRok in Hrow as [(_ & Hcol & Hs) _]. by split.
      + apply HNok in Hrow as [(_ & Hcol & Hs) _]. by split. }
  rewrite Hst. cbn [mbind result_bind].
  destruct (write_paints_ok (map_to_list (paints st))) as [files ->].
  { apply Forall_forall. intros [pk arr] Hin. apply elem_of_map_to_list in Hin.
    eapply (process_keys_paths _ _ _ _ _ _ st); [|exact Hst|by eexists].
    intros pk' Hpk'. cbn [paints] in Hpk'. rewrite lookup_empty in Hpk'.
    by destruct Hpk'. }
  by eexists.
Qed.

(** One rent row for locality 101 whose rent cell is empty, from a sample
    of 25; no asking and no registered row. *)
Definition blank_rent : gmap Key Row :=
  {[ zero_key := rent_row "2024-01" "APT" "2" "101" "" "25" ]}.
Definition blank_rent_parsed : Parsed :=
  {| nA := 0; nR := 0; nN := 25; vA := None; vR := None; vN := None |}.

(** C5, as stated, fails in its last part: for a key present only in the rent
    file, a sample count that qualifies does not by itself give a rent point;
    here the count is 25 with [min_sample = 20], the rent cell is empty, and
    no rent point is emitted. *)
Lemma rent_point_needs_rent_value :
  ¬ (∀ (min_sample : Z) (A R N : gmap Key Row) (st st' : LoopState)
       (mo a b loc : Cell) (p : Parsed) (i : Z),
       A !! (mo, a, b, loc) = None → R !! (mo, a, b, loc) = None →
       is_Some (N !! (mo, a, b, loc)) →
       parse_key A R N (mo, a, b, loc) = Ok p →
       int_of_cell loc = Ok i →
       process_key min_sample A R N st (mo, a, b, loc) = Ok st' →
       (min_sample ≤ nN p ↔
        ∃ v, paints_get (paints st') ("rent", mo, a, b) =
             paints_get (paints st) ("rent", mo, a, b) ++ [{| id := i; value := v |}])).
Proof.
  intros H.
  destruct (process_key 20 ∅ ∅ blank_rent empty_state zero_key) as [st'|e] eqn:E;
    [|by vm_compute in E].
  assert (paints_get (paints st') ("rent", Some "2024-01", Some "APT", Some "2") = [])
    as Hnone.
  { vm_compute in E. injection E as <-. reflexivity. }
  destruct (proj1 (H 20 ∅ ∅ blank_rent empty_state st' (Some "2024-01") (Some "APT")
              (Some "2") (Some "101") blank_rent_parsed 101
              (lookup_empty _) (lookup_empty _) (ltac:(by eexists))
              (ltac:(vm_compute; reflexivity))
              (ltac:(vm_compute; reflexivity)) E)) as [v Hv].
  - simpl. lia.
  - pose proof (eq_trans (eq_sym Hnone) Hv) as Hbad. by vm_compute in Hbad.
Qed.

(** C5, amended: (1) on well-formed rows the run completes whichever of the
    three files a key is missing from; (2) a completed run has visited
    exactly the keys of the rows of the three files and written one summary
    per key; (3) a key present only in the rent file gets a summary with
    null asking median, registered median and yield, adds no asking,
    registered or yield point, and adds a rent point exactly when its rent
    value is present and not zero and its sample count reaches
    [min_sample]. *)
Theorem partial_keys_joined (min_sample : Z) :
  (∀ ask reg rent,
     Forall (row_ok "MedianAskingPrice") ask →
     Forall (row_ok "MedianRegisteredPrice") reg →
     Forall (row_ok "MedianMonthlyRent") rent →
     ∃ out, main min_sample ask reg rent = Ok out)
  ∧ (∀ ask reg rent out,
       main min_sample ask reg rent = Ok out →
       ∃ A R N,
         index_rows ask ∅ = Ok A ∧ index_rows reg ∅ = Ok R
         ∧ index_rows rent ∅ = Ok N
         ∧ (∀ k, k ∈ all_keys A R N ↔
                 ∃ row, row ∈ ask ++ reg ++ rent ∧ to_key row = Ok k)
         ∧ length (summary_files out) = size (all_keys A R N)
         ∧ ∀ k, k ∈ all_keys A R N →
             ∃ file s, (file, s) ∈ summary_files out
                       ∧ summary_path k = Ok file
                       ∧ month s = k.1.1.1 ∧ asset s = k.1.1.2 ∧ bhk s = k.1.2
                       ∧ int_of_cell k.2 = Ok (locality_id s))
  ∧ (∀ (A R N : gmap Key Row) (st : LoopState) (mo a b loc : Cell)
       (p : Parsed) (i : Z),
       A !! (mo, a, b, loc) = None → R !! (mo, a, b, loc) = None →
       parse_key A R N (mo, a, b, loc) = Ok p →
       int_of_cell loc = Ok i →
       is_Some mo → is_Some a →
       ∃ st' file s,
         process_key min_sample A R N st (mo, a, b, loc) = Ok st'
         ∧ summaries st' = summaries st ++ [(file, s)]
         ∧ median_asking s = None ∧ median_registered s = None ∧ yield s = None
         ∧ paints_get (paints st') ("asking", mo, a, b) =
           paints_get (paints st) ("asking", mo, a, b)
         ∧ paints_get (paints st') ("registered", mo, a, b) =
           paints_get (paints st) ("registered", mo, a, b)
         ∧ paints_get (paints st') ("yield", mo, a, b) =
           paints_get (paints st) ("yield", mo, a, b)
         ∧ ((∃ v, vN p = Some v ∧ PrimFloat.eqb v 0 = false ∧ min_sample ≤ nN p
                  ∧ paints_get (paints st') ("rent", mo, a, b) =
                    paints_get (paints st) ("rent", mo, a, b)
                    ++ [{| id := i; value := v |}])
            ∨ (¬ (∃ v, vN p = Some v ∧ PrimFloat.eqb v 0 = false
                       ∧ min_sample ≤ nN p)
               ∧ paints_get (paints st') ("rent", mo, a, b) =
                 paints_get (paints st) ("rent", mo, a, b)))).
Proof.
  split; [|split].
  - intros ask reg rent. apply main_total.
  - intros ask reg rent out Hmain.
    apply main_summaries in Hmain as (mA & mR & mN & HA & HR & HN & Hall).
    exists mA, mR, mN. split; [done|]. split; [done|]. split; [done|].
    split; [|split].
    + intros k. unfold all_keys. rewrite !elem_of_union.
      rewrite (proj1 (index_rows_lookup _ _ _ HA) k),
        (proj1 (index_rows_lookup _ _ _ HR) k),
        (proj1 (index_rows_lookup _ _ _ HN) k).
      rewrite dom_empty_L. setoid_rewrite elem_of_app. set_solver.
    + symmetry. exact (Forall2_length _ _ _ Hall).
    + intros k Hk. apply elem_of_elements, list_elem_of_lookup in Hk as [j Hj].
      destruct (Forall2_lookup_l _ _ _ _ _ Hall Hj)
        as ([file s] & Hjs & p & i & _ & Hi & Hfile & Hs).
      cbn [fst snd] in Hfile, Hs. subst s. exists file, (summary_of k p i).
      split; [by eapply list_elem_of_lookup_2|]. split; [done|].
      by destruct k as [[[mo a] b] loc].
  - intros A R N st mo a b loc p i HA HR Hp Hi Hmo Ha.
    destruct (parse_key_rent_only A R N _ p HA HR Hp) as (_ & HvA & _ & HvR).
    destruct (process_key_emits min_sample A R N st mo a b loc p i Hp Hi Hmo Ha)
      as (st' & file & Hrun & Hsum & Hrule).
    exists st', file, (summary_of (mo, a, b, loc) p i).
    split; [exact Hrun|]. split; [exact Hsum|].
    assert (∀ metric, (∀ v, ¬ paint_rule min_sample p metric v) →
              paints_get (paints st') (metric, mo, a, b) =
              paints_get (paints st) (metric, mo, a, b)) as Hsame.
    { intros metric Hno. destruct (Hrule metric) as [(v & Hv & _)|[_ Hget]]; [|done].
      by destruct (Hno v). }
    split; [exact HvA|]. split; [exact HvR|]. split; [|split; [|split; [|split]]].
    + destruct (yield (summary_of (mo, a, b, loc) p i)) as [y|] eqn:E; [|done].
      apply (proj1 (summary_of_yield _ _ _ _)) in E as (r & n & Hr & _).
      cbn [summary_of median_registered] in Hr. congruence.
    + apply Hsame.
      intros v [(_ & Hv & _)|[(Hm & _)|[(Hm & _)|(Hm & _)]]];
        try discriminate Hm. congruence.
    + apply Hsame.
      intros v [(Hm & _)|[(_ & Hv & _)|[(Hm & _)|(Hm & _)]]];
        try discriminate Hm. congruence.
    + apply Hsame.
      intros v [(Hm & _)|[(Hm & _)|[(Hm & _)|(_ & r & n & Hr & _)]]];
        try discriminate Hm. congruence.
    + destruct (Hrule "rent") as [(v & Hv & Hget)|[Hno Hget]].
      * left. exists v.
        destruct Hv as [(Hm & _)|[(Hm & _)|[(_ & Hv & Hnz & Hn)|(Hm & _)]]];
          try discriminate Hm. done.
      * right. split; [|exact Hget]. intros (v & Hv & Hnz & Hn).
        apply (Hno v). right. right. left. done.
Qed.

Lemma partial_keys_joined_witness :
  (∃ out, main 20 [] [] [rent_row "2024-01" "APT" "2" "101" "10000" "25"] = Ok out)
  ∧ ∃ st' file s,
      process_key 20 ∅ ∅ blank_rent empty_state zero_key = Ok st'
      ∧ summaries st' = [(file, s)]
      ∧ median_asking s = None ∧ median_registered s = None ∧ yield s = None.
Proof.
  destruct (partial_keys_joined 20) as (Htotal & _ & Hrent). split.
  - apply Htotal; [constructor|constructor|].
    constructor; [|constructor]. split; [|split].
    + eexists. split; [vm_compute; reflexivity|].
      split; [by eexists|]. split; [by eexists|].
      eexists. vm_compute. reflexivity.
    + vm_compute. by eexists.
    + right. eexists. vm_compute. reflexivity.
  - destruct (Hrent ∅ ∅ blank_rent empty_state (Some "2024-01") (Some "APT")
                (Some "2") (Some "101") blank_rent_parsed 101)
      as (st' & file & s & Hrun & Hsum & HA & HR & Hy & _).
    + apply lookup_empty.
    + apply lookup_empty.
    + vm_compute. reflexivity.
    + vm_compute. reflexivity.
    + by eexists.
    + by eexists.
    + by exists st', file, s.
Defined.


(** *** Rows that share a key (lines 39-41) *)

Lemma index_rows_app (rows1 rows2 : list Row) (acc : gmap Key Row) :
  index_rows (rows1 ++ rows2) acc = (m ← index_rows rows1 acc; index_rows rows2 m).
Proof.
  revert acc. induction rows1 as [|r rows1 IH]; intros acc; [done|].
  cbn [app index_rows]. destruct (to_key r) as [k|e]; [|done].
  cbn [mbind result_bind]. apply IH.
Qed.

Lemma index_rows_keeps (rows : list Row) (acc m : gmap Key Row) (k : Key) :
  index_rows rows acc = Ok m →
  (∀ r, r ∈ rows → to_key r ≠ Ok k) →
  m !! k = acc !! k.
Proof.
  revert acc. induction rows as [|r rows IH]; intros acc H Hk; cbn [index_rows] in H.
  - by injection H as <-.
  - inv_bind H k' Hk'. rewrite (IH _ H) by (intros r' Hr'; apply Hk; set_solver).
    apply lookup_insert_ne. intros ->. by apply (Hk r); [set_solver|].
Qed.

(** When several rows of a metric file carry the same key, the mapping keeps
    the last of them: the row [r] is the one looked up under its key when no
    row after it has that key. *)
Theorem last_row_of_key_wins (rows1 rows2 : list Row) (r : Row) (k : Key)
    (acc m : gmap Key Row) :
  index_rows (rows1 ++ r :: rows2) acc = Ok m →
  to_key r = Ok k →
  (∀ r', r' ∈ rows2 → to_key r' ≠ Ok k) →
  m !! k = Some r.
Proof.
  intros H Hk Hlater. rewrite index_rows_app in H. inv_bind H m1 H1.
  cbn [index_rows] in H. rewrite Hk in H. cbn [mbind result_bind] in H.
  rewrite (index_rows_keeps _ _ _ k H Hlater). apply lookup_insert_eq.
Qed.

(** Three asking rows, the first two for the same key. *)
Definition repeated_ask : list Row :=
  [ask_row "2024-01" "APT" "2" "101" "1200000" "20";
   ask_row "2024-01" "APT" "2" "101" "1300000" "30";
   ask_row "2024-01" "APT" "3" "101" "1800000" "40"].

(** [r] is a value, as a boolean that can be computed. *)
Definition returns {X} (r : result X) : bool :=
  match r with
  | Ok _ => true
  | Raise _ => false
  end.

Lemma returns_Ok {X} (r : result X) : returns r = true → ∃ x, r = Ok x.
Proof. destruct r as [x|e]; [by exists x|done]. Qed.

Lemma last_row_of_key_wins_witness :
  ∃ m, index_rows repeated_ask ∅ = Ok m
       ∧ m !! zero_key = Some (ask_row "2024-01" "APT" "2" "101" "1300000" "30").
Proof.
  destruct (returns_Ok (index_rows repeated_ask ∅)) as [m Hm];
    [vm_compute; reflexivity|].
  exists m. split; [done|].
  apply (last_row_of_key_wins [ask_row "2024-01" "APT" "2" "101" "1200000" "20"]
           [ask_row "2024-01" "APT" "3" "101" "1800000" "40"] _ _ ∅ m Hm).
  - vm_compute. reflexivity.
  - intros r' ->%list_elem_of_singleton. vm_compute. discriminate.
Defined.

(** *** Rows without a key column (lines 15-16) *)

Lemma to_key_raises (r : Row) (e : exn) : to_key r = Raise e → e = KeyError.
Proof.
  unfold to_key, getitem.
  destruct (r !! "Month"); [|by intros [= <-]]. cbn [mbind result_bind].
  destruct (r !! "AssetType"); [|by intros [= <-]]. cbn [mbind result_bind].
  destruct (r !! "BHK"); [|by intros [= <-]]. cbn [mbind result_bind].
  destruct (r !! "LocalityID"); [|by intros [= <-]]. done.
Qed.


Lemma index_rows_raises (rows : list Row) (acc : gmap Key Row) :
  (∃ m, index_rows rows acc = Ok m ∧ ∀ r, r ∈ rows → ∃ k, to_key r = Ok k)
  ∨ (index_rows rows acc = Raise KeyError ∧ ∃ r e, r ∈ rows ∧ to_key r = Raise e).
Proof.
  revert acc. induction rows as [|r rows IH]; intros acc.
  - left. exists acc. split; [done|]. intros r Hr. by apply elem_of_nil in Hr.
  - cbn [index_rows]. destruct (to_key r) as [k|e] eqn:Hk.
    + cbn [mbind result_bind].
      destruct (IH (<[k := r]> acc)) as [(m & Hm & Hall)|(Hm & r' & e & Hr' & He)].
      * left. exists m. split; [done|]. intros r' [->|Hr']%elem_of_cons; eauto.
      * right. split; [done|]. exists r', e. split; [set_solver|done].
    + right. rewrite (to_key_raises _ _ Hk). split; [done|].
      exists r, e. split; [set_solver|done].
Qed.



(** *** The keys of a run that returns (lines 61-79) *)

Lemma process_keys_each (min_sample : Z) (A R N : gmap Key Row) (keys : list Key)
    (st st' : LoopState) (k : Key) :
  process_keys min_sample A R N st keys = Ok st' →
  k ∈ keys →
  ∃ st1 st2, process_key min_sample A R N st1 k = Ok st2.
Proof.
  revert st. induction keys as [|k' keys IH]; intros st H Hk;
    [by apply elem_of_nil in Hk|].
  cbn [process_keys] in H. inv_bind H st1 H1.
  apply elem_of_cons in Hk as [->|Hk]; [by exists st, st1|by eapply IH].
Qed.

Lemma row_key_visited (rows : list Row) (m : gmap Key Row) (r : Row) :
  index_rows rows ∅ = Ok m → r ∈ rows → ∃ k, to_key r = Ok k ∧ k ∈ dom m.
Proof.
  intros Hm Hr.
  destruct (index_rows_raises rows ∅) as [(m' & _ & Hall)|[Hbad _]]; [|congruence].
  destruct (Hall r Hr) as [k Hk]. exists k. split; [done|].
  apply (proj1 (index_rows_lookup _ _ _ Hm)). right. by exists r.
Qed.

(** A run that returns has read, in every row of the three files, a month
    and an asset type that are strings and a locality id that [int()]
    accepts: a row with a [LocalityID] such as ["12.0"] or ["n/a"] ends the
    run with an exception instead. *)
Theorem completed_run_keys (min_sample : Z) (ask reg rent : list Row)
    (out : Output) (r : Row) :
  main min_sample ask reg rent = Ok out →
  r ∈ ask ++ reg ++ rent →
  ∃ mo a b loc i,
    to_key r = Ok (Some mo, Some a, b, loc) ∧ int_of_cell loc = Ok i.
Proof.
  intros Hmain Hr.
  destruct (main_inv _ _ _ _ _ Hmain) as (A & R & N & st & HA & HR & HN & Hst & _).
  assert (∃ k, to_key r = Ok k ∧ k ∈ all_keys A R N) as (k & Hk & Hin).
  { unfold all_keys. rewrite !elem_of_app in Hr. destruct Hr as [Hr|[Hr|Hr]].
    - destruct (row_key_visited _ _ _ HA Hr) as (k & Hk & Hin).
      exists k. split; [done|]. set_solver.
    - destruct (row_key_visited _ _ _ HR Hr) as (k & Hk & Hin).
      exists k. split; [done|]. set_solver.
    - destruct (row_key_visited _ _ _ HN Hr) as (k & Hk & Hin).
      exists k. split; [done|]. set_solver. }
  destruct (process_keys_each _ _ _ _ _ _ _ k Hst) as (st1 & st2 & Hrun);
    [by apply elem_of_elements|].
  apply process_key_inv in Hrun as (p & i & _ & Hi & [mo Hmo] & [a Ha]).
  destruct k as [[[mo' a'] b] loc]. cbn [fst snd] in *. subst mo' a'.
  by exists mo, a, b, loc, i.
Qed.

Lemma completed_run_keys_witness :
  ∃ mo a b loc i,
    to_key (reg_row "2024-01" "APT" "2" " 101 " "1000000" "20")
    = Ok (Some mo, Some a, b, loc) ∧ int_of_cell loc = Ok i.
Proof.
  destruct (returns_Ok (main 20 [] [reg_row "2024-01" "APT" "2" " 101 " "1000000" "20"] []))
    as [out Hmain]; [vm_compute; reflexivity|].
  apply (completed_run_keys 20 [] [reg_row "2024-01" "APT" "2" " 101 " "1000000" "20"]
           [] out _ Hmain).
  apply elem_of_app. right. apply elem_of_app. left. apply list_elem_of_here.
Defined.

(** *** The choropleth arrays of a run (lines 59-68, 81-85) *)

(** The points a key contributes to the array of [metric]. *)
Definition key_points (min_sample : Z) (A R N : gmap Key Row) (metric : string)
    (k : Key) : list Point :=
  match parse_key A R N k, int_of_cell k.2 with
  | Ok p, Ok i => emitted min_sample p i metric
  | _, _ => []
  end.

Lemma process_keys_paints (min_sample : Z) (A R N : gmap Key Row) (keys : list Key)
    (st st' : LoopState) (metric : string) (mo a b : Cell) :
  process_keys min_sample A R N st keys = Ok st' →
  paints_get (paints st') (metric, mo, a, b) =
  paints_get (paints st) (metric, mo, a, b)
  ++ mjoin ((λ k, if decide (k.1 = (mo, a, b))
                   then key_points min_sample A R N metric k else []) <$> keys).
Proof.
  revert st. induction keys as [|k keys IH]; intros st H; cbn [process_keys] in H.
  - injection H as <-. by rewrite app_nil_r.
  - inv_bind H st1 H1. rewrite (IH _ H). rewrite fmap_cons. cbn [mjoin list_join].
    rewrite app_assoc. f_equal.
    destruct (process_key_inv _ _ _ _ _ _ _ H1) as (p & i & Hp & Hi & Hmo & Ha).
    destruct k as [[[mo' a'] b'] loc]. cbn [fst snd] in Hi, Hmo, Ha.
    destruct (process_key_spec min_sample A R N st mo' a' b' loc p i Hp Hi Hmo Ha)
      as (st1' & file & Hrun & _ & _ & Hget).
    rewrite H1 in Hrun. injection Hrun as <-. rewrite Hget. f_equal.
    unfold key_points. cbn [fst snd]. rewrite Hp, Hi.
    destruct (decide ((mo, a, b) = (mo', a', b'))) as [[= -> -> ->]|Hne].
    + by rewrite decide_True.
    + by rewrite decide_False by congruence.
Qed.

Lemma paint_rule_unique (min_sample : Z) (p : Parsed) (metric : string)
    (v v' : float) :
  paint_rule min_sample p metric v → paint_rule min_sample p metric v' → v = v'.
Proof.
  unfold paint_rule.
  intros [(-> & H1 & _)|[(-> & H1 & _)|[(-> & H1 & _)|(-> & r & n & Hr & _ & Hn & _ & _ & _ & ->)]]]
         [(Hm & H2 & _)|[(Hm & H2 & _)|[(Hm & H2 & _)|(Hm & r' & n' & Hr' & _ & Hn' & _ & _ & _ & ->)]]];
    try discriminate Hm; congruence.
Qed.

Lemma elem_of_emitted (min_sample : Z) (p : Parsed) (i : Z) (metric : string)
    (pt : Point) :
  pt ∈ emitted min_sample p i metric ↔
  id pt = i ∧ paint_rule min_sample p metric (value pt).
Proof.
  destruct (emitted_cases min_sample p i metric) as [(v & Hv & ->)|[Hno ->]].
  - rewrite list_elem_of_singleton. split.
    + by intros ->.
    + intros [Hi Hrule]. destruct pt as [i' v']. cbn [id value] in *.
      by rewrite Hi, (paint_rule_unique _ _ _ _ _ Hrule Hv).
  - split; [by intros ?%elem_of_nil|]. intros [_ Hrule]. by destruct (Hno _ Hrule).
Qed.

(** The choropleth array of a metric, month, asset type and bhk holds the
    points of exactly the keys with that month, asset type and bhk whose
    parsed values satisfy [paint_rule]: each such key contributes its
    locality number and the value the rule names, and nothing else is in
    the array. *)
Theorem choropleth_points_exact (min_sample : Z) (ask reg rent : list Row)
    (out : Output) :
  main min_sample ask reg rent = Ok out →
  ∃ A R N,
    index_rows ask ∅ = Ok A ∧ index_rows reg ∅ = Ok R ∧ index_rows rent ∅ = Ok N
    ∧ ∀ metric mo a b pt,
        pt ∈ paints_get (final_paints out) (metric, mo, a, b) ↔
        ∃ loc p, (mo, a, b, loc) ∈ all_keys A R N
                 ∧ parse_key A R N (mo, a, b, loc) = Ok p
                 ∧ int_of_cell loc = Ok (id pt)
                 ∧ paint_rule min_sample p metric (value pt).
Proof.
  intros Hmain.
  destruct (main_inv _ _ _ _ _ Hmain) as (A & R & N & st & HA & HR & HN & Hst & Hp & _).
  exists A, R, N. split; [done|]. split; [done|]. split; [done|].
  intros metric mo a b pt.
  rewrite Hp, (process_keys_paints _ _ _ _ _ _ _ metric mo a b Hst).
  cbn [paints]. unfold paints_get at 1. rewrite lookup_empty. cbn [default app].
  rewrite (list_elem_of_join pt). split.
  - intros (l & Hpt & Hl). apply list_elem_of_fmap in Hl as (k & -> & Hk).
    destruct (decide (k.1 = (mo, a, b))) as [Heq|Hne];
      [|by apply elem_of_nil in Hpt].
    destruct k as [[[mo' a'] b'] loc]. cbn [fst] in Heq. injection Heq as -> -> ->.
    unfold key_points in Hpt. cbn [snd] in Hpt.
    destruct (parse_key A R N (mo, a, b, loc)) as [p|] eqn:Hparse;
      [|by apply elem_of_nil in Hpt].
    destruct (int_of_cell loc) as [i|] eqn:Hi; [|by apply elem_of_nil in Hpt].
    apply elem_of_emitted in Hpt as [<- Hrule].
    exists loc, p. split; [by apply elem_of_elements in Hk|done].
  - intros (loc & p & Hk & Hparse & Hi & Hrule).
    exists (key_points min_sample A R N metric (mo, a, b, loc)). split.
    + unfold key_points. cbn [snd]. rewrite Hparse, Hi.
      by apply elem_of_emitted.
    + apply list_elem_of_fmap. exists (mo, a, b, loc).
      split; [by rewrite decide_True|by apply elem_of_elements].
Qed.

Lemma choropleth_points_exact_witness :
  ∃ out A R N,
    main 20 [ask_row "2024-01" "APT" "2" "101" "1200000" "20"] [] [] = Ok out
    ∧ index_rows [ask_row "2024-01" "APT" "2" "101" "1200000" "20"] ∅ = Ok A
    ∧ index_rows [] ∅ = Ok R ∧ index_rows [] ∅ = Ok N
    ∧ ∀ metric mo a b pt,
        pt ∈ paints_get (final_paints out) (metric, mo, a, b) ↔
        ∃ loc p, (mo, a, b, loc) ∈ all_keys A R N
                 ∧ parse_key A R N (mo, a, b, loc) = Ok p
                 ∧ int_of_cell loc = Ok (id pt)
                 ∧ paint_rule 20 p metric (value pt).
Proof.
  destruct (returns_Ok (main 20 [ask_row "2024-01" "APT" "2" "101" "1200000" "20"] [] []))
    as [out Hmain]; [vm_compute; reflexivity|].
  destruct (choropleth_points_exact 20 _ _ _ out Hmain) as (A & R & N & H).
  exists out, A, R, N. split; [exact Hmain|exact H].
Defined.











(** *** Painted values and summaries agree (lines 59-75) *)

(** The field of a summary that holds the value of [metric], and the sample
    counts that gate its point. *)
Definition summary_value (metric : string) (s : Summary) : option float :=
  if decide (metric = "asking") then median_asking s
  else if decide (metric = "registered") then median_registered s
  else if decide (metric = "rent") then median_rent s
  else if decide (metric = "yield") then yield s
  else None.

Definition summary_counts (metric : string) (s : Summary) : list Z :=
  if decide (metric = "asking") then [count_asking s]
  else if decide (metric = "registered") then [count_registered s]
  else if decide (metric = "rent") then [count_rent s]
  else if decide (metric = "yield") then [count_registered s; count_rent s]
  else [].

Lemma paint_rule_summary (min_sample : Z) (k : Key) (p : Parsed) (i : Z)
    (metric : string) (v : float) :
  paint_rule min_sample p metric v →
  summary_value metric (summary_of k p i) = Some v
  ∧ Forall (λ n, min_sample ≤ n) (summary_counts metric (summary_of k p i)).
Proof.
  destruct k as [[[mo a] b] loc]. unfold summary_value, summary_counts.
  intros [(-> & Hv & _ & Hn)|[(-> & Hv & _ & Hn)|[(-> & Hv & _ & Hn)|
          (-> & r & n & Hr & Hpos & Hn & Hnz & HnR & HnN & ->)]]];
    cbn [summary_of median_asking median_registered median_rent yield
         count_asking count_registered count_rent].
  - rewrite decide_True by done. split; [done|by repeat constructor].
  - rewrite decide_False, decide_True by done. split; [done|by repeat constructor].
  - rewrite !decide_False, decide_True by done. split; [done|by repeat constructor].
  - rewrite !decide_False, decide_True by done. split; [|by repeat constructor].
    assert (yield_defined (vR p) (vN p) = true) as ->.
    { apply yield_defined_iff. exists r, n. by rewrite Hr, Hn. }
    unfold yield_value. by rewrite Hr, Hn.
Qed.

(** Every point of a choropleth array is backed by the summary file of its
    key: a run that returns has written, for the point's month, asset type,
    bhk and locality number, a summary whose field for the metric (the
    median, or the yield) is the point's value and whose sample counts for
    the metric reach [min_sample]. *)
Theorem painted_values_match_summaries (min_sample : Z) (ask reg rent : list Row)
    (out : Output) (metric : string) (mo a b : Cell) (pt : Point) :
  main min_sample ask reg rent = Ok out →
  pt ∈ paints_get (final_paints out) (metric, mo, a, b) →
  ∃ file s,
    (file, s) ∈ summary_files out
    ∧ month s = mo ∧ asset s = a ∧ bhk s = b ∧ locality_id s = id pt
    ∧ summary_value metric s = Some (value pt)
    ∧ Forall (λ n, min_sample ≤ n) (summary_counts metric s).
Proof.
  intros Hmain Hpt.
  destruct (main_inv _ _ _ _ _ Hmain) as (mA & mR & mN & st & HA & HR & HN & Hst & Hp & Hs).
  rewrite Hp, (process_keys_paints _ _ _ _ _ _ _ metric mo a b Hst) in Hpt.
  cbn [paints] in Hpt. unfold paints_get in Hpt at 1.
  rewrite lookup_empty in Hpt. cbn [default app] in Hpt.
  apply (list_elem_of_join pt) in Hpt as (l & Hpt & Hl).
  apply list_elem_of_fmap in Hl as (k & -> & Hk).
  destruct (decide (k.1 = (mo, a, b))) as [Heq|Hne]; [|by apply elem_of_nil in Hpt].
  destruct k as [[[mo' a'] b'] loc]. cbn [fst] in Heq. injection Heq as -> -> ->.
  unfold key_points in Hpt. cbn [snd] in Hpt.
  destruct (parse_key mA mR mN (mo, a, b, loc)) as [p|] eqn:Hparse;
    [|by apply elem_of_nil in Hpt].
  destruct (int_of_cell loc) as [i|] eqn:Hi; [|by apply elem_of_nil in Hpt].
  apply elem_of_emitted in Hpt as [<- Hrule].
  destruct (process_keys_summaries _ _ _ _ _ _ _ Hst) as (es & Hall & Hsum).
  cbn [summaries app] in Hsum. rewrite <- Hs in Hsum.
  apply list_elem_of_lookup in Hk as [j Hj].
  destruct (Forall2_lookup_l _ _ _ _ _ Hall Hj)
    as ([file s] & Hjs & p' & i' & Hp' & Hi' & Hfile & Hsumm).
  cbn [fst snd] in Hi', Hfile, Hsumm. rewrite Hparse in Hp'. injection Hp' as <-.
  rewrite Hi in Hi'. injection Hi' as <-. subst s.
  exists file, (summary_of (mo, a, b, loc) p (id pt)).
  split; [rewrite Hsum; by eapply list_elem_of_lookup_2|].
  split; [done|]. split; [done|]. split; [done|]. split; [done|].
  by apply paint_rule_summary.
Qed.

Lemma painted_values_match_summaries_witness :
  ∃ out file s,
    main 20 [] [reg_row "2024-01" "APT" "2" "101" "1000000" "20"]
      [rent_row "2024-01" "APT" "2" "101" "10000" "20"] = Ok out
    ∧ {| id := 101; value := 0.12 |}
      ∈ paints_get (final_paints out) ("yield", Some "2024-01", Some "APT", Some "2")
    ∧ (file, s) ∈ summary_files out
    ∧ locality_id s = 101
    ∧ summary_value "yield" s = Some 0.12%float.
Proof.
  destruct (returns_Ok (main 20 [] [reg_row "2024-01" "APT" "2" "101" "1000000" "20"]
                          [rent_row "2024-01" "APT" "2" "101" "10000" "20"]))
    as [out Hmain]; [vm_compute; reflexivity|].
  assert ({| id := 101; value := 0.12 |}
          ∈ paints_get (final_paints out)
              ("yield", Some "2024-01", Some "APT", Some "2")) as Hpt.
  { pose proof (f_equal (λ r, match r with
                              | Ok o => paints_get (final_paints o)
                                          ("yield", Some "2024-01", Some "APT", Some "2")
                              | Raise _ => []
                              end) Hmain) as Hf.
    cbn beta iota in Hf. rewrite <- Hf.
    assert (match
              main 20 [] [reg_row "2024-01" "APT" "2" "101" "1000000" "20"]
                [rent_row "2024-01" "APT" "2" "101" "10000" "20"]
            with
            | Ok o => paints_get (final_paints o)
                        ("yield", Some "2024-01", Some "APT", Some "2")
            | Raise _ => []
            end = [{| id := 101; value := 0.12 |}]) as -> by (vm_compute; reflexivity).
    apply list_elem_of_here. }
  destruct (painted_values_match_summaries 20 _ _ _ out "yield" _ _ _ _ Hmain Hpt)
    as (file & s & Hin & _ & _ & _ & Hid & Hv & _).
  exists out, file, s. split; [exact Hmain|]. split; [exact Hpt|].
  split; [exact Hin|]. split; [exact Hid|exact Hv].
Defined.

End PreprocessMetrics.

(** ** [scripts/geo_validator.py]: the GeoJSON validator *)
Module GeoValidator.
Import Py.

(** A property value.  The model covers the scalar values an id takes: null,
    integers and strings. *)
Inductive jval : Set :=
| JNull
| JInt (n : Z)
| JStr (s : string).

#[export] Instance jval_eq_dec : EqDecision jval.
Proof. solve_decision. Defined.

#[export] Instance jval_countable : Countable jval :=
  inj_countable'
    (λ v, match v with
          | JNull => inl ()
          | JInt n => inr (inl n)
          | JStr s => inr (inr s)
          end)
    (λ x, match x with
          | inl _ => JNull
          | inr (inl n) => JInt n
          | inr (inr s) => JStr s
          end)
    (λ v, match v with JNull => eq_refl | JInt _ => eq_refl | JStr _ => eq_refl end).

(** A member of a JSON object: absent, [null], or a value. *)
Inductive member (A : Type) : Type :=
| Missing
| IsNull
| Has (x : A).
Arguments Missing {A}.
Arguments IsNull {A}.
Arguments Has {A} x.

(** A position: a JSON array of numbers, longitude first. *)
Definition Position : Type := list float.

(** A geometry object, by its ["type"], with its ["coordinates"]. *)
Inductive Geom : Type :=
| Polygon (coordinates : list (list Position))
| MultiPolygon (coordinates : list (list (list Position)))
| LineString (coordinates : list Position)
| MultiLineString (coordinates : list (list Position))
| Point (coordinates : Position)
| OtherGeom.

Record Feature : Type := {
  properties : member (gmap string jval);
  geometry : member Geom
}.

Record FeatureCollection : Type := {
  fc_type : option string;
  features : list Feature
}.

(** [(w, s, e, n)] *)
Definition BBox : Type := float * float * float * float.

(** [REQUIRED], in the order of the dict. *)
Definition REQUIRED : list (string * list string) :=
  [("mumbai_city.geojson", ["CityID"; "CityName"]);
   ("mumbai_micro_markets.geojson", ["MicroMarketID"; "CityID"; "MicroMarketName"]);
   ("mumbai_localities.geojson",
     ["LocalityID"; "MicroMarketID"; "CityID"; "LocalityName"])].

(** [load_fc], after [json.load]. *)
Definition load_fc (fc : FeatureCollection) : result (list Feature) :=
  if bool_decide (fc_type fc = Some "FeatureCollection")
  then Ok (features fc) else Raise ValueError.

(** [bbox_of_geom(geom)] for a geometry object. *)
Definition bbox_of_geom (geom : Geom) : result (option BBox) :=
  coords ←
    match geom with
    | Polygon cs => c ← index0 cs; mret (Some c)
    | MultiPolygon cs => rs ← map_result index0 cs; mret (Some (concat rs))
    | LineString cs => Ok (Some cs)
    | MultiLineString cs => Ok (Some (concat cs))
    | Point c => Ok (Some [c])
    | OtherGeom => Ok None
    end;
  match coords with
  | None => Ok None
  | Some coords =>
      lons ← map_result index0 coords;
      lats ← map_result index1 coords;
      w ← py_min lons; s ← py_min lats; e ← py_max lons; n ← py_max lats;
      mret (Some (w, s, e, n))
  end.

(** [bbox_of_geom(ft.get("geometry", {}))]: an absent geometry is the empty
    dict, whose type is [None]; [null] has no [get]. *)
Definition bbox_of_get (g : member Geom) : result (option BBox) :=
  match g with
  | Missing => Ok None
  | IsNull => Raise AttributeError
  | Has geom => bbox_of_geom geom
  end.

(** [bbox_of_geom(ft["geometry"])] *)
Definition bbox_of_item (g : member Geom) : result (option BBox) :=
  match g with
  | Missing => Raise KeyError
  | IsNull => Raise AttributeError
  | Has geom => bbox_of_geom geom
  end.

(** [centroid_of_geom], applied to [ft["geometry"]]. *)
Definition centroid_of_item (g : member Geom) : result (option (float * float)) :=
  b ← bbox_of_item g;
  match b with
  | None => Ok None
  | Some (w, s, e, n) => Ok (Some ((w + e) / 2, (s + n) / 2)%float)
  end.

(** [point_in_bbox(pt, bbox)]; unpacking a [None] bbox raises [TypeError]. *)
Definition point_in_bbox (pt : float * float) (bbox : option BBox) : result bool :=
  match bbox with
  | None => Raise TypeError
  | Some (w, s, e, n) =>
      let '(x, y) := pt in
      Ok ((PrimFloat.leb w x && PrimFloat.leb x e)
          && (PrimFloat.leb s y && PrimFloat.leb y n))
  end.

(** The lines of the report, kept structured. *)
Inductive message : Type :=
| MissingFile (fname : string)
| MissingProps (fname : string) (i : nat) (missing : list string)
| DuplicateId (fname key_prop : string) (v : jval)
| OutOfRange (fname : string) (i : nat) (bbox : BBox)
| UnknownMicroMarket (loc_id mm_id : jval)
| OutsideCity (loc_id : jval)
| OutsideMicroMarket (loc_id mm_id : jval).

(** What the loop over the features of one layer threads. *)
Record LayerState : Type := {
  errors : list message;
  warnings : list message;
  ids : gset jval
}.

(** [ft.get("properties", {})]; [None] stands for a [null] member, on which
    [p not in props] raises [TypeError]. *)
Definition props_get (ft : Feature) : result (gmap string jval) :=
  match properties ft with
  | Missing => Ok ∅
  | IsNull => Raise TypeError
  | Has props => Ok props
  end.

(** [[p for p in need if p not in props]] *)
Definition missing_props (need : list string) (props : gmap string jval)
  : list string :=
  filter (λ p, props !! p = None) need.

(** [props[k]] *)
Definition prop_item (props : gmap string jval) (k : string) : result jval :=
  match props !! k with
  | Some v => Ok v
  | None => Raise KeyError
  end.

(** The WGS84 range test of line 87. *)
Definition in_range (b : BBox) : bool :=
  let '(w, s, e, n) := b in
  (PrimFloat.leb (-180) w && PrimFloat.leb w 180)
  && (PrimFloat.leb (-180) e && PrimFloat.leb e 180)
  && (PrimFloat.leb (-90) s && PrimFloat.leb s 90)
  && (PrimFloat.leb (-90) n && PrimFloat.leb n 90).

(** The body of the loop over the features (lines 76-88). *)
Definition check_feature (fname : string) (need : list string) (key_prop : string)
    (st : LayerState) (i : nat) (ft : Feature) : result LayerState :=
  props ← props_get ft;
  match missing_props need props with
  | (_ :: _) as missing =>
      Ok {| errors := errors st ++ [MissingProps fname i missing];
            warnings := warnings st; ids := ids st |}
  | [] =>
      v ← prop_item props key_prop;
      let errors' :=
        if decide (v ∈ ids st)
        then errors st ++ [DuplicateId fname key_prop v] else errors st in
      bbox ← bbox_of_get (geometry ft);
      let warnings' :=
        match bbox with
        | Some b =>
            if negb (in_range b)
            then warnings st ++ [OutOfRange fname i b] else warnings st
        | None => warnings st
        end in
      Ok {| errors := errors'; warnings := warnings'; ids := {[v]} ∪ ids st |}
  end.

(** [for i, ft in enumerate(feats)], from index [i]. *)
Fixpoint check_features (fname : string) (need : list string) (key_prop : string)
    (st : LayerState) (i : nat) (feats : list Feature) : result LayerState :=
  match feats with
  | [] => Ok st
  | ft :: feats' =>
      st' ← check_feature fname need key_prop st i ft;
      check_features fname need key_prop st' (S i) feats'
  end.

(** [[p for p in need if p.endswith("ID")][0]] *)
Definition key_prop_of (need : list string) : result string :=
  index0 (filter (λ p, endswith p "ID" = true) need).

(** One round of the loop over [REQUIRED] (lines 71-89): [need] is the set of
    required properties in its iteration order; the uniqueness set starts
    empty, errors and warnings carry over. *)
Definition check_layer (fname : string) (need : list string)
    (errs warns : list message) (feats : list Feature) : result LayerState :=
  key_prop ← key_prop_of need;
  check_features fname need key_prop
    {| errors := errs; warnings := warns; ids := ∅ |} 0 feats.

(** Lines 56-63: the files that exist are loaded, the others are listed. *)
Fixpoint load_layers (fs : gmap string FeatureCollection)
    (req : list (string * list string)) (errs : list message)
    (layers : gmap string (list Feature))
  : result (list message * gmap string (list Feature)) :=
  match req with
  | [] => Ok (errs, layers)
  | (fname, _) :: req' =>
      match fs !! fname with
      | None => load_layers fs req' (errs ++ [MissingFile fname]) layers
      | Some fc =>
          feats ← load_fc fc;
          load_layers fs req' errs (<[fname := feats]> layers)
      end
  end.

(** [layers[fname]] *)
Definition layer_item (layers : gmap string (list Feature)) (fname : string)
  : result (list Feature) :=
  match layers !! fname with
  | Some feats => Ok feats
  | None => Raise KeyError
  end.

(** Lines 69-89: the loop over [REQUIRED].  [set_order props] is the order in
    which [set(props)] is iterated; Python fixes none. *)
Fixpoint check_layers (set_order : list string → list string)
    (layers : gmap string (list Feature)) (req : list (string * list string))
    (errs warns : list message) : result (list message * list message) :=
  match req with
  | [] => Ok (errs, warns)
  | (fname, props) :: req' =>
      feats ← layer_item layers fname;
      st ← check_layer fname (set_order props) errs warns feats;
      check_layers set_order layers req' (errors st) (warnings st)
  end.

(** [ft["properties"]] *)
Definition props_item (ft : Feature) : result (gmap string jval) :=
  match properties ft with
  | Missing => Raise KeyError
  | IsNull => Raise TypeError
  | Has props => Ok props
  end.

(** Lines 94-95: the dict of micro-market bounding boxes. *)
Fixpoint build_mm_bboxes (feats : list Feature) (acc : gmap jval (option BBox))
  : result (gmap jval (option BBox)) :=
  match feats with
  | [] => Ok acc
  | ft :: feats' =>
      props ← props_item ft;
      mm_id ← prop_item props "MicroMarketID";
      bbox ← bbox_of_item (geometry ft);
      build_mm_bboxes feats' (<[mm_id := bbox]> acc)
  end.

(** The body of the loop over the localities (lines 98-109). *)
Definition check_locality (city_bbox : option BBox)
    (mm_bboxes : gmap jval (option BBox)) (st : list message * list message)
    (ft : Feature) : result (list message * list message) :=
  let '(errs, warns) := st in
  props ← props_item ft;
  loc_id ← prop_item props "LocalityID";
  mm_id ← prop_item props "MicroMarketID";
  match mm_bboxes !! mm_id with
  | None => Ok (errs ++ [UnknownMicroMarket loc_id mm_id], warns)
  | Some mm_bbox =>
      c ← centroid_of_item (geometry ft);
      match c with
      | None => Ok (errs, warns)
      | Some c =>
          warns ←
            match city_bbox with
            | Some _ =>
                inside ← point_in_bbox c city_bbox;
                mret (if negb inside then warns ++ [OutsideCity loc_id] else warns)
            | None => Ok warns
            end;
          inside ← point_in_bbox c mm_bbox;
          mret (errs, if negb inside
                      then warns ++ [OutsideMicroMarket loc_id mm_id] else warns)
      end
  end.

Fixpoint check_localities (city_bbox : option BBox)
    (mm_bboxes : gmap jval (option BBox)) (st : list message * list message)
    (feats : list Feature) : result (list message * list message) :=
  match feats with
  | [] => Ok st
  | ft :: feats' =>
      st' ← check_locality city_bbox mm_bboxes st ft;
      check_localities city_bbox mm_bboxes st' feats'
  end.

(** What the run prints when it reaches its end. *)
Record Report : Type := {
  report_errors : list message;
  report_warnings : list message
}.

(** [main()]: [fs] maps the name of each file that exists under the root to
    its parsed content.  [Ok] is a run that reaches the end of [main]. *)
Definition main (set_order : list string → list string)
    (fs : gmap string FeatureCollection) : result Report :=
  '(errs, layers) ← load_layers fs REQUIRED [] ∅;
  match errs with
  | _ :: _ => Raise (SystemExit 1)
  | [] =>
      '(errs, warns) ← check_layers set_order layers REQUIRED [] [];
      city_feats ← layer_item layers "mumbai_city.geojson";
      city_bbox ←
        match city_feats with
        | ft :: _ => bbox_of_item (geometry ft)
        | [] => Ok None
        end;
      mm_feats ← layer_item layers "mumbai_micro_markets.geojson";
      mm_bboxes ← build_mm_bboxes mm_feats ∅;
      loc_feats ← layer_item layers "mumbai_localities.geojson";
      '(errs, warns) ← check_localities city_bbox mm_bboxes (errs, warns) loc_feats;
      mret {| report_errors := errs; report_warnings := warns |}
  end.

(** *** Sample data *)

Definition square : Geom :=
  Polygon [[[72.8; 19.0]; [72.9; 19.0]; [72.9; 19.1]; [72.8; 19.1]; [72.8; 19.0]]%float].

Definition feature (props : list (string * jval)) : Feature :=
  {| properties := Has (list_to_map props); geometry := Has square |}.

Definition collection (feats : list Feature) : FeatureCollection :=
  {| fc_type := Some "FeatureCollection"; features := feats |}.

Definition city_1 : Feature :=
  feature [("CityID", JInt 13); ("CityName", JStr "Mumbai")].
Definition mm_1 : Feature :=
  feature [("MicroMarketID", JInt 7); ("CityID", JInt 13);
           ("MicroMarketName", JStr "Andheri")].
Definition loc_1 : Feature :=
  feature [("LocalityID", JInt 101); ("MicroMarketID", JInt 7);
           ("CityID", JInt 13); ("LocalityName", JStr "Versova")].
(** A locality without its [MicroMarketID]. *)
Definition loc_no_mm : Feature :=
  feature [("LocalityID", JInt 102); ("CityID", JInt 13);
           ("LocalityName", JStr "Juhu")].

Definition files (locs : list Feature) : gmap string FeatureCollection :=
  list_to_map [("mumbai_city.geojson", collection [city_1]);
               ("mumbai_micro_markets.geojson", collection [mm_1]);
               ("mumbai_localities.geojson", collection locs)].

(** *** The layer loop *)

(** The id under which a feature enters the uniqueness check; [None] for a
    feature the loop skips (or cannot read). *)
Definition feature_key (need : list string) (key_prop : string) (ft : Feature)
  : option jval :=
  match props_get ft with
  | Ok props =>
      match missing_props need props with
      | [] => props !! key_prop
      | _ :: _ => None
      end
  | Raise _ => None
  end.

(** What a loop body that returns has done, by the feature's key. *)
Lemma check_feature_inv (fname : string) (need : list string) (key_prop : string)
    (st st1 : LayerState) (i : nat) (ft : Feature) :
  check_feature fname need key_prop st i ft = Ok st1 →
  match feature_key need key_prop ft with
  | None =>
      ids st1 = ids st
      ∧ ∃ props, props_get ft = Ok props
                 ∧ missing_props need props ≠ []
                 ∧ errors st1 =
                   errors st ++ [MissingProps fname i (missing_props need props)]
  | Some u =>
      ids st1 = {[u]} ∪ ids st
      ∧ errors st1 =
        (if decide (u ∈ ids st)
         then errors st ++ [DuplicateId fname key_prop u] else errors st)
  end.
Proof.
  unfold check_feature, feature_key. intros H.
  destruct (props_get ft) as [props|e]; [|discriminate H].
  cbn [mbind result_bind] in H.
  destruct (missing_props need props) as [|m ms] eqn:Hm.
  - unfold prop_item in H. destruct (props !! key_prop) as [u|]; [|discriminate H].
    cbn [mbind result_bind] in H. inv_bind H bbox Hbbox.
    injection H as <-. done.
  - injection H as <-. split; [done|]. exists props. by rewrite Hm.
Qed.

(** *** C7: a feature that misses a required property *)

(** C7: a feature that lacks a required property adds one error naming it
    and its missing properties, and nothing else: no warning, and no id in
    the uniqueness set.  So the next feature that carries an id not seen
    before it - the skipped feature's own id included - is not reported as a
    duplicate. *)
Theorem missing_props_feature_skipped (fname : string) (need : list string)
    (key_prop : string) (st : LayerState) (i : nat) (ft : Feature)
    (props : gmap string jval) :
  props_get ft = Ok props →
  missing_props need props ≠ [] →
  ∃ st',
    check_feature fname need key_prop st i ft = Ok st'
    ∧ errors st' = errors st ++ [MissingProps fname i (missing_props need props)]
    ∧ warnings st' = warnings st
    ∧ ids st' = ids st
    ∧ ∀ j ft' v st'',
        feature_key need key_prop ft' = Some v →
        v ∉ ids st →
        check_feature fname need key_prop st' j ft' = Ok st'' →
        errors st'' = errors st' ∧ v ∈ ids st''.
Proof.
  intros Hprops Hmiss. unfold check_feature at 1. rewrite Hprops.
  cbn [mbind result_bind].
  destruct (missing_props need props) as [|m ms] eqn:Hm; [done|].
  eexists. split; [reflexivity|]. cbn [errors warnings ids].
  split; [done|]. split; [done|]. split; [done|].
  intros j ft' v st'' Hkey Hfresh Hrun.
  apply check_feature_inv in Hrun. rewrite Hkey in Hrun.
  cbn [errors ids] in Hrun. destruct Hrun as [Hids Herr].
  rewrite decide_False in Herr by done. split; [done|].
  rewrite Hids. set_solver.
Qed.

Lemma missing_props_feature_skipped_witness :
  ∃ st',
    check_feature "mumbai_localities.geojson"
      ["LocalityID"; "MicroMarketID"; "CityID"; "LocalityName"] "LocalityID"
      {| errors := []; warnings := []; ids := ∅ |} 0 loc_no_mm = Ok st'
    ∧ errors st' = [MissingProps "mumbai_localities.geojson" 0 ["MicroMarketID"]]
    ∧ warnings st' = []
    ∧ ids st' = ∅.
Proof.
  destruct (missing_props_feature_skipped "mumbai_localities.geojson"
              ["LocalityID"; "MicroMarketID"; "CityID"; "LocalityName"] "LocalityID"
              {| errors := []; warnings := []; ids := ∅ |} 0 loc_no_mm
              (list_to_map [("LocalityID", JInt 102); ("CityID", JInt 13);
                            ("LocalityName", JStr "Juhu")]))
    as (st' & Hrun & Herr & Hwarn & Hids & _).
  - reflexivity.
  - by vm_compute.
  - exists st'. split; [exact Hrun|]. split; [|by split].
    rewrite Herr. vm_compute. reflexivity.
Defined.

(** *** C8: duplicate ids *)

(** [m] is the duplicate-id error of [fname] for the id [v]. *)
Definition is_duplicate_of (fname key_prop : string) (v : jval) (m : message)
  : bool :=
  match m with
  | DuplicateId f k u => bool_decide (f = fname ∧ k = key_prop ∧ u = v)
  | _ => false
  end.

(** How many duplicate-id errors for [v] a list of errors holds. *)
Definition duplicate_errors (fname key_prop : string) (v : jval)
    (errs : list message) : nat :=
  length (filter (λ m, is_duplicate_of fname key_prop v m = true) errs).

(** How many features enter the uniqueness check with the id [v]. *)
Definition occurrences (need : list string) (key_prop : string) (v : jval)
    (feats : list Feature) : nat :=
  length (filter (λ ft, feature_key need key_prop ft = Some v) feats).

Lemma duplicate_errors_snoc (fname key_prop : string) (v : jval)
    (errs : list message) (m : message) :
  duplicate_errors fname key_prop v (errs ++ [m]) =
  (duplicate_errors fname key_prop v errs
   + (if is_duplicate_of fname key_prop v m then 1 else 0))%nat.
Proof.
  unfold duplicate_errors. rewrite filter_app, length_app. f_equal.
  rewrite filter_cons, filter_nil. by destruct (is_duplicate_of fname key_prop v m).
Qed.

Lemma occurrences_cons (need : list string) (key_prop : string) (v : jval)
    (ft : Feature) (feats : list Feature) :
  occurrences need key_prop v (ft :: feats) =
  ((if decide (feature_key need key_prop ft = Some v) then 1 else 0)
   + occurrences need key_prop v feats)%nat.
Proof.
  unfold occurrences. rewrite filter_cons.
  by destruct (decide (feature_key need key_prop ft = Some v)).
Qed.

(** The loop invariant: the set holds the ids met, and each feature that
    meets its id in the set adds one error. *)
Lemma check_features_dups (fname : string) (need : list string) (key_prop : string)
    (v : jval) (feats : list Feature) (st st' : LayerState) (i : nat) :
  check_features fname need key_prop st i feats = Ok st' →
  (v ∈ ids st' ↔ v ∈ ids st ∨ (0 < occurrences need key_prop v feats)%nat)
  ∧ (duplicate_errors fname key_prop v (errors st')
     + (if decide (v ∈ ids st) then 0
        else if decide (occurrences need key_prop v feats = 0%nat) then 0 else 1)
     = duplicate_errors fname key_prop v (errors st)
       + occurrences need key_prop v feats)%nat.
Proof.
  revert st i. induction feats as [|ft feats IH]; intros st i H;
    cbn [check_features] in H.
  - injection H as <-. unfold occurrences. cbn [filter list_filter length].
    split; [split; [auto|intros [?|?]; [done|lia]]|].
    destruct (decide (v ∈ ids st)); [lia|]. rewrite decide_True by done. lia.
  - inv_bind H st1 H1. apply IH in H as [Hids Hdup].
    apply check_feature_inv in H1. rewrite occurrences_cons.
    destruct (feature_key need key_prop ft) as [u|] eqn:Hkey.
    + destruct H1 as [Hids1 Herr1].
      destruct (decide (Some u = Some v)) as [[= ->]|Hne].
      * rewrite Hids1 in Hids, Hdup. split; [set_solver by lia|].
        rewrite decide_True in Hdup by set_solver.
        destruct (decide (v ∈ ids st)) as [Hin|Hin]; rewrite Herr1 in Hdup.
        -- rewrite duplicate_errors_snoc in Hdup. cbn [is_duplicate_of] in Hdup.
           rewrite bool_decide_eq_true_2 in Hdup by done. lia.
        -- rewrite decide_False by lia. lia.
      * assert (u ≠ v) as Huv by congruence.
        rewrite Hids1 in Hids, Hdup. split; [set_solver by lia|].
        assert (duplicate_errors fname key_prop v (errors st1)
                = duplicate_errors fname key_prop v (errors st)) as Heq.
        { rewrite Herr1. destruct (decide (u ∈ ids st)); [|done].
          rewrite duplicate_errors_snoc. cbn [is_duplicate_of].
          rewrite bool_decide_eq_false_2 by naive_solver. lia. }
        rewrite Heq in Hdup. cbn [Nat.add].
        destruct (decide (v ∈ ids st)) as [Hin|Hin].
        -- rewrite decide_True in Hdup by set_solver. exact Hdup.
        -- rewrite decide_False in Hdup by set_solver. exact Hdup.
    + destruct H1 as [Hids1 (props & _ & _ & Herr1)].
      rewrite (decide_False (P := None = Some v)) by done. cbn [Nat.add].
      rewrite Hids1 in Hids, Hdup. split; [exact Hids|].
      rewrite Herr1, duplicate_errors_snoc in Hdup. cbn [is_duplicate_of] in Hdup.
      rewrite Nat.add_0_r in Hdup. exact Hdup.
Qed.

(** A feature the loop can take: its properties are an object (or absent),
    and when it passes the property check its geometry has a bounding box. *)
Definition feature_ok (need : list string) (ft : Feature) : Prop :=
  ∃ props, props_get ft = Ok props
           ∧ (missing_props need props = [] →
              ∃ b, bbox_of_get (geometry ft) = Ok b).

Lemma missing_props_nil (need : list string) (props : gmap string jval) (p : string) :
  missing_props need props = [] → p ∈ need → is_Some (props !! p).
Proof.
  unfold missing_props. intros Hnil Hin.
  destruct (props !! p) as [v|] eqn:Hp; [by eexists|].
  assert (p ∈ filter (λ p, props !! p = None) need) as Hbad
    by (by apply list_elem_of_filter).
  rewrite Hnil in Hbad. by apply elem_of_nil in Hbad.
Qed.

Lemma key_prop_of_need (need : list string) (key_prop : string) :
  key_prop_of need = Ok key_prop → key_prop ∈ need.
Proof.
  unfold key_prop_of, index0.
  destruct (filter (λ p, endswith p "ID" = true) need) as [|k ks] eqn:Hf; [done|].
  intros [= ->].
  assert (key_prop ∈ filter (λ p, endswith p "ID" = true) need) as Hin
    by (rewrite Hf; apply list_elem_of_here).
  by apply list_elem_of_filter in Hin as [_ Hin].
Qed.

Lemma check_features_total (fname : string) (need : list string) (key_prop : string)
    (feats : list Feature) (st : LayerState) (i : nat) :
  key_prop ∈ need →
  Forall (feature_ok need) feats →
  ∃ st', check_features fname need key_prop st i feats = Ok st'.
Proof.
  intros Hkey Hall. revert st i.
  induction Hall as [|ft feats (props & Hprops & Hbbox) _ IH]; intros st i.
  - by exists st.
  - cbn [check_features]. unfold check_feature. rewrite Hprops.
    cbn [mbind result_bind].
    destruct (missing_props need props) as [|m ms] eqn:Hm.
    + destruct (missing_props_nil need props key_prop Hm Hkey) as [v Hv].
      unfold prop_item. rewrite Hv. cbn [mbind result_bind].
      destruct (Hbbox eq_refl) as [b ->]. cbn [mbind result_bind]. apply IH.
    + cbn [mbind result_bind]. apply IH.
Qed.

(** C8: in a layer whose features the loop can take, the number of
    duplicate-id errors reported for an id is the number of features that
    enter the uniqueness check with it, less one: one error per occurrence
    beyond the first. *)
Theorem duplicate_error_per_extra_occurrence (fname : string) (need : list string)
    (key_prop : string) (errs warns : list message) (feats : list Feature)
    (v : jval) :
  key_prop_of need = Ok key_prop →
  Forall (feature_ok need) feats →
  ∃ st,
    check_layer fname need errs warns feats = Ok st
    ∧ duplicate_errors fname key_prop v (errors st) =
      (duplicate_errors fname key_prop v errs
       + pred (occurrences need key_prop v feats))%nat.
Proof.
  intros Hkey Hall. unfold check_layer. rewrite Hkey. cbn [mbind result_bind].
  destruct (check_features_total fname need key_prop feats
              {| errors := errs; warnings := warns; ids := ∅ |} 0%nat
              (key_prop_of_need _ _ Hkey) Hall) as [st Hst].
  exists st. split; [exact Hst|].
  destruct (check_features_dups fname need key_prop v feats _ _ _ Hst) as [_ Hdup].
  cbn [errors ids] in Hdup. rewrite decide_False in Hdup by set_solver.
  destruct (decide (occurrences need key_prop v feats = 0%nat)); lia.
Qed.

Lemma duplicate_error_per_extra_occurrence_witness :
  ∃ st,
    check_layer "mumbai_localities.geojson"
      ["LocalityID"; "MicroMarketID"; "CityID"; "LocalityName"] [] []
      [loc_1; loc_1; loc_no_mm; loc_1] = Ok st
    ∧ duplicate_errors "mumbai_localities.geojson" "LocalityID" (JInt 101)
        (errors st) = 2%nat.
Proof.
  destruct (duplicate_error_per_extra_occurrence "mumbai_localities.geojson"
              ["LocalityID"; "MicroMarketID"; "CityID"; "LocalityName"]
              "LocalityID" [] [] [loc_1; loc_1; loc_no_mm; loc_1] (JInt 101))
    as (st & Hrun & Hdup).
  - vm_compute. reflexivity.
  - repeat constructor; eexists; (split; [reflexivity|]); intros _; eexists;
      vm_compute; reflexivity.
  - exists st. split; [exact Hrun|]. rewrite Hdup. vm_compute. reflexivity.
Defined.


(** *** Bounding boxes (lines 20-36) *)

Ltac sf_cmp :=
  repeat match goal with
  | |- context [Z.compare ?a ?b] => destruct (Z.compare_spec a b)
  | H : context [Z.compare ?a ?b] |- _ => destruct (Z.compare_spec a b)
  | |- context [Pos.compare_cont Eq ?a ?b] =>
      change (Pos.compare_cont Eq a b) with (Pos.compare a b);
      destruct (Pos.compare_spec a b)
  | H : context [Pos.compare_cont Eq ?a ?b] |- _ =>
      change (Pos.compare_cont Eq a b) with (Pos.compare a b) in H;
      destruct (Pos.compare_spec a b)
  end.

Lemma SFleb_trans (x y z : spec_float) :
  SFleb x y = true → SFleb y z = true → SFleb x z = true.
Proof.
  unfold SFleb, SFcompare.
  destruct x as [[]|[]| |[] mx ex], y as [[]|[]| |[] my ey], z as [[]|[]| |[] mz ez];
    try done; intros H1 H2; sf_cmp; subst; cbn [CompOpp] in *; try done; try lia.
Qed.

Lemma SFleb_refl (x : spec_float) : x ≠ S754_nan → SFleb x x = true.
Proof.
  unfold SFleb, SFcompare. destruct x as [[]|[]| |[] mx ex]; try done; intros _;
    rewrite Z.compare_refl;
    change (Pos.compare_cont Eq mx mx) with (Pos.compare mx mx);
    by rewrite Pos.compare_refl.
Qed.

Lemma SFltb_leb (x y : spec_float) : SFltb x y = true → SFleb x y = true.
Proof. unfold SFltb, SFleb. by destruct (SFcompare x y) as [[]|]. Qed.

Lemma SFltb_total (x y : spec_float) :
  x ≠ S754_nan → y ≠ S754_nan → SFltb x y = false → SFleb y x = true.
Proof.
  unfold SFleb, SFltb, SFcompare.
  destruct x as [[]|[]| |[] mx ex], y as [[]|[]| |[] my ey];
    try done; intros _ _ H1; sf_cmp; subst; cbn [CompOpp] in *; try done; try lia.
Qed.

(** [coords] of [bbox_of_geom]: the positions the box ranges over. *)
Definition outline (geom : Geom) : result (option (list Position)) :=
  match geom with
  | Polygon cs => c ← index0 cs; mret (Some c)
  | MultiPolygon cs => rs ← map_result index0 cs; mret (Some (concat rs))
  | LineString cs => Ok (Some cs)
  | MultiLineString cs => Ok (Some (concat cs))
  | Point c => Ok (Some [c])
  | OtherGeom => Ok None
  end.

(** A position with a longitude and a latitude that are numbers. *)
Definition lon_lat (p : Position) (x y : float) : Prop :=
  ∃ rest, p = x :: y :: rest.

Definition plain_position (p : Position) : Prop :=
  ∃ x y, lon_lat p x y ∧ PrimFloat.is_nan x = false ∧ PrimFloat.is_nan y = false.

Lemma not_nan_SF (x : float) : PrimFloat.is_nan x = false → Prim2SF x ≠ S754_nan.
Proof.
  unfold PrimFloat.is_nan. rewrite FloatAxioms.eqb_spec. intros H Hn.
  rewrite Hn in H. discriminate H.
Qed.

Lemma float_leb_refl (x : float) : PrimFloat.is_nan x = false → PrimFloat.leb x x = true.
Proof. intros H. rewrite FloatAxioms.leb_spec. by apply SFleb_refl, not_nan_SF. Qed.

Lemma float_leb_trans (x y z : float) :
  PrimFloat.leb x y = true → PrimFloat.leb y z = true → PrimFloat.leb x z = true.
Proof. rewrite !FloatAxioms.leb_spec. apply SFleb_trans. Qed.

Lemma float_ltb_leb (x y : float) : PrimFloat.ltb x y = true → PrimFloat.leb x y = true.
Proof. rewrite FloatAxioms.ltb_spec, FloatAxioms.leb_spec. apply SFltb_leb. Qed.

Lemma float_not_ltb_leb (x y : float) :
  PrimFloat.is_nan x = false → PrimFloat.is_nan y = false →
  PrimFloat.ltb x y = false → PrimFloat.leb y x = true.
Proof.
  intros Hx Hy. rewrite FloatAxioms.ltb_spec, FloatAxioms.leb_spec.
  by apply SFltb_total; apply not_nan_SF.
Qed.

Lemma fold_min_spec (l : list float) (x : float) :
  PrimFloat.is_nan x = false → Forall (λ y, PrimFloat.is_nan y = false) l →
  let m := fold_left (λ cur y, if PrimFloat.ltb y cur then y else cur) l x in
  m ∈ x :: l ∧ ∀ y, y ∈ x :: l → PrimFloat.leb m y = true.
Proof.
  intros Hx Hl. revert x Hx. induction Hl as [|a l Ha Hl IH]; intros x Hx; cbn.
  - split; [apply list_elem_of_here|]. intros y ->%list_elem_of_singleton.
    by apply float_leb_refl.
  - set (c := if PrimFloat.ltb a x then a else x).
    assert (PrimFloat.is_nan c = false ∧ c ∈ [x; a]
            ∧ PrimFloat.leb c x = true ∧ PrimFloat.leb c a = true)
      as (Hc & Hin & Hcx & Hca).
    { subst c. destruct (PrimFloat.ltb a x) eqn:Hlt.
      - split; [done|]. split; [set_solver|]. split; [by apply float_ltb_leb|by apply float_leb_refl].
      - split; [done|]. split; [set_solver|]. split; [by apply float_leb_refl|].
        by apply float_not_ltb_leb. }
    destruct (IH c Hc) as [Hm Hle]. split.
    + apply elem_of_cons in Hm as [->|Hm]; set_solver.
    + intros y Hy. assert (PrimFloat.leb (fold_left
        (λ cur y0, if PrimFloat.ltb y0 cur then y0 else cur) l c) c = true) as Hmc
        by (apply Hle, list_elem_of_here).
      apply elem_of_cons in Hy as [->|Hy]; [by eapply float_leb_trans|].
      apply elem_of_cons in Hy as [->|Hy]; [by eapply float_leb_trans|].
      apply Hle. by apply list_elem_of_further.
Qed.

Lemma fold_max_spec (l : list float) (x : float) :
  PrimFloat.is_nan x = false → Forall (λ y, PrimFloat.is_nan y = false) l →
  let m := fold_left (λ cur y, if PrimFloat.ltb cur y then y else cur) l x in
  m ∈ x :: l ∧ ∀ y, y ∈ x :: l → PrimFloat.leb y m = true.
Proof.
  intros Hx Hl. revert x Hx. induction Hl as [|a l Ha Hl IH]; intros x Hx; cbn.
  - split; [apply list_elem_of_here|]. intros y ->%list_elem_of_singleton.
    by apply float_leb_refl.
  - set (c := if PrimFloat.ltb x a then a else x).
    assert (PrimFloat.is_nan c = false ∧ c ∈ [x; a]
            ∧ PrimFloat.leb x c = true ∧ PrimFloat.leb a c = true)
      as (Hc & Hin & Hcx & Hca).
    { subst c. destruct (PrimFloat.ltb x a) eqn:Hlt.
      - split; [done|]. split; [set_solver|]. split; [by apply float_ltb_leb|by apply float_leb_refl].
      - split; [done|]. split; [set_solver|]. split; [by apply float_leb_refl|].
        by apply float_not_ltb_leb. }
    destruct (IH c Hc) as [Hm Hle]. split.
    + apply elem_of_cons in Hm as [->|Hm]; set_solver.
    + intros y Hy. assert (PrimFloat.leb c (fold_left
        (λ cur y0, if PrimFloat.ltb cur y0 then y0 else cur) l c) = true) as Hmc
        by (apply Hle, list_elem_of_here).
      apply elem_of_cons in Hy as [->|Hy]; [by eapply float_leb_trans|].
      apply elem_of_cons in Hy as [->|Hy]; [by eapply float_leb_trans|].
      apply Hle. by apply list_elem_of_further.
Qed.

Lemma bbox_of_outline (geom : Geom) :
  bbox_of_geom geom =
  (coords ← outline geom;
   match coords with
   | None => Ok None
   | Some coords =>
       lons ← map_result index0 coords;
       lats ← map_result index1 coords;
       w ← py_min lons; s ← py_min lats; e ← py_max lons; n ← py_max lats;
       mret (Some (w, s, e, n))
   end).
Proof. by destruct geom. Qed.

Lemma plain_positions (ps : list Position) :
  Forall plain_position ps →
  ∃ xys : list (float * float),
    Forall2 (λ p xy, lon_lat p xy.1 xy.2) ps xys
    ∧ Forall (λ xy, PrimFloat.is_nan xy.1 = false ∧ PrimFloat.is_nan xy.2 = false) xys
    ∧ map_result index0 ps = Ok xys.*1
    ∧ map_result index1 ps = Ok xys.*2.
Proof.
  induction 1 as [|p ps (x & y & [rest ->] & Hx & Hy) _ (xys & H2 & Hn & H0 & H1)].
  - exists []. by repeat split; constructor.
  - exists ((x, y) :: xys). split; [constructor; [by exists rest|done]|].
    split; [by constructor|]. cbn [map_result index0 index1].
    rewrite H0, H1. done.
Qed.

Lemma lon_lat_inj (p : Position) (x y x' y' : float) :
  lon_lat p x y → lon_lat p x' y' → x = x' ∧ y = y'.
Proof. intros [r ->] [r' [= -> -> _]]. done. Qed.

(** The bounding box of a geometry covers it and is tight: when the
    geometry has a known type, at least one position, and every position
    starts with a longitude and a latitude that are numbers (not NaN),
    [bbox_of_geom] returns a box [(w, s, e, n)] such that [point_in_bbox]
    holds of every position, and each of the four bounds is the longitude or
    latitude of some position.  (For a polygon the positions are those of its
    first ring only.) *)
Theorem bbox_covers_outline (geom : Geom) (ps : list Position) :
  outline geom = Ok (Some ps) → ps ≠ [] → Forall plain_position ps →
  ∃ w s e n,
    bbox_of_geom geom = Ok (Some (w, s, e, n))
    ∧ (∀ p x y, p ∈ ps → lon_lat p x y →
         point_in_bbox (x, y) (Some (w, s, e, n)) = Ok true)
    ∧ (∃ p y, p ∈ ps ∧ lon_lat p w y) ∧ (∃ p x, p ∈ ps ∧ lon_lat p x s)
    ∧ (∃ p y, p ∈ ps ∧ lon_lat p e y) ∧ (∃ p x, p ∈ ps ∧ lon_lat p x n).
Proof.
  intros Hout Hne Hps. rewrite bbox_of_outline, Hout. cbn [mbind result_bind].
  destruct (plain_positions ps Hps) as (xys & H2 & Hn & -> & ->).
  cbn [mbind result_bind].
  destruct xys as [|[x0 y0] xys]; [by apply Forall2_nil_inv_r in H2|].
  apply Forall_cons in Hn as [[Hx0 Hy0] Hn]. cbn [fmap list_fmap fst snd py_min py_max].
  cbn [mbind result_bind mret result_ret].
  assert (Forall (λ y, PrimFloat.is_nan y = false) xys.*1) as Hxs.
  { apply Forall_fmap. eapply Forall_impl; [exact Hn|]. by intros ? [? ?]. }
  assert (Forall (λ y, PrimFloat.is_nan y = false) xys.*2) as Hys.
  { apply Forall_fmap. eapply Forall_impl; [exact Hn|]. by intros ? [? ?]. }
  destruct (fold_min_spec _ _ Hx0 Hxs) as [Hw Hwle].
  destruct (fold_min_spec _ _ Hy0 Hys) as [Hs Hsle].
  destruct (fold_max_spec _ _ Hx0 Hxs) as [He Hele].
  destruct (fold_max_spec _ _ Hy0 Hys) as [Hn' Hnle].
  do 4 eexists. split; [reflexivity|].
  assert (∀ v, v ∈ x0 :: xys.*1 → ∃ p y, p ∈ ps ∧ lon_lat p v y) as Hlon.
  { intros v Hv. change (x0 :: xys.*1) with (((x0, y0) :: xys).*1) in Hv.
    apply list_elem_of_fmap in Hv as ([x y] & -> & Hxy).
    apply list_elem_of_lookup in Hxy as [i Hi].
    destruct (Forall2_lookup_r _ _ _ _ _ H2 Hi) as (p & Hp & Hpl).
    exists p, y. split; [by eapply list_elem_of_lookup_2|done]. }
  assert (∀ v, v ∈ y0 :: xys.*2 → ∃ p x, p ∈ ps ∧ lon_lat p x v) as Hlat.
  { intros v Hv. change (y0 :: xys.*2) with (((x0, y0) :: xys).*2) in Hv.
    apply list_elem_of_fmap in Hv as ([x y] & -> & Hxy).
    apply list_elem_of_lookup in Hxy as [i Hi].
    destruct (Forall2_lookup_r _ _ _ _ _ H2 Hi) as (p & Hp & Hpl).
    exists p, x. split; [by eapply list_elem_of_lookup_2|done]. }
  split; [|by auto].
  intros p x y Hp Hpl. apply list_elem_of_lookup in Hp as [i Hi].
  destruct (Forall2_lookup_l _ _ _ _ _ H2 Hi) as ([x' y'] & Hxy & Hpl').
  destruct (lon_lat_inj _ _ _ _ _ Hpl Hpl') as [-> ->]. cbn [fst snd] in *.
  apply list_elem_of_lookup_2 in Hxy.
  assert (x' ∈ x0 :: xys.*1) as Hx'
    by (change (x' ∈ ((x0, y0) :: xys).*1);
        by apply (list_elem_of_fmap_2 fst _ (x', y'))).
  assert (y' ∈ y0 :: xys.*2) as Hy'
    by (change (y' ∈ ((x0, y0) :: xys).*2);
        by apply (list_elem_of_fmap_2 snd _ (x', y'))).
  unfold point_in_bbox. by rewrite Hwle, Hele, Hsle, Hnle.
Qed.

Lemma bbox_covers_outline_witness :
  ∃ w s e n,
    bbox_of_geom square = Ok (Some (w, s, e, n))
    ∧ point_in_bbox (72.9, 19.1)%float (Some (w, s, e, n)) = Ok true.
Proof.
  destruct (bbox_covers_outline square
              [[72.8; 19.0]; [72.9; 19.0]; [72.9; 19.1]; [72.8; 19.1]; [72.8; 19.0]]%float)
    as (w & s & e & n & Hb & Hin & _).
  - reflexivity.
  - done.
  - repeat constructor; do 2 eexists; (split; [by eexists|split; reflexivity]).
  - exists w, s, e, n. split; [exact Hb|].
    apply (Hin [72.9; 19.1]%float).
    + do 2 apply list_elem_of_further. apply list_elem_of_here.
    + by exists [].
Defined.

(** *** The load phase (lines 56-67) *)

(** A file that is absent, or holds a FeatureCollection. *)
Definition file_ok (fs : gmap string FeatureCollection) (fname : string) : bool :=
  match fs !! fname with
  | Some fc => bool_decide (fc_type fc = Some "FeatureCollection")
  | None => true
  end.

(** The layers the loop has stored when it ends. *)
Definition loaded (fs : gmap string FeatureCollection) (names : list string)
    (layers : gmap string (list Feature)) : gmap string (list Feature) :=
  foldl (λ acc fname, match fs !! fname with
                      | Some fc => <[fname := features fc]> acc
                      | None => acc
                      end) layers names.

Lemma load_layers_spec (fs : gmap string FeatureCollection)
    (req : list (string * list string)) (errs : list message)
    (layers : gmap string (list Feature)) :
  load_layers fs req errs layers =
  if forallb (file_ok fs) req.*1
  then Ok (errs ++ (MissingFile <$> filter (λ f, fs !! f = None) req.*1),
           loaded fs req.*1 layers)
  else Raise ValueError.
Proof.
  revert errs layers. induction req as [|[fname props] req IH]; intros errs layers.
  - cbn. by rewrite app_nil_r.
  - cbn [load_layers fmap list_fmap fst forallb loaded foldl]. unfold file_ok at 1.
    rewrite filter_cons. destruct (fs !! fname) as [fc|] eqn:Hf.
    + unfold load_fc. rewrite decide_False by done.
      destruct (bool_decide (fc_type fc = Some "FeatureCollection"));
        cbn [mbind result_bind andb]; [apply IH|done].
    + rewrite decide_True by done. cbn [andb]. rewrite IH.
      destruct (forallb (file_ok fs) req.*1); [|done].
      by rewrite fmap_cons, <- app_assoc.
Qed.

(** A required file that is absent ends the run with [sys.exit(1)] once the
    files that exist have been loaded: no layer is checked. *)
Theorem missing_file_is_fatal (set_order : list string → list string)
    (fs : gmap string FeatureCollection) (fname : string) :
  fname ∈ REQUIRED.*1 →
  fs !! fname = None →
  (∀ f fc, f ∈ REQUIRED.*1 → fs !! f = Some fc →
           fc_type fc = Some "FeatureCollection") →
  main set_order fs = Raise (SystemExit 1) ∧ exit_code (main set_order fs) = 1.
Proof.
  intros Hin Hnone Hfc.
  assert (main set_order fs = Raise (SystemExit 1)) as ->; [|done].
  unfold main. rewrite load_layers_spec.
  assert (forallb (file_ok fs) REQUIRED.*1 = true) as ->.
  { apply forallb_forall. intros f Hf%list_elem_of_In. unfold file_ok.
    destruct (fs !! f) as [fc|] eqn:Hlook; [|done].
    apply bool_decide_eq_true_2. by eapply Hfc. }
  assert (fname ∈ filter (λ f, fs !! f = None) REQUIRED.*1) as Hmiss
    by (by apply list_elem_of_filter).
  cbn [mbind result_bind app].
  destruct (filter (λ f, fs !! f = None) REQUIRED.*1) as [|f0 fs0];
    [by apply elem_of_nil in Hmiss|done].
Qed.

Lemma missing_file_is_fatal_witness :
  main id (delete "mumbai_micro_markets.geojson" (files [loc_1]))
  = Raise (SystemExit 1)
  ∧ exit_code (main id (delete "mumbai_micro_markets.geojson" (files [loc_1]))) = 1.
Proof.
  apply (missing_file_is_fatal id _ "mumbai_micro_markets.geojson").
  - vm_compute. set_solver.
  - reflexivity.
  - intros f fc Hf Hlook. 
    assert (f ∈ ["mumbai_city.geojson"; "mumbai_micro_markets.geojson";
                 "mumbai_localities.geojson"]) as Hf' by exact Hf.
    rewrite !elem_of_cons in Hf'. destruct Hf' as [->|[->|[->|Hf']]];
      [| | |by apply elem_of_nil in Hf']; vm_compute in Hlook;
      try discriminate Hlook; injection Hlook as <-; reflexivity.
Defined.

(** A file of a required layer that is not a FeatureCollection. *)
Definition not_a_collection : FeatureCollection :=
  {| fc_type := Some "Feature"; features := [] |}.

(** A required file that exists and is not a FeatureCollection makes
    [load_fc] raise [ValueError], which nothing catches - also when another
    required file is absent. *)
Theorem malformed_collection_raises (set_order : list string → list string)
    (fs : gmap string FeatureCollection) (fname : string) (fc : FeatureCollection) :
  fname ∈ REQUIRED.*1 →
  fs !! fname = Some fc →
  fc_type fc ≠ Some "FeatureCollection" →
  main set_order fs = Raise ValueError.
Proof.
  intros Hin Hlook Hty. unfold main. rewrite load_layers_spec.
  assert (forallb (file_ok fs) REQUIRED.*1 = false) as ->; [|done].
  apply not_true_is_false. intros Hall.
  rewrite forallb_forall in Hall. apply list_elem_of_In, Hall in Hin.
  unfold file_ok in Hin. rewrite Hlook in Hin. by apply bool_decide_eq_true_1 in Hin.
Qed.

Lemma malformed_collection_raises_witness :
  main id (<["mumbai_localities.geojson" := not_a_collection]>
             (delete "mumbai_city.geojson" (files []))) = Raise ValueError.
Proof.
  apply (malformed_collection_raises id _ "mumbai_localities.geojson" not_a_collection).
  - vm_compute. set_solver.
  - apply lookup_insert_eq.
  - discriminate.
Defined.

(** *** A run that returns *)

Definition city_file : string := "mumbai_city.geojson".
Definition mm_file : string := "mumbai_micro_markets.geojson".
Definition loc_file : string := "mumbai_localities.geojson".

(** The three layers of a run that got past the load phase. *)
Definition layers_of (city mm loc : FeatureCollection) : gmap string (list Feature) :=
  <[loc_file := features loc]>
    (<[mm_file := features mm]> (<[city_file := features city]> ∅)).

Lemma run_inv (set_order : list string → list string)
    (fs : gmap string FeatureCollection) (r : Report) :
  main set_order fs = Ok r →
  ∃ city mm loc errs1 warns1 city_bbox mm_bboxes,
    fs !! city_file = Some city ∧ fs !! mm_file = Some mm ∧ fs !! loc_file = Some loc
    ∧ check_layers set_order (layers_of city mm loc) REQUIRED [] [] = Ok (errs1, warns1)
    ∧ build_mm_bboxes (features mm) ∅ = Ok mm_bboxes
    ∧ check_localities city_bbox mm_bboxes (errs1, warns1) (features loc)
      = Ok (report_errors r, report_warnings r).
Proof.
  unfold main. rewrite load_layers_spec.
  destruct (forallb (file_ok fs) REQUIRED.*1); [|discriminate].
  change REQUIRED.*1 with [city_file; mm_file; loc_file].
  unfold loaded. cbn [foldl]. rewrite !filter_cons, filter_nil.
  destruct (fs !! city_file) as [city|]; [|by rewrite decide_True].
  destruct (fs !! mm_file) as [mm|];
    [|by rewrite (decide_False (P := Some city = None)), decide_True].
  destruct (fs !! loc_file) as [loc|];
    [|by rewrite !(decide_False (P := Some _ = None)), decide_True].
  rewrite !decide_False by done. cbn [mbind result_bind app fmap list_fmap].
  fold (layers_of city mm loc). intros H.
  inv_bind H p1 H1. destruct p1 as [errs1 warns1].
  assert (layers_of city mm loc !! city_file = Some (features city)) as Hc by done.
  assert (layers_of city mm loc !! mm_file = Some (features mm)) as Hm by done.
  assert (layers_of city mm loc !! loc_file = Some (features loc)) as Hl by done.
  unfold layer_item in H. 
  change "mumbai_city.geojson" with city_file in H.
  change "mumbai_micro_markets.geojson" with mm_file in H.
  change "mumbai_localities.geojson" with loc_file in H.
  rewrite Hc, Hm, Hl in H.
  cbn [mbind result_bind] in H.
  inv_bind H city_bbox Hcb. inv_bind H mm_bboxes Hmm. inv_bind H p2 H2.
  destruct p2 as [errs warns]. injection H as <-.
  by exists city, mm, loc, errs1, warns1, city_bbox, mm_bboxes.
Qed.

(** *** The cross-layer check (lines 94-103) *)

Definition is_unknown_mm (m : message) : bool :=
  match m with
  | UnknownMicroMarket _ _ => true
  | _ => false
  end.

(** The value of property [k] of a feature, if it has one. *)
Definition prop_of (k : string) (ft : Feature) : option jval :=
  match properties ft with
  | Has props => props !! k
  | _ => None
  end.

(** The [MicroMarketID] a feature carries, if any. *)
Definition mm_id_of (ft : Feature) : option jval := prop_of "MicroMarketID" ft.

(** The ids of the micro-market layer. *)
Definition mm_ids (feats : list Feature) : gset jval :=
  list_to_set (omap mm_id_of feats).

(** The error a locality gets when its [MicroMarketID] is not in [known]. *)
Definition dangling (known : gset jval) (ft : Feature) : option message :=
  match properties ft with
  | Has props =>
      match props !! "LocalityID", props !! "MicroMarketID" with
      | Some loc_id, Some mm_id =>
          if decide (mm_id ∈ known) then None
          else Some (UnknownMicroMarket loc_id mm_id)
      | _, _ => None
      end
  | _ => None
  end.

(** The layer loop adds no error of the cross-layer check. *)
Lemma check_features_unknown (fname : string) (need : list string) (key_prop : string)
    (feats : list Feature) (st st' : LayerState) (i : nat) :
  check_features fname need key_prop st i feats = Ok st' →
  filter (λ m, is_unknown_mm m = true) (errors st')
  = filter (λ m, is_unknown_mm m = true) (errors st).
Proof.
  revert st i. induction feats as [|ft feats IH]; intros st i H;
    cbn [check_features] in H.
  - by injection H as <-.
  - inv_bind H st1 H1. rewrite (IH _ _ H). apply check_feature_inv in H1.
    destruct (feature_key need key_prop ft) as [u|].
    + destruct H1 as [_ ->]. destruct (decide (u ∈ ids st)); [|done].
      by rewrite filter_app, filter_cons, filter_nil, decide_False, app_nil_r.
    + destruct H1 as [_ (props & _ & _ & ->)].
      by rewrite filter_app, filter_cons, filter_nil, decide_False, app_nil_r.
Qed.

Lemma check_layers_unknown (set_order : list string → list string)
    (layers : gmap string (list Feature)) (req : list (string * list string))
    (errs warns errs' warns' : list message) :
  check_layers set_order layers req errs warns = Ok (errs', warns') →
  filter (λ m, is_unknown_mm m = true) errs'
  = filter (λ m, is_unknown_mm m = true) errs.
Proof.
  revert errs warns. induction req as [|[fname props] req IH]; intros errs warns H;
    cbn [check_layers] in H.
  - by injection H as <- <-.
  - inv_bind H feats Hf. inv_bind H st Hst. rewrite (IH _ _ H).
    unfold check_layer in Hst. inv_bind Hst key_prop Hk.
    by apply check_features_unknown in Hst.
Qed.

(** What a micro-market feature must hold for line 94 to pass. *)
Definition mm_feature_ok (ft : Feature) : Prop :=
  ∃ props v geom, properties ft = Has props ∧ props !! "MicroMarketID" = Some v
                  ∧ geometry ft = Has geom.

Lemma bbox_of_item_inv (g : member Geom) (b : option BBox) :
  bbox_of_item g = Ok b → ∃ geom, g = Has geom.
Proof. destruct g as [| |geom]; [done|done|by exists geom]. Qed.

Lemma build_mm_bboxes_inv (feats : list Feature) (acc m : gmap jval (option BBox)) :
  build_mm_bboxes feats acc = Ok m →
  dom m = dom acc ∪ mm_ids feats ∧ Forall mm_feature_ok feats.
Proof.
  revert acc. induction feats as [|ft feats IH]; intros acc H;
    cbn [build_mm_bboxes] in H.
  - injection H as <-. unfold mm_ids. cbn. split; [set_solver|constructor].
  - inv_bind H props Hp. inv_bind H mm_id Hid. inv_bind H bbox Hb.
    apply IH in H as [Hdom Hall].
    unfold props_item in Hp. destruct (properties ft) as [| |props'] eqn:Hprops;
      try discriminate Hp. injection Hp as ->.
    unfold prop_item in Hid.
    destruct (props !! "MicroMarketID") as [v|] eqn:Hv; [|discriminate Hid].
    injection Hid as ->. destruct (bbox_of_item_inv _ _ Hb) as [geom Hg].
    split.
    + rewrite Hdom, dom_insert_L. unfold mm_ids. cbn [omap list_omap].
      unfold mm_id_of, prop_of at 2. rewrite Hprops, Hv. cbn [list_to_set]. set_solver.
    + constructor; [|done]. by exists props, mm_id, geom.
Qed.

(** What a locality feature must hold for lines 99-101 to pass. *)
Definition loc_feature_ok (ft : Feature) : Prop :=
  ∃ props loc_id mm_id, properties ft = Has props
                        ∧ props !! "LocalityID" = Some loc_id
                        ∧ props !! "MicroMarketID" = Some mm_id.

Lemma check_locality_inv (city_bbox : option BBox)
    (mm_bboxes : gmap jval (option BBox)) (errs warns errs' warns' : list message)
    (ft : Feature) :
  check_locality city_bbox mm_bboxes (errs, warns) ft = Ok (errs', warns') →
  loc_feature_ok ft
  ∧ errs' = errs ++ option_list (dangling (dom mm_bboxes) ft).
Proof.
  unfold check_locality, loc_feature_ok, dangling, props_item, prop_item. intros H.
  destruct (properties ft) as [| |props]; try discriminate H.
  cbn [mbind result_bind] in H.
  destruct (props !! "LocalityID") as [loc_id|] eqn:Hloc; [|discriminate H].
  cbn [mbind result_bind] in H.
  destruct (props !! "MicroMarketID") as [mm_id|] eqn:Hmid; [|discriminate H].
  cbn [mbind result_bind] in H.
  split; [by exists props, loc_id, mm_id|].
  destruct (mm_bboxes !! mm_id) as [mm_bbox|] eqn:Hmm.
  - rewrite decide_True by (by apply elem_of_dom). cbn [option_list].
    rewrite app_nil_r. inv_bind H c Hc. destruct c as [c|]; [|by injection H].
    inv_bind H warns1 Hw. inv_bind H inside Hi. by injection H.
  - rewrite decide_False by (by apply not_elem_of_dom). by injection H as <- <-.
Qed.

Lemma check_localities_inv (city_bbox : option BBox)
    (mm_bboxes : gmap jval (option BBox)) (feats : list Feature)
    (errs warns errs' warns' : list message) :
  check_localities city_bbox mm_bboxes (errs, warns) feats = Ok (errs', warns') →
  Forall loc_feature_ok feats
  ∧ errs' = errs ++ omap (dangling (dom mm_bboxes)) feats.
Proof.
  revert errs warns. induction feats as [|ft feats IH]; intros errs warns H;
    cbn [check_localities] in H.
  - injection H as <- <-. split; [constructor|by rewrite app_nil_r].
  - inv_bind H st1 H1. destruct st1 as [errs1 warns1].
    apply check_locality_inv in H1 as [Hok ->]. apply IH in H as [Hall ->].
    split; [by constructor|]. rewrite <- app_assoc. f_equal.
    cbn [omap list_omap]. by destruct (dangling (dom mm_bboxes) ft).
Qed.

Lemma filter_dangling (known : gset jval) (feats : list Feature) :
  filter (λ m, is_unknown_mm m = true) (omap (dangling known) feats)
  = omap (dangling known) feats.
Proof.
  induction feats as [|ft feats IH]; [done|]. cbn [omap list_omap].
  destruct (dangling known ft) as [m|] eqn:Hd; [|done].
  rewrite filter_cons, IH. rewrite decide_True; [done|].
  unfold dangling in Hd. destruct (properties ft) as [| |props]; try done.
  destruct (props !! "LocalityID") as [loc_id|], (props !! "MicroMarketID") as [mm_id|];
    try done.
  destruct (decide (mm_id ∈ known)); [done|]. by injection Hd as <-.
Qed.

(** The errors of the cross-layer check that a completed run reports are, in
    the order of the locality file, one for each locality whose
    [MicroMarketID] is not the [MicroMarketID] of a feature of the
    micro-market file - and no other. *)
Theorem unknown_micro_markets_reported (set_order : list string → list string)
    (fs : gmap string FeatureCollection) (r : Report) (mm loc : FeatureCollection) :
  fs !! "mumbai_micro_markets.geojson" = Some mm →
  fs !! "mumbai_localities.geojson" = Some loc →
  main set_order fs = Ok r →
  filter (λ m, is_unknown_mm m = true) (report_errors r)
  = omap (dangling (mm_ids (features mm))) (features loc).
Proof.
  intros Hmm Hloc Hrun.
  destruct (run_inv _ _ _ Hrun)
    as (city & mm' & loc' & errs1 & warns1 & cb & mmb & _ & Hmm' & Hloc' & H1 & Hb & H2).
  unfold mm_file in Hmm'. unfold loc_file in Hloc'.
  rewrite Hmm in Hmm'. rewrite Hloc in Hloc'.
  injection Hmm' as <-. injection Hloc' as <-.
  apply check_layers_unknown in H1. apply build_mm_bboxes_inv in Hb as [Hdom _].
  apply check_localities_inv in H2 as [_ ->].
  rewrite filter_app, H1, filter_nil, app_nil_l, filter_dangling.
  rewrite Hdom, dom_empty_L. by rewrite (left_id_L ∅ (∪)).
Qed.

(** A locality that refers to micro-market 99, which no feature defines. *)
Definition loc_dangling : Feature :=
  feature [("LocalityID", JInt 103); ("MicroMarketID", JInt 99);
           ("CityID", JInt 13); ("LocalityName", JStr "Bandra")].

Lemma unknown_micro_markets_reported_witness :
  ∃ r, main id (files [loc_1; loc_dangling; loc_1]) = Ok r
       ∧ filter (λ m, is_unknown_mm m = true) (report_errors r)
         = [UnknownMicroMarket (JInt 103) (JInt 99)].
Proof.
  destruct (main id (files [loc_1; loc_dangling; loc_1])) as [r|e] eqn:Hrun;
    [|by vm_compute in Hrun].
  exists r. split; [done|].
  rewrite (unknown_micro_markets_reported id (files [loc_1; loc_dangling; loc_1]) r
             (collection [mm_1]) (collection [loc_1; loc_dangling; loc_1])
             eq_refl eq_refl Hrun).
  vm_compute. reflexivity.
Defined.

(** *** Exceptions other than [SystemExit] *)























(** *** Which property the duplicate check uses *)

Lemma to_front_Permutation (k : string) (props : list string) :
  NoDup props → k ∈ props → k :: filter (λ p, p ≠ k) props ≡ₚ props.
Proof.
  induction 1 as [|p ps Hp Hnd IH]; intros Hin; [by apply elem_of_nil in Hin|].
  rewrite filter_cons. destruct (decide (p = k)) as [->|Hpk].
  - rewrite decide_False by (by intros ?). f_equiv.
    clear IH Hin Hnd. induction ps as [|q ps IH]; [done|].
    rewrite filter_cons, decide_True by set_solver. f_equiv. apply IH. set_solver.
  - rewrite decide_True by done. rewrite Permutation_swap. f_equiv.
    apply IH. set_solver.
Qed.

Lemma key_prop_of_front (k : string) (rest : list string) :
  endswith k "ID" = true → key_prop_of (k :: rest) = Ok k.
Proof. intros Hk. unfold key_prop_of. by rewrite filter_cons, decide_True. Qed.

Lemma feature_ok_key (need : list string) (k : string) (ft : Feature) (v : jval) :
  feature_key need k ft = Some v →
  ∃ props, props_get ft = Ok props ∧ missing_props need props = []
           ∧ props !! k = Some v.
Proof.
  unfold feature_key. destruct (props_get ft) as [props|]; [|done].
  destruct (missing_props need props) eqn:Hm; [|done]. intros Hv. by exists props.
Qed.

Lemma duplicate_pair (fname : string) (need : list string) (k : string)
    (errs warns : list message) (ft1 ft2 : Feature) (v : jval) :
  key_prop_of need = Ok k →
  feature_ok need ft1 → feature_ok need ft2 →
  feature_key need k ft1 = Some v → feature_key need k ft2 = Some v →
  ∃ st, check_layer fname need errs warns [ft1; ft2] = Ok st
        ∧ errors st = errs ++ [DuplicateId fname k v].
Proof.
  intros Hk Hok1 Hok2 Hv1 Hv2. unfold check_layer. rewrite Hk.
  cbn [mbind result_bind].
  destruct (check_features_total fname need k [ft1; ft2]
              {| errors := errs; warnings := warns; ids := ∅ |} 0%nat
              (key_prop_of_need _ _ Hk)) as [st Hst]; [by repeat constructor|].
  exists st. split; [done|]. cbn [check_features] in Hst.
  inv_bind Hst st1 H1. inv_bind Hst st2 H2. injection Hst as <-.
  apply check_feature_inv in H1, H2. rewrite Hv1 in H1. rewrite Hv2 in H2.
  cbn [errors ids] in H1. destruct H1 as [Hids1 Herr1], H2 as [Hids2 Herr2].
  rewrite decide_False in Herr1 by set_solver.
  rewrite decide_True in Herr2 by set_solver. by rewrite Herr2, Herr1.
Qed.

Lemma missing_props_Permutation (need need' : list string)
    (props : gmap string jval) :
  need ≡ₚ need' → missing_props need props = [] → missing_props need' props = [].
Proof.
  unfold missing_props. intros Hperm Hnil. apply Permutation_nil_r.
  by rewrite <- Hperm, Hnil.
Qed.

Lemma feature_key_Permutation (need need' : list string) (k : string)
    (ft : Feature) (v : jval) :
  need ≡ₚ need' → feature_key need k ft = Some v → feature_key need' k ft = Some v.
Proof.
  intros Hperm (props & Hp & Hm & Hv)%feature_ok_key. unfold feature_key.
  by rewrite Hp, (missing_props_Permutation _ _ _ Hperm Hm).
Qed.

Lemma feature_ok_Permutation (need need' : list string) (ft : Feature) :
  need ≡ₚ need' → feature_ok need ft → feature_ok need' ft.
Proof.
  intros Hperm (props & Hp & Hb). exists props. split; [done|]. intros Hm.
  apply Hb. by eapply missing_props_Permutation.
Qed.

(** The duplicate check keys on the first property, in the iteration order
    of the set of required properties, whose name ends in [ID].  For every
    layer and every required property of it that ends in [ID] there is an
    order of the set under which that property is the key; two features that
    agree on it are then reported as duplicates of each other, whatever
    their other ids. *)
Theorem duplicate_key_follows_set_order (fname : string) (props : list string)
    (k : string) (errs warns : list message) (ft1 ft2 : Feature) (v : jval) :
  (fname, props) ∈ REQUIRED →
  k ∈ props →
  endswith k "ID" = true →
  feature_ok props ft1 → feature_ok props ft2 →
  feature_key props k ft1 = Some v → feature_key props k ft2 = Some v →
  ∃ order,
    order ≡ₚ props
    ∧ key_prop_of order = Ok k
    ∧ ∃ st, check_layer fname order errs warns [ft1; ft2] = Ok st
            ∧ errors st = errs ++ [DuplicateId fname k v].
Proof.
  intros Hreq Hin Hk Hok1 Hok2 Hv1 Hv2.
  exists (k :: filter (λ p, p ≠ k) props).
  assert (props ≡ₚ k :: filter (λ p, p ≠ k) props) as Hperm.
  { symmetry. apply to_front_Permutation; [|done].
    unfold REQUIRED in Hreq. rewrite !elem_of_cons in Hreq.
    destruct Hreq as [[= _ ->]|[[= _ ->]|[[= _ ->]|Hreq]]];
      [| | |by apply elem_of_nil in Hreq];
      apply (bool_decide_unpack _); by vm_compute. }
  split; [done|]. split; [by apply key_prop_of_front|].
  apply duplicate_pair.
  - by apply key_prop_of_front.
  - by eapply feature_ok_Permutation.
  - by eapply feature_ok_Permutation.
  - by eapply feature_key_Permutation.
  - by eapply feature_key_Permutation.
Qed.

(** A second micro-market of city 13. *)
Definition mm_2 : Feature :=
  feature [("MicroMarketID", JInt 8); ("CityID", JInt 13);
           ("MicroMarketName", JStr "Bandra")].

Lemma duplicate_key_follows_set_order_witness :
  ∃ order,
    order ≡ₚ ["MicroMarketID"; "CityID"; "MicroMarketName"]
    ∧ key_prop_of order = Ok "CityID"
    ∧ ∃ st, check_layer "mumbai_micro_markets.geojson" order [] [] [mm_1; mm_2] = Ok st
            ∧ errors st = [DuplicateId "mumbai_micro_markets.geojson" "CityID" (JInt 13)].
Proof.
  apply (duplicate_key_follows_set_order "mumbai_micro_markets.geojson"
           ["MicroMarketID"; "CityID"; "MicroMarketName"] "CityID" [] [] mm_1 mm_2
           (JInt 13)).
  - unfold REQUIRED. set_solver.
  - set_solver.
  - reflexivity.
  - eexists. split; [reflexivity|]. intros _. eexists. vm_compute. reflexivity.
  - eexists. split; [reflexivity|]. intros _. eexists. vm_compute. reflexivity.
  - reflexivity.
  - reflexivity.
Defined.

(** *** Layers that are consistent *)

(** A geometry of a known type whose positions each have a longitude and a
    latitude, and that has at least one position. *)
Definition well_formed (geom : Geom) : Prop :=
  ∃ ps, outline geom = Ok (Some ps) ∧ ps ≠ []
        ∧ Forall (λ p, ∃ x y, lon_lat p x y) ps.

(** A feature with all the properties of [need] and a well-formed geometry. *)
Definition clean_feature (need : list string) (ft : Feature) : Prop :=
  ∃ props geom, properties ft = Has props ∧ missing_props need props = []
                ∧ geometry ft = Has geom ∧ well_formed geom.

Lemma positions_indexed (ps : list Position) :
  Forall (λ p, ∃ x y, lon_lat p x y) ps →
  ∃ lons lats, map_result index0 ps = Ok lons ∧ map_result index1 ps = Ok lats
               ∧ length lons = length ps ∧ length lats = length ps.
Proof.
  induction 1 as [|p ps (x & y & rest & ->) _ (lons & lats & H0 & H1 & Hl0 & Hl1)].
  - by exists [], [].
  - exists (x :: lons), (y :: lats). cbn [map_result index0 index1].
    rewrite H0, H1. cbn. by rewrite Hl0, Hl1.
Qed.

Lemma well_formed_bbox (geom : Geom) :
  well_formed geom → ∃ b, bbox_of_geom geom = Ok (Some b).
Proof.
  intros (ps & Hout & Hne & Hps). rewrite bbox_of_outline, Hout.
  cbn [mbind result_bind].
  destruct (positions_indexed ps Hps) as (lons & lats & -> & -> & Hl0 & Hl1).
  cbn [mbind result_bind].
  destruct ps as [|p ps]; [done|]. destruct lons as [|x lons]; [done|].
  destruct lats as [|y lats]; [done|]. by eexists.
Qed.

Lemma clean_feature_key (need : list string) (k : string) (ft : Feature) :
  k ∈ need → clean_feature need ft →
  ∃ v, prop_of k ft = Some v ∧ feature_key need k ft = Some v.
Proof.
  intros Hk (props & geom & Hp & Hm & _ & _).
  destruct (missing_props_nil need props k Hm Hk) as [v Hv]. exists v.
  unfold prop_of, feature_key, props_get. by rewrite Hp, Hm.
Qed.

Lemma check_features_clean (fname : string) (need : list string) (k : string)
    (feats : list Feature) (st : LayerState) (i : nat) :
  k ∈ need →
  Forall (clean_feature need) feats →
  NoDup (omap (prop_of k) feats) →
  (∀ v, v ∈ omap (prop_of k) feats → v ∉ ids st) →
  ∃ st', check_features fname need k st i feats = Ok st' ∧ errors st' = errors st.
Proof.
  intros Hk Hall. revert st i.
  induction Hall as [|ft feats Hft _ IH]; intros st i Hnd Hfresh.
  - by exists st.
  - destruct (clean_feature_key need k ft Hk Hft) as (v & Hv & Hkey).
    destruct Hft as (props & geom & Hp & Hm & Hg & Hwf).
    destruct (well_formed_bbox geom Hwf) as [b Hb].
    cbn [omap list_omap] in Hnd, Hfresh. rewrite Hv in Hnd, Hfresh.
    apply NoDup_cons in Hnd as [Hv' Hnd].
    cbn [check_features]. unfold check_feature at 1, props_get. rewrite Hp.
    cbn [mbind result_bind]. rewrite Hm. unfold prop_item.
    unfold prop_of in Hv. rewrite Hp in Hv. rewrite Hv. cbn [mbind result_bind].
    unfold bbox_of_get. rewrite Hg, Hb. cbn [mbind result_bind].
    rewrite decide_False by (apply Hfresh; set_solver).
    match goal with |- ∃ st', check_features _ _ _ ?s _ _ = _ ∧ _ =>
      destruct (IH s (S i) Hnd) as (st' & Hst' & Herr) end.
    { cbn [ids]. intros u Hu. set_solver. }
    exists st'. split; [done|]. by rewrite Herr.
Qed.

Lemma clean_feature_Permutation (need need' : list string) (ft : Feature) :
  need ≡ₚ need' → clean_feature need ft → clean_feature need' ft.
Proof.
  intros Hperm (props & geom & Hp & Hm & Hg & Hwf). exists props, geom.
  split; [done|]. split; [by eapply missing_props_Permutation|done].
Qed.

Lemma check_layer_clean (fname : string) (need order : list string) (k : string)
    (errs warns : list message) (feats : list Feature) :
  order ≡ₚ need →
  key_prop_of order = Ok k →
  Forall (clean_feature need) feats →
  NoDup (omap (prop_of k) feats) →
  ∃ st, check_layer fname order errs warns feats = Ok st ∧ errors st = errs.
Proof.
  intros Hperm Hk Hall Hnd. unfold check_layer. rewrite Hk. cbn [mbind result_bind].
  apply (check_features_clean fname order k feats
           {| errors := errs; warnings := warns; ids := ∅ |}).
  - by apply key_prop_of_need.
  - eapply Forall_impl; [exact Hall|]. intros ft. by apply clean_feature_Permutation.
  - done.
  - set_solver.
Qed.

Lemma build_mm_bboxes_clean (need : list string) (feats : list Feature)
    (acc : gmap jval (option BBox)) :
  "MicroMarketID" ∈ need →
  Forall (clean_feature need) feats →
  (∀ v b, acc !! v = Some b → is_Some b) →
  ∃ m, build_mm_bboxes feats acc = Ok m ∧ ∀ v b, m !! v = Some b → is_Some b.
Proof.
  intros Hk Hall. revert acc.
  induction Hall as [|ft feats (props & geom & Hp & Hm & Hg & Hwf) _ IH];
    intros acc Hacc.
  - by exists acc.
  - cbn [build_mm_bboxes]. unfold props_item, prop_item. rewrite Hp.
    cbn [mbind result_bind].
    destruct (missing_props_nil need props _ Hm Hk) as [v ->].
    cbn [mbind result_bind]. unfold bbox_of_item. rewrite Hg.
    destruct (well_formed_bbox geom Hwf) as [b ->]. cbn [mbind result_bind].
    apply IH. intros u c. rewrite lookup_insert_Some. intros [[_ <-]|[_ Hu]]; [done|].
    by eapply Hacc.
Qed.

Lemma check_localities_clean (need : list string) (city_bbox : option BBox)
    (mm_bboxes : gmap jval (option BBox)) (feats : list Feature)
    (errs warns : list message) :
  "LocalityID" ∈ need → "MicroMarketID" ∈ need →
  Forall (clean_feature need) feats →
  (∀ v b, mm_bboxes !! v = Some b → is_Some b) →
  (∀ ft, ft ∈ feats → ∃ v, prop_of "MicroMarketID" ft = Some v ∧ v ∈ dom mm_bboxes) →
  ∃ warns', check_localities city_bbox mm_bboxes (errs, warns) feats
            = Ok (errs, warns').
Proof.
  intros Hl Hk Hall Hmmb. revert warns.
  induction Hall as [|ft feats (props & geom & Hp & Hm & Hg & Hwf) _ IH];
    intros warns Hknown.
  - by exists warns.
  - cbn [check_localities]. unfold check_locality, props_item, prop_item.
    rewrite Hp. cbn [mbind result_bind].
    destruct (missing_props_nil need props _ Hm Hl) as [loc_id ->].
    cbn [mbind result_bind].
    destruct (Hknown ft) as (v & Hv & Hin); [set_solver|].
    unfold prop_of in Hv. rewrite Hp in Hv. rewrite Hv. cbn [mbind result_bind].
    apply elem_of_dom in Hin as [mm_bbox Hmm]. rewrite Hmm.
    destruct (Hmmb _ _ Hmm) as [[[[w s] e] n] ->].
    unfold centroid_of_item, bbox_of_item. rewrite Hg.
    destruct (well_formed_bbox geom Hwf) as [[[[w' s'] e'] n'] ->].
    cbn [mbind result_bind].
    destruct city_bbox as [[[[cw cs] ce] cn]|]; cbn [mbind result_bind point_in_bbox];
      apply IH; intros ft' Hft'; apply Hknown; set_solver.
Qed.

Lemma run_loaded (set_order : list string → list string)
    (fs : gmap string FeatureCollection) (city mm loc : FeatureCollection) :
  fs !! city_file = Some city → fs !! mm_file = Some mm → fs !! loc_file = Some loc →
  fc_type city = Some "FeatureCollection" →
  fc_type mm = Some "FeatureCollection" →
  fc_type loc = Some "FeatureCollection" →
  main set_order fs =
  ('(errs, warns) ← check_layers set_order (layers_of city mm loc) REQUIRED [] [];
   city_bbox ← match features city with
               | ft :: _ => bbox_of_item (geometry ft)
               | [] => Ok None
               end;
   mm_bboxes ← build_mm_bboxes (features mm) ∅;
   '(errs, warns) ← check_localities city_bbox mm_bboxes (errs, warns) (features loc);
   mret {| report_errors := errs; report_warnings := warns |}).
Proof.
  intros Hc Hm Hl Htc Htm Htl. unfold main. rewrite load_layers_spec.
  change REQUIRED.*1 with [city_file; mm_file; loc_file].
  cbn [forallb]. unfold file_ok, loaded. cbn [foldl].
  rewrite !filter_cons, filter_nil, Hc, Hm, Hl, Htc, Htm, Htl.
  rewrite !bool_decide_eq_true_2 by done. rewrite !decide_False by done.
  cbn [andb mbind result_bind app fmap list_fmap]. fold (layers_of city mm loc).
  destruct (check_layers set_order (layers_of city mm loc) REQUIRED [] [])
    as [[errs warns]|e]; [|done]. cbn [mbind result_bind].
  assert (layers_of city mm loc !! city_file = Some (features city)) as Hc' by done.
  assert (layers_of city mm loc !! mm_file = Some (features mm)) as Hm' by done.
  assert (layers_of city mm loc !! loc_file = Some (features loc)) as Hl' by done.
  unfold layer_item.
  change "mumbai_city.geojson" with city_file.
  change "mumbai_micro_markets.geojson" with mm_file.
  change "mumbai_localities.geojson" with loc_file.
  by rewrite Hc', Hm', Hl'.
Qed.

(** The set order keeps each layer's properties and puts the layer's own id
    before its other properties that end in [ID]. *)
Definition own_id_first (set_order : list string → list string) : Prop :=
  ∀ fname props, (fname, props) ∈ REQUIRED →
    set_order props ≡ₚ props ∧ key_prop_of (set_order props) = key_prop_of props.

(** Layers that are consistent pass: when the three files are
    FeatureCollections whose features all have their required properties and
    a well-formed geometry, no two features of a layer share the layer's id,
    and every locality names a micro-market of the micro-market file, the run
    returns and reports no error. *)
Theorem consistent_layers_pass (set_order : list string → list string)
    (fs : gmap string FeatureCollection) (city mm loc : FeatureCollection) :
  own_id_first set_order →
  fs !! "mumbai_city.geojson" = Some city →
  fs !! "mumbai_micro_markets.geojson" = Some mm →
  fs !! "mumbai_localities.geojson" = Some loc →
  fc_type city = Some "FeatureCollection" →
  fc_type mm = Some "FeatureCollection" →
  fc_type loc = Some "FeatureCollection" →
  Forall (clean_feature ["CityID"; "CityName"]) (features city) →
  Forall (clean_feature ["MicroMarketID"; "CityID"; "MicroMarketName"]) (features mm) →
  Forall (clean_feature ["LocalityID"; "MicroMarketID"; "CityID"; "LocalityName"])
    (features loc) →
  NoDup (omap (prop_of "CityID") (features city)) →
  NoDup (omap (prop_of "MicroMarketID") (features mm)) →
  NoDup (omap (prop_of "LocalityID") (features loc)) →
  (∀ ft, ft ∈ features loc →
         ∃ v, prop_of "MicroMarketID" ft = Some v
              ∧ v ∈ omap (prop_of "MicroMarketID") (features mm)) →
  ∃ r, main set_order fs = Ok r ∧ report_errors r = [].
Proof.
  intros Hso Hc Hm Hl Htc Htm Htl Hcity Hmm Hloc Hndc Hndm Hndl Href.
  rewrite (run_loaded set_order fs city mm loc Hc Hm Hl Htc Htm Htl).
  unfold REQUIRED at 1. cbn [check_layers]. unfold layer_item.
  assert (layers_of city mm loc !! "mumbai_city.geojson" = Some (features city)) as -> by done.
  assert (layers_of city mm loc !! "mumbai_micro_markets.geojson" = Some (features mm)) as -> by done.
  assert (layers_of city mm loc !! "mumbai_localities.geojson" = Some (features loc)) as -> by done.
  cbn [mbind result_bind].
  destruct (Hso "mumbai_city.geojson" ["CityID"; "CityName"]) as [Hp1 Hk1];
    [unfold REQUIRED; set_solver|].
  destruct (Hso "mumbai_micro_markets.geojson"
              ["MicroMarketID"; "CityID"; "MicroMarketName"]) as [Hp2 Hk2];
    [unfold REQUIRED; set_solver|].
  destruct (Hso "mumbai_localities.geojson"
              ["LocalityID"; "MicroMarketID"; "CityID"; "LocalityName"]) as [Hp3 Hk3];
    [unfold REQUIRED; set_solver|].
  destruct (check_layer_clean "mumbai_city.geojson" _ _ "CityID" [] []
              (features city) Hp1 Hk1 Hcity Hndc) as (st1 & -> & He1).
  cbn [mbind result_bind]. rewrite He1.
  destruct (check_layer_clean "mumbai_micro_markets.geojson" _ _ "MicroMarketID"
              [] (warnings st1) (features mm) Hp2 Hk2 Hmm Hndm) as (st2 & -> & He2).
  cbn [mbind result_bind]. rewrite He2.
  destruct (check_layer_clean "mumbai_localities.geojson" _ _ "LocalityID"
              [] (warnings st2) (features loc) Hp3 Hk3 Hloc Hndl) as (st3 & -> & He3).
  cbn [mbind result_bind]. rewrite He3.
  assert (∃ cb, match features city with
                | ft :: _ => bbox_of_item (geometry ft)
                | [] => Ok None
                end = Ok cb) as [cb ->].
  { destruct Hcity as [|ft feats (props & geom & _ & _ & Hg & Hwf) _]; [by eexists|].
    unfold bbox_of_item. rewrite Hg.
    destruct (well_formed_bbox geom Hwf) as [b ->]. by eexists. }
  cbn [mbind result_bind].
  destruct (build_mm_bboxes_clean ["MicroMarketID"; "CityID"; "MicroMarketName"]
              (features mm) ∅ ltac:(set_solver) Hmm)
    as (mmb & Hb & Hsome); [by intros v b; rewrite lookup_empty|].
  rewrite Hb. cbn [mbind result_bind].
  apply build_mm_bboxes_inv in Hb as [Hdom _].
  destruct (check_localities_clean
              ["LocalityID"; "MicroMarketID"; "CityID"; "LocalityName"]
              cb mmb (features loc) [] (warnings st3)
              ltac:(set_solver) ltac:(set_solver) Hloc Hsome) as [warns' ->].
  { intros ft Hft. destruct (Href ft Hft) as (v & Hv & Hin). exists v.
    split; [done|]. rewrite Hdom. unfold mm_ids.
    apply elem_of_union_r, elem_of_list_to_set. exact Hin. }
  cbn [mbind result_bind]. by eexists.
Qed.

Lemma square_well_formed : well_formed square.
Proof.
  eexists. split; [reflexivity|]. split; [done|].
  repeat constructor; by do 3 eexists.
Qed.

Lemma consistent_layers_pass_witness :
  ∃ r, main id (files [loc_1]) = Ok r ∧ report_errors r = [].
Proof.
  apply (consistent_layers_pass id (files [loc_1]) (collection [city_1])
           (collection [mm_1]) (collection [loc_1])); try reflexivity.
  - by intros fname props _.
  - repeat constructor. exists (list_to_map [("CityID", JInt 13); ("CityName", JStr "Mumbai")]), square.
    split; [reflexivity|]. split; [by vm_compute|]. split; [reflexivity|].
    apply square_well_formed.
  - repeat constructor.
    exists (list_to_map [("MicroMarketID", JInt 7); ("CityID", JInt 13);
                         ("MicroMarketName", JStr "Andheri")]), square.
    split; [reflexivity|]. split; [by vm_compute|]. split; [reflexivity|].
    apply square_well_formed.
  - repeat constructor.
    exists (list_to_map [("LocalityID", JInt 101); ("MicroMarketID", JInt 7);
                         ("CityID", JInt 13); ("LocalityName", JStr "Versova")]), square.
    split; [reflexivity|]. split; [by vm_compute|]. split; [reflexivity|].
    apply square_well_formed.
  - apply (bool_decide_unpack _). by vm_compute.
  - apply (bool_decide_unpack _). by vm_compute.
  - apply (bool_decide_unpack _). by vm_compute.
  - intros ft Hft. apply list_elem_of_singleton in Hft as ->. exists (JInt 7).
    split; [reflexivity|]. apply (bool_decide_unpack _). by vm_compute.
Defined.

(** *** Features without a geometry *)







End GeoValidator.

(** ** [scripts/make_dims.py]: the dimension builder *)
Module MakeDims.
Import Py.

(** A row of [csv.DictReader]: column name to cell. *)
Abbreviation Row := (gmap string Cell).

(** [str(x)] for a cell. *)
Definition str_of_cell (c : Cell) : string :=
  match c with
  | Some s => s
  | None => "None"
  end.

(** [str(n)] for an [int]. *)
Definition str_of_int (n : Z) : string := NilZero.string_of_int (Z.to_int n).

(** [get_first(d, keys, default, cast)].  A cast returns the value it makes
    or raises; [None] is a value ([str(None)] is not blank, so a [None] cell
    gets as far as the cast). *)
Fixpoint get_first {V : Type} (cast : Cell → result (option V)) (d : Row)
    (keys : list string) (default : option V) : option V :=
  match keys with
  | [] => default
  | k :: keys' =>
      match d !! k with
      | Some c =>
          if bool_decide (strip (str_of_cell c) ≠ "") then
            match cast c with
            | Ok v => v
            | Raise _ => get_first cast d keys' default
            end
          else get_first cast d keys' default
      | None => get_first cast d keys' default
      end
  end.

(** The casts the script passes: none, [int], [str] and [float]. *)
Definition no_cast (c : Cell) : result (option string) := Ok c.
Definition cast_int (c : Cell) : result (option Z) := n ← int_of_cell c; mret (Some n).
Definition cast_str (c : Cell) : result (option string) := Ok (Some (str_of_cell c)).
Definition cast_float (c : Cell) : result (option float) :=
  v ← float_of_cell c; mret (Some v).

(** A micro-market record [{"id", "name", "cityId"}]. *)
Record MicroMarket : Type := {
  mm_id : option Z;
  mm_name : option string;
  mm_cityId : option Z
}.

(** A locality record; [loc_microMarketName] is [None] when the key is not
    set, [Some None] when it is [null]. *)
Record Locality : Type := {
  loc_id : option Z;
  loc_name : option string;
  loc_cityId : option Z;
  loc_microMarketId : option Z;
  loc_microMarketName : option (option string)
}.

(** [norm_mm(row)] *)
Definition norm_mm (row : Row) : MicroMarket :=
  {| mm_id := get_first cast_int row
       ["MicroMarketID"; "MICROMARKETID"; "locationid"; "LocationID"; "LOC_ID"] None;
     mm_name := get_first no_cast row
       ["MicroMarketName"; "MICROMARKETNAME"; "locationname"; "LocationName"; "NAME"]
       (Some "(Unnamed)");
     mm_cityId := get_first cast_int row ["CityID"; "CITYID"; "cityid"] None |}.

(** [f"Locality {loc_id}"] *)
Definition default_name (loc_id : option Z) : string :=
  "Locality " +:+ match loc_id with
                  | Some n => str_of_int n
                  | None => "None"
                  end.

(** [norm_loc(row, mm_name_by_id)]; the dict is truthy when it is not empty. *)
Definition norm_loc (row : Row) (mm_name_by_id : gmap Z (option string)) : Locality :=
  let loc_id := get_first cast_int row
    ["LocalityID"; "LOCALITYID"; "sublocationid"; "SubLocationID"] None in
  let name := get_first no_cast row
    ["LocalityName"; "LOCALITYNAME"; "sublocationname"; "SubLocationName"; "NAME"]
    (Some (default_name loc_id)) in
  let city_id := get_first cast_int row ["CityID"; "CITYID"; "cityid"] None in
  let mm_id := get_first cast_int row
    ["MicroMarketID"; "MICROMARKETID"; "locationid"; "LocationID"] None in
  {| loc_id := loc_id; loc_name := name; loc_cityId := city_id;
     loc_microMarketId := mm_id;
     loc_microMarketName :=
       match mm_id with
       | Some m =>
           if bool_decide (mm_name_by_id ≠ ∅) then Some (mjoin (mm_name_by_id !! m))
           else None
       | None => None
       end |}.

(** A BHK or asset-type entry [{"code", "label"}]. *)
Record Code : Type := {
  code : string;
  label : option string
}.

(** A number that is a [float] or an [int]. *)
Inductive Num : Type :=
| NFloat (v : float)
| NInt (n : Z).

(** The city record. *)
Record City : Type := {
  CityID : Z;
  CityName : string;
  center : float * float;
  zoom : Num
}.

(** The document written to [dims.json]. *)
Record Dims : Type := {
  bhk : list Code;
  assets : list Code;
  city : option City;
  micromarkets : list MicroMarket;
  localities : list Locality
}.

(** The loops that build the BHK and the asset-type list (lines 81-85 and
    89-93), before the sort. *)
Fixpoint codes (code_keys label_keys : list string) (rows : list Row) : list Code :=
  match rows with
  | [] => []
  | r :: rows' =>
      let c := get_first cast_str r code_keys None in
      let l := get_first no_cast r label_keys c in
      match c with
      | Some c => {| code := c; label := l |} :: codes code_keys label_keys rows'
      | None => codes code_keys label_keys rows'
      end
  end.

(** [x or y] for a float that may be [None]. *)
Definition float_or (x : option float) (y : float) : float :=
  match x with
  | Some v => if truthy_float v then v else y
  | None => y
  end.

(** [(name and name.strip().lower() == "mumbai") or cid == 13] *)
Definition is_mumbai (cid : Z) (name : option string) : bool :=
  match name with
  | Some n => negb (String.eqb n "") && String.eqb (str_lower (strip n)) "mumbai"
  | None => false
  end || (cid =? 13).

(** The city record built from a row (lines 103-106). *)
Definition city_record (r : Row) (cid : Z) (name : option string) : City :=
  let lon := float_or (get_first cast_float r
               ["CenterLon"; "center_lon"; "lon"; "LON"] None) 72.8777 in
  let lat := float_or (get_first cast_float r
               ["CenterLat"; "center_lat"; "lat"; "LAT"] None) 19.0760 in
  let zoom :=
    match get_first cast_float r ["Zoom"; "zoom"] None with
    | Some v => if truthy_float v then NFloat v else NInt 10
    | None => NInt 10
    end in
  {| CityID := cid;
     CityName := match name with
                 | Some n => if String.eqb n "" then "Mumbai" else n
                 | None => "Mumbai"
                 end;
     center := (lon, lat); zoom := zoom |}.

(** The loop that picks the city (lines 97-107). *)
Fixpoint pick_city (rows : list Row) : option City :=
  match rows with
  | [] => None
  | r :: rows' =>
      let cid := get_first cast_int r ["CityID"; "CITYID"; "cityid"] None in
      let name := get_first no_cast r ["CityName"; "CITYNAME"; "cityname"; "name"] None in
      match cid with
      | None => pick_city rows'
      | Some cid =>
          if is_mumbai cid name then Some (city_record r cid name)
          else pick_city rows'
      end
  end.

(** The loop over the micro-market rows (lines 110-115): the records kept,
    and the name last stored for each id. *)
Fixpoint collect_mm (rows : list Row) (acc : list MicroMarket)
    (names : gmap Z (option string)) : list MicroMarket * gmap Z (option string) :=
  match rows with
  | [] => (acc, names)
  | r :: rows' =>
      let mm := norm_mm r in
      match mm_id mm with
      | None => collect_mm rows' acc names
      | Some i => collect_mm rows' (acc ++ [mm]) (<[i := mm_name mm]> names)
      end
  end.

(** The loop over the locality rows (lines 119-123). *)
Fixpoint collect_loc (rows : list Row) (names : gmap Z (option string))
  : list Locality :=
  match rows with
  | [] => []
  | r :: rows' =>
      let loc := norm_loc r names in
      match loc_id loc with
      | None => collect_loc rows' names
      | Some _ => loc :: collect_loc rows' names
      end
  end.

(** *** Sort keys and their comparison *)

(** [a < b] for two values that are each a [str] or [None]. *)
Definition lt_name (a b : option string) : result bool :=
  match a, b with
  | Some s, Some t => Ok (String.ltb s t)
  | _, _ => Raise TypeError
  end.

(** [(c1, n1) < (c2, n2)]: the first components that differ decide; equal
    tuples are not below each other. *)
Definition lt_city_name (k1 k2 : Z * option string) : result bool :=
  if decide (k1.1 = k2.1) then
    if decide (k1.2 = k2.2) then Ok false else lt_name k1.2 k2.2
  else Ok (k1.1 <? k2.1).

(** [(False, s) < (False, t)] *)
Definition lt_code (k1 k2 : bool * string) : result bool :=
  if decide (k1.1 = k2.1) then Ok (String.ltb k1.2 k2.2)
  else Ok (negb k1.1 && k2.1).

(** [(x["code"] is None, str(x["code"]))] *)
Definition code_key (x : Code) : bool * string := (false, code x).

(** [(x["cityId"] if x["cityId"] is not None else 0, x["name"])] *)
Definition mm_key (x : MicroMarket) : Z * option string :=
  (default 0 (mm_cityId x), mm_name x).
Definition loc_key (x : Locality) : Z * option string :=
  (default 0 (loc_cityId x), loc_name x).

(** For the state of [list.sort] the script relies on, see [sorts_stably]. *)
Definition Sort : Type :=
  ∀ A K : Type, (K → K → result bool) → (A → K) → list A → result (list A).

(** [main()], after [read_csv_any]: the rows of the five master files (an
    unreadable file gives no rows).  [list_sort lt key l] is
    [l.sort(key=key)], with [lt] the comparison of two keys. *)
Definition main (list_sort : Sort)
    (bhk_rows ast_rows city_rows mm_rows loc_rows : list Row) : result Dims :=
  bhk ← list_sort _ _ lt_code code_key
           (codes ["code"; "CODE"; "BHK"; "bhk"; "bhk_code"]
                  ["label"; "LABEL"; "name"; "display"; "BHKLabel"] bhk_rows);
  assets ← list_sort _ _ lt_code code_key
              (codes ["code"; "CODE"; "AssetType"; "ASSETTYPE"; "asset"; "asset_code"]
                     ["label"; "LABEL"; "name"; "display"; "AssetTypeName"] ast_rows);
  let city := pick_city city_rows in
  let '(mms, names) := collect_mm mm_rows [] ∅ in
  micromarkets ← list_sort _ _ lt_city_name mm_key mms;
  localities ← list_sort _ _ lt_city_name loc_key (collect_loc loc_rows names);
  mret {| bhk := bhk; assets := assets; city := city;
          micromarkets := micromarkets; localities := localities |}.

(** *** What the script relies on from [list.sort] *)

(** The list [l] sorted by insertion: an element goes before the first
    element of the sorted rest that is not below it, so elements with equal
    keys keep their order. *)
Fixpoint insert_by {A K : Type} (ltb : K → K → bool) (key : A → K) (x : A)
    (l : list A) : list A :=
  match l with
  | [] => [x]
  | y :: l' => if ltb (key y) (key x) then y :: insert_by ltb key x l' else x :: l
  end.

Fixpoint stable_sort {A K : Type} (ltb : K → K → bool) (key : A → K) (l : list A)
  : list A :=
  match l with
  | [] => []
  | x :: l' => insert_by ltb key x (stable_sort ltb key l')
  end.

Definition strict_weak_order {K : Type} (ltb : K → K → bool) : Prop :=
  (∀ x, ltb x x = false)
  ∧ (∀ x y z, ltb x y = true → ltb y z = true → ltb x z = true)
  ∧ (∀ x y z, ltb x y = false → ltb y z = false → ltb x z = false).

(** [list.sort] returns a permutation of its list when it returns; when
    every two keys of the list can be compared, and the comparison is a
    strict weak order, it returns the stably sorted list. *)
Definition sorts_stably (list_sort : Sort) : Prop :=
  (∀ A K (lt : K → K → result bool) (key : A → K) (l l' : list A),
     list_sort A K lt key l = Ok l' → l' ≡ₚ l)
  ∧ (∀ A K (lt : K → K → result bool) (ltb : K → K → bool) (key : A → K)
       (l : list A),
       strict_weak_order ltb →
       (∀ x y, x ∈ l → y ∈ l → lt (key x) (key y) = Ok (ltb (key x) (key y))) →
       list_sort A K lt key l = Ok (stable_sort ltb key l)).

(** A sort of this kind that can be run: insertion with the comparison that
    can raise. *)
Fixpoint insert_r {A K : Type} (lt : K → K → result bool) (key : A → K) (x : A)
    (l : list A) : result (list A) :=
  match l with
  | [] => Ok [x]
  | y :: l' =>
      b ← lt (key y) (key x);
      if b : bool then l'' ← insert_r lt key x l'; mret (y :: l'') else Ok (x :: l)
  end.

Fixpoint insertion_sort (A K : Type) (lt : K → K → result bool) (key : A → K)
    (l : list A) : result (list A) :=
  match l with
  | [] => Ok []
  | x :: l' => s ← insertion_sort A K lt key l'; insert_r lt key x s
  end.

Lemma insert_by_Permutation {A K : Type} (ltb : K → K → bool) (key : A → K)
    (x : A) (l : list A) :
  insert_by ltb key x l ≡ₚ x :: l.
Proof.
  induction l as [|y l IH]; [done|]. cbn [insert_by].
  destruct (ltb (key y) (key x)); [|done]. by rewrite IH, Permutation_swap.
Qed.

Lemma stable_sort_Permutation {A K : Type} (ltb : K → K → bool) (key : A → K)
    (l : list A) :
  stable_sort ltb key l ≡ₚ l.
Proof.
  induction l as [|x l IH]; [done|]. cbn [stable_sort].
  by rewrite insert_by_Permutation, IH.
Qed.

Lemma insert_r_Permutation {A K : Type} (lt : K → K → result bool) (key : A → K)
    (x : A) (l l' : list A) :
  insert_r lt key x l = Ok l' → l' ≡ₚ x :: l.
Proof.
  revert l'. induction l as [|y l IH]; intros l' H; cbn [insert_r] in H.
  - by injection H as <-.
  - inv_bind H b Hb. destruct b; [|by injection H as <-].
    inv_bind H l'' Hl''. apply ret_Ok in H. subst l'.
    by rewrite (IH _ Hl''), Permutation_swap.
Qed.

Lemma insertion_sort_Permutation {A K : Type} (lt : K → K → result bool)
    (key : A → K) (l l' : list A) :
  insertion_sort A K lt key l = Ok l' → l' ≡ₚ l.
Proof.
  revert l'. induction l as [|x l IH]; intros l' H; cbn [insertion_sort] in H.
  - by injection H as <-.
  - inv_bind H s Hs. apply insert_r_Permutation in H. by rewrite H, (IH _ Hs).
Qed.

Lemma insert_r_agrees {A K : Type} (lt : K → K → result bool) (ltb : K → K → bool)
    (key : A → K) (x : A) (l : list A) :
  (∀ y, y ∈ l → lt (key y) (key x) = Ok (ltb (key y) (key x))) →
  insert_r lt key x l = Ok (insert_by ltb key x l).
Proof.
  induction l as [|y l IH]; intros Hlt; [done|]. cbn [insert_r insert_by].
  rewrite (Hlt y) by apply list_elem_of_here. cbn [mbind result_bind].
  destruct (ltb (key y) (key x)); [|done].
  rewrite IH by (intros z Hz; apply Hlt; by apply list_elem_of_further). done.
Qed.

Lemma insertion_sort_stably : sorts_stably insertion_sort.
Proof.
  split.
  - intros A K lt key l l'. apply insertion_sort_Permutation.
  - intros A K lt ltb key l _ Hlt. induction l as [|x l IH]; [done|].
    cbn [insertion_sort stable_sort].
    rewrite IH by (intros y z Hy Hz; apply Hlt; by apply list_elem_of_further).
    cbn [mbind result_bind]. apply insert_r_agrees. intros y Hy. apply Hlt.
    + apply list_elem_of_further. by rewrite <- (stable_sort_Permutation ltb key l).
    + apply list_elem_of_here.
Qed.

(** No element of [l] is below an element that comes before it. *)
Definition ascending {A K : Type} (ltb : K → K → bool) (key : A → K) (l : list A)
  : Prop :=
  ∀ i j x y, l !! i = Some x → l !! j = Some y → (i < j)%nat →
             ltb (key y) (key x) = false.

Lemma ascending_cons {A K : Type} (ltb : K → K → bool) (key : A → K) (x : A)
    (l : list A) :
  ascending ltb key (x :: l) ↔
  (∀ y, y ∈ l → ltb (key y) (key x) = false) ∧ ascending ltb key l.
Proof.
  split.
  - intros Hasc. split.
    + intros y [j Hj]%list_elem_of_lookup. apply (Hasc 0%nat (S j)); [done|done|lia].
    + intros i j a b Hi Hj Hij. apply (Hasc (S i) (S j)); [done|done|lia].
  - intros [Hx Hasc] i j a b Hi Hj Hij. destruct j as [|j]; [lia|].
    cbn in Hj. destruct i as [|i].
    + injection Hi as <-. apply Hx. by eapply list_elem_of_lookup_2.
    + cbn in Hi. apply (Hasc i j); [done|done|lia].
Qed.

Lemma insert_by_ascending {A K : Type} (ltb : K → K → bool) (key : A → K)
    (x : A) (l : list A) :
  strict_weak_order ltb → ascending ltb key l → ascending ltb key (insert_by ltb key x l).
Proof.
  intros (Hirr & Htrans & Hneg). induction l as [|y l IH]; intros Hasc.
  - intros i j a b Hi Hj Hij. destruct i, j; cbn in *; try done; lia.
  - cbn [insert_by]. apply ascending_cons in Hasc as [Hy Hasc].
    destruct (ltb (key y) (key x)) eqn:Hyx.
    + apply ascending_cons. split; [|by apply IH].
      intros z Hz. rewrite insert_by_Permutation in Hz.
      apply elem_of_cons in Hz as [->|Hz]; [|by apply Hy].
      destruct (ltb (key x) (key y)) eqn:Hxy; [|done].
      pose proof (Htrans _ _ _ Hxy Hyx) as Hxx. by rewrite Hirr in Hxx.
    + apply ascending_cons. split; [|by apply ascending_cons].
      intros z [->|Hz]%elem_of_cons; [done|].
      exact (Hneg _ _ _ (Hy z Hz) Hyx).
Qed.

Lemma stable_sort_ascending {A K : Type} (ltb : K → K → bool) (key : A → K)
    (l : list A) :
  strict_weak_order ltb → ascending ltb key (stable_sort ltb key l).
Proof.
  intros Hswo. induction l as [|x l IH].
  - intros i j a b Hi. done.
  - cbn [stable_sort]. by apply insert_by_ascending.
Qed.

(** *** The order of strings and of the sort keys *)

Lemma string_compare_refl (s : string) : String.compare s s = Eq.
Proof.
  induction s as [|c s IH]; [done|]. cbn [String.compare].
  unfold Ascii.compare. by rewrite N.compare_refl.
Qed.

Lemma string_compare_trans (c : comparison) (s t u : string) :
  String.compare s t = c → String.compare t u = c → String.compare s u = c.
Proof.
  revert t u. induction s as [|x s IH]; intros [|y t] [|z u]; cbn [String.compare];
    try congruence.
  unfold Ascii.compare.
  destruct (N.compare_spec (N_of_ascii x) (N_of_ascii y)) as [Hxy|Hxy|Hxy],
           (N.compare_spec (N_of_ascii y) (N_of_ascii z)) as [Hyz|Hyz|Hyz],
           (N.compare_spec (N_of_ascii x) (N_of_ascii z)) as [Hxz|Hxz|Hxz];
    try congruence; try lia; try apply IH.
Qed.

Lemma string_ltb_swo : strict_weak_order String.ltb.
Proof.
  unfold String.ltb. split; [|split].
  - intros s. by rewrite string_compare_refl.
  - intros s t u Hst Htu.
    destruct (String.compare s t) eqn:E1; try done.
    destruct (String.compare t u) eqn:E2; try done.
    by rewrite (string_compare_trans Lt s t u E1 E2).
  - intros s t u Hst Htu.
    destruct (String.compare s t) eqn:E1; try done;
      destruct (String.compare t u) eqn:E2; try done.
    + apply String.compare_eq_iff in E1 as ->. by rewrite E2.
    + apply String.compare_eq_iff in E1 as ->. by rewrite E2.
    + apply String.compare_eq_iff in E2 as <-. by rewrite E1.
    + by rewrite (string_compare_trans Gt s t u E1 E2).
Qed.

(** A name that is [None] goes before the strings; the script's comparison
    raises there, so this choice is never observed. *)
Definition ltb_name (a b : option string) : bool :=
  match a, b with
  | Some s, Some t => String.ltb s t
  | None, Some _ => true
  | _, None => false
  end.

Lemma ltb_name_swo : strict_weak_order ltb_name.
Proof.
  destruct string_ltb_swo as (Hirr & Htrans & Hneg). split; [|split].
  - intros [s|]; [apply Hirr|done].
  - intros [s|] [t|] [u|]; cbn; try done. apply Htrans.
  - intros [s|] [t|] [u|]; cbn; try done. apply Hneg.
Qed.

(** The order of pairs: the first components decide when they differ. *)
Definition lex {K1 K2 : Type} `{EqDecision K1} (lt1 : K1 → K1 → bool)
    (lt2 : K2 → K2 → bool) (k1 k2 : K1 * K2) : bool :=
  if decide (k1.1 = k2.1) then lt2 k1.2 k2.2 else lt1 k1.1 k2.1.

Definition strict_total {K : Type} (lt : K → K → bool) : Prop :=
  (∀ x, lt x x = false)
  ∧ (∀ x y z, lt x y = true → lt y z = true → lt x z = true)
  ∧ (∀ x y, x ≠ y → lt x y = false → lt y x = true).

Lemma lex_swo {K1 K2 : Type} `{EqDecision K1} (lt1 : K1 → K1 → bool)
    (lt2 : K2 → K2 → bool) :
  strict_total lt1 → strict_weak_order lt2 → strict_weak_order (lex lt1 lt2).
Proof.
  intros (Hirr1 & Htrans1 & Htot1) (Hirr2 & Htrans2 & Hneg2). unfold lex.
  split; [|split].
  - intros [a b]. cbn. rewrite decide_True by done. apply Hirr2.
  - intros [a1 b1] [a2 b2] [a3 b3]. cbn.
    destruct (decide (a1 = a2)) as [->|H12], (decide (a2 = a3)) as [->|H23].
    + apply Htrans2.
    + by intros _ ?.
    + rewrite decide_False by done. by intros ? _.
    + intros Hlt12 Hlt23. pose proof (Htrans1 _ _ _ Hlt12 Hlt23) as Hlt13.
      destruct (decide (a1 = a3)) as [->|H13]; [|done]. by rewrite Hirr1 in Hlt13.
  - intros [a1 b1] [a2 b2] [a3 b3]. cbn.
    destruct (decide (a1 = a2)) as [->|H12], (decide (a2 = a3)) as [->|H23].
    + apply Hneg2.
    + by intros _ ?.
    + rewrite decide_False by done. by intros ? _.
    + intros Hlt12 Hlt23.
      pose proof (Htot1 _ _ H12 Hlt12) as H21.
      pose proof (Htot1 _ _ H23 Hlt23) as H32.
      pose proof (Htrans1 _ _ _ H32 H21) as H31.
      destruct (decide (a1 = a3)) as [->|H13]; [by rewrite Hirr1 in H31|].
      destruct (lt1 a1 a3) eqn:H13'; [|done].
      pose proof (Htrans1 _ _ _ H13' H31) as Hbad. by rewrite Hirr1 in Hbad.
Qed.

Lemma Z_ltb_strict_total : strict_total Z.ltb.
Proof.
  split; [|split].
  - intros x. apply Z.ltb_irrefl.
  - intros x y z. rewrite !Z.ltb_lt. lia.
  - intros x y Hne. rewrite Z.ltb_ge, Z.ltb_lt. lia.
Qed.

Lemma bool_lt_strict_total : strict_total (λ a b : bool, negb a && b).
Proof.
  split; [|split].
  - by intros [].
  - by intros [] [] [].
  - by intros [] [] Hne.
Qed.

(** The comparison of the keys [(code is None, str(code))]. *)
Definition ltb_code : bool * string → bool * string → bool :=
  lex (λ a b : bool, negb a && b) String.ltb.

(** The comparison of the keys [(cityId or 0, name)]. *)
Definition ltb_city_name : Z * option string → Z * option string → bool :=
  lex Z.ltb ltb_name.

Lemma ltb_code_swo : strict_weak_order ltb_code.
Proof. apply lex_swo; [apply bool_lt_strict_total|apply string_ltb_swo]. Qed.

Lemma ltb_city_name_swo : strict_weak_order ltb_city_name.
Proof. apply lex_swo; [apply Z_ltb_strict_total|apply ltb_name_swo]. Qed.

Lemma lt_code_total (k1 k2 : bool * string) : lt_code k1 k2 = Ok (ltb_code k1 k2).
Proof. unfold lt_code, ltb_code, lex. by destruct (decide (k1.1 = k2.1)). Qed.

Lemma lt_city_name_named (k1 k2 : Z * option string) :
  is_Some k1.2 → is_Some k2.2 →
  lt_city_name k1 k2 = Ok (ltb_city_name k1 k2).
Proof.
  destruct k1 as [c1 n1], k2 as [c2 n2]. cbn. intros [s ->] [t ->].
  unfold lt_city_name, ltb_city_name, lex. cbn.
  destruct (decide (c1 = c2)); [|done].
  destruct (decide (Some s = Some t)) as [[= ->]|Hne]; [|done].
  cbn. unfold String.ltb. by rewrite string_compare_refl.
Qed.

(** *** [get_first]: which alias is read *)

(** The column [k] of [d] holds a cell that is not blank and that [cast]
    accepts. *)
Definition usable {V : Type} (cast : Cell → result (option V)) (d : Row)
    (k : string) : Prop :=
  ∃ c v, d !! k = Some c ∧ strip (str_of_cell c) ≠ "" ∧ cast c = Ok v.

Lemma get_first_skip {V : Type} (cast : Cell → result (option V)) (d : Row)
    (k : string) (keys : list string) (default : option V) :
  ¬ usable cast d k →
  get_first cast d (k :: keys) default = get_first cast d keys default.
Proof.
  intros Hno. cbn [get_first]. destruct (d !! k) as [c|] eqn:Hc; [|done].
  case_bool_decide as Hblank; [|done].
  destruct (cast c) as [v|e] eqn:Hv; [|done]. destruct Hno. by exists c, v.
Qed.

(** The aliases are tried in the order of the list: columns that are absent,
    blank (empty or white space) or refused by the cast are passed over, the
    first column left gives the value, and later aliases are not read.  When
    no alias is left the default is returned. *)
Theorem first_usable_alias_wins {V : Type} (cast : Cell → result (option V))
    (d : Row) (keys1 : list string) (default : option V) :
  Forall (λ k, ¬ usable cast d k) keys1 →
  get_first cast d keys1 default = default
  ∧ ∀ k keys2 c v,
      d !! k = Some c → strip (str_of_cell c) ≠ "" → cast c = Ok v →
      get_first cast d (keys1 ++ k :: keys2) default = v.
Proof.
  induction 1 as [|k1 keys1 Hk1 _ [IH1 IH2]].
  - split; [done|]. intros k keys2 c v Hc Hblank Hv. cbn [app get_first].
    by rewrite Hc, bool_decide_eq_true_2, Hv.
  - split.
    + by rewrite get_first_skip.
    + intros k keys2 c v Hc Hblank Hv. cbn [app].
      rewrite get_first_skip by done. by eapply IH2.
Qed.

(** A micro-market row whose id is blank in the first alias and not a number
    in the second. *)
Definition aliased_row : Row :=
  list_to_map [("MicroMarketID", Some "  "); ("MICROMARKETID", Some "n/a");
               ("locationid", Some "42"); ("LocationID", Some "43")].

Lemma first_usable_alias_wins_witness :
  get_first cast_int aliased_row ["MicroMarketID"; "MICROMARKETID"] None = None
  ∧ get_first cast_int aliased_row
      ["MicroMarketID"; "MICROMARKETID"; "locationid"; "LocationID"; "LOC_ID"] None
    = Some 42.
Proof.
  destruct (first_usable_alias_wins cast_int aliased_row
              ["MicroMarketID"; "MICROMARKETID"] None) as [Hdef Hval].
  - repeat constructor.
    + intros (c & v & Hc & Hblank & Hv). vm_compute in Hc. injection Hc as <-.
      by vm_compute in Hblank.
    + intros (c & v & Hc & Hblank & Hv). vm_compute in Hc. injection Hc as <-.
      by vm_compute in Hv.
  - split; [exact Hdef|].
    apply (Hval "locationid" ["LocationID"; "LOC_ID"] (Some "42") (Some 42)).
    + reflexivity.
    + by vm_compute.
    + reflexivity.
Defined.

(** *** The records of a run *)

(** [mm_name_by_id] when the loop over the micro-market rows has ended. *)
Definition mm_name_by_id (mm_rows : list Row) : gmap Z (option string) :=
  (collect_mm mm_rows [] ∅).2.

Lemma dims_inv (list_sort : Sort)
    (bhk_rows ast_rows city_rows mm_rows loc_rows : list Row) (dims : Dims) :
  main list_sort bhk_rows ast_rows city_rows mm_rows loc_rows = Ok dims →
  list_sort _ _ lt_code code_key
    (codes ["code"; "CODE"; "BHK"; "bhk"; "bhk_code"]
           ["label"; "LABEL"; "name"; "display"; "BHKLabel"] bhk_rows)
  = Ok (bhk dims)
  ∧ list_sort _ _ lt_code code_key
      (codes ["code"; "CODE"; "AssetType"; "ASSETTYPE"; "asset"; "asset_code"]
             ["label"; "LABEL"; "name"; "display"; "AssetTypeName"] ast_rows)
    = Ok (assets dims)
  ∧ city dims = pick_city city_rows
  ∧ list_sort _ _ lt_city_name mm_key (collect_mm mm_rows [] ∅).1
    = Ok (micromarkets dims)
  ∧ list_sort _ _ lt_city_name loc_key
      (collect_loc loc_rows (mm_name_by_id mm_rows))
    = Ok (localities dims).
Proof.
  unfold main, mm_name_by_id. intros H. inv_bind H b Hb. inv_bind H a Ha.
  destruct (collect_mm mm_rows [] ∅) as [mms names].
  inv_bind H m Hm. inv_bind H l Hl. apply ret_Ok in H. by subst dims.
Qed.

Lemma collect_mm_spec (rows : list Row) (acc : list MicroMarket)
    (names : gmap Z (option string)) :
  (collect_mm rows acc names).1
  = acc ++ filter (λ x, is_Some (mm_id x)) (norm_mm <$> rows)
  ∧ (∀ i, is_Some ((collect_mm rows acc names).2 !! i) ↔
          is_Some (names !! i)
          ∨ ∃ x, x ∈ norm_mm <$> rows ∧ mm_id x = Some i)
  ∧ (∀ i nm, (collect_mm rows acc names).2 !! i = Some nm →
             names !! i = Some nm
             ∨ ∃ x, x ∈ norm_mm <$> rows ∧ mm_id x = Some i ∧ mm_name x = nm).
Proof.
  revert acc names. induction rows as [|r rows IH]; intros acc names.
  - cbn. rewrite app_nil_r. split; [done|]. split; [|by left].
    intros i. split; [by left|]. intros [?|(x & Hx & _)]; [done|].
    by apply elem_of_nil in Hx.
  - cbn [collect_mm]. rewrite fmap_cons, filter_cons.
    destruct (mm_id (norm_mm r)) as [i0|] eqn:Hid.
    + destruct (IH (acc ++ [norm_mm r]) (<[i0 := mm_name (norm_mm r)]> names))
        as (H1 & H2 & H3).
      rewrite decide_True by done. split; [by rewrite H1, <- app_assoc|]. split.
      * intros i. rewrite H2, lookup_insert_is_Some. split.
        -- intros [[<-|[_ ?]]|(x & Hx & Hi)].
           ++ right. exists (norm_mm r). split; [apply list_elem_of_here|done].
           ++ by left.
           ++ right. exists x. split; [by apply list_elem_of_further|done].
        -- intros [?|(x & Hx & Hi)].
           ++ destruct (decide (i0 = i)); [left; by left|left; by right].
           ++ apply elem_of_cons in Hx as [->|Hx].
              ** left. left. congruence.
              ** right. by exists x.
      * intros i nm Hnm. apply H3 in Hnm as [Hnm|(x & Hx & Hi & Hn)].
        -- apply lookup_insert_Some in Hnm as [[<- <-]|[_ Hnm]]; [|by left].
           right. exists (norm_mm r). split; [apply list_elem_of_here|done].
        -- right. exists x. split; [by apply list_elem_of_further|done].
    + destruct (IH acc names) as (H1 & H2 & H3).
      rewrite decide_False by (by intros [? ?]). split; [done|]. split.
      * intros i. rewrite H2. split.
        -- intros [?|(x & Hx & Hi)]; [by left|].
           right. exists x. split; [by apply list_elem_of_further|done].
        -- intros [?|(x & Hx & Hi)]; [by left|].
           apply elem_of_cons in Hx as [->|Hx]; [congruence|].
           right. by exists x.
      * intros i nm Hnm. apply H3 in Hnm as [Hnm|(x & Hx & Hi & Hn)]; [by left|].
        right. exists x. split; [by apply list_elem_of_further|done].
Qed.

Lemma collect_loc_spec (rows : list Row) (names : gmap Z (option string)) :
  collect_loc rows names
  = filter (λ x, is_Some (loc_id x)) ((λ r, norm_loc r names) <$> rows).
Proof.
  induction rows as [|r rows IH]; [done|]. cbn [collect_loc].
  rewrite fmap_cons, filter_cons.
  destruct (loc_id (norm_loc r names)) eqn:Hid.
  - rewrite decide_True by done. by rewrite IH.
  - rewrite decide_False by (by intros [? ?]). done.
Qed.

(** Rows whose id cannot be resolved are dropped and every other row is
    kept: the micro-markets written are, up to their order, the records of
    the rows with an id, and so are the localities; every record written has
    an id. *)
Theorem rows_without_id_dropped (list_sort : Sort)
    (bhk_rows ast_rows city_rows mm_rows loc_rows : list Row) (dims : Dims) :
  sorts_stably list_sort →
  main list_sort bhk_rows ast_rows city_rows mm_rows loc_rows = Ok dims →
  micromarkets dims ≡ₚ filter (λ x, is_Some (mm_id x)) (norm_mm <$> mm_rows)
  ∧ localities dims
    ≡ₚ filter (λ x, is_Some (loc_id x))
         ((λ r, norm_loc r (mm_name_by_id mm_rows)) <$> loc_rows)
  ∧ (∀ x, x ∈ micromarkets dims → is_Some (mm_id x))
  ∧ (∀ x, x ∈ localities dims → is_Some (loc_id x)).
Proof.
  intros [Hperm _] Hmain.
  destruct (dims_inv _ _ _ _ _ _ _ Hmain) as (_ & _ & _ & Hmm & Hloc).
  apply Hperm in Hmm, Hloc.
  destruct (collect_mm_spec mm_rows [] ∅) as (H1 & _ & _).
  rewrite H1, app_nil_l in Hmm. rewrite collect_loc_spec in Hloc.
  split; [done|]. split; [done|]. split.
  - intros x Hx. rewrite Hmm in Hx. by apply list_elem_of_filter in Hx as [? _].
  - intros x Hx. rewrite Hloc in Hx. by apply list_elem_of_filter in Hx as [? _].
Qed.

(** Two micro-market rows, the second without an id, and a locality row. *)
Definition mm_row_1 : Row :=
  list_to_map [("MicroMarketID", Some "7"); ("MicroMarketName", Some "Andheri");
               ("CityID", Some "13")].
Definition mm_row_blank : Row :=
  list_to_map [("MicroMarketID", Some ""); ("MicroMarketName", Some "Nowhere");
               ("CityID", Some "13")].
Definition loc_row_1 : Row :=
  list_to_map [("LocalityID", Some "101"); ("LocalityName", Some "Versova");
               ("CityID", Some "13"); ("MicroMarketID", Some "7")].

Lemma rows_without_id_dropped_witness :
  ∃ dims,
    main insertion_sort [] [] [] [mm_row_1; mm_row_blank] [loc_row_1] = Ok dims
    ∧ micromarkets dims
      ≡ₚ filter (λ x, is_Some (mm_id x)) (norm_mm <$> [mm_row_1; mm_row_blank])
    ∧ (∀ x, x ∈ micromarkets dims → is_Some (mm_id x)).
Proof.
  destruct (main insertion_sort [] [] [] [mm_row_1; mm_row_blank] [loc_row_1])
    as [dims|e] eqn:Hmain; [|vm_compute in Hmain; discriminate Hmain].
  destruct (rows_without_id_dropped insertion_sort _ _ _ _ _ dims
              insertion_sort_stably Hmain) as (Hmm & _ & Hid & _).
  by exists dims.
Defined.

(** *** The micro-market name of a locality (lines 66-67, 110-123) *)

(** For every locality written: the key [microMarketName] is absent exactly
    when no micro-market was kept or the locality has no micro-market id; a
    name that is set is the name of a micro-market written with that id; and
    a locality whose micro-market id no micro-market carries is still
    written, with the name [null]. *)
Theorem micro_market_names_resolved (list_sort : Sort)
    (bhk_rows ast_rows city_rows mm_rows loc_rows : list Row) (dims : Dims)
    (loc : Locality) :
  sorts_stably list_sort →
  main list_sort bhk_rows ast_rows city_rows mm_rows loc_rows = Ok dims →
  loc ∈ localities dims →
  (loc_microMarketName loc = None ↔
   micromarkets dims = [] ∨ loc_microMarketId loc = None)
  ∧ (∀ nm, loc_microMarketName loc = Some (Some nm) →
           ∃ mm, mm ∈ micromarkets dims ∧ mm_id mm = loc_microMarketId loc
                 ∧ mm_name mm = Some nm)
  ∧ (∀ i, loc_microMarketId loc = Some i → micromarkets dims ≠ [] →
          (∀ mm, mm ∈ micromarkets dims → mm_id mm ≠ Some i) →
          loc_microMarketName loc = Some None).
Proof.
  intros [Hperm _] Hmain Hloc.
  destruct (dims_inv _ _ _ _ _ _ _ Hmain) as (_ & _ & _ & Hmm & Hlocs).
  apply Hperm in Hmm, Hlocs. rewrite Hlocs, collect_loc_spec in Hloc.
  apply list_elem_of_filter in Hloc as [_ Hloc].
  apply list_elem_of_fmap in Hloc as (r & -> & _).
  destruct (collect_mm_spec mm_rows [] ∅) as (H1 & H2 & H3).
  rewrite app_nil_l in H1. fold (mm_name_by_id mm_rows) in H2, H3.
  set (names := mm_name_by_id mm_rows) in *.
  assert (∀ x, x ∈ micromarkets dims ↔
               x ∈ norm_mm <$> mm_rows ∧ is_Some (mm_id x)) as Hin.
  { intros x. rewrite Hmm, H1, list_elem_of_filter. tauto. }
  assert (names = ∅ ↔ micromarkets dims = []) as Hempty.
  { split.
    - intros Hn. destruct (micromarkets dims) as [|x xs] eqn:Hx; [done|].
      assert (x ∈ x :: xs) as Hx' by apply list_elem_of_here.
      apply Hin in Hx' as [Hx' [i Hi]].
      assert (is_Some (names !! i)) as Hsome by (apply H2; right; by exists x).
      rewrite Hn, lookup_empty in Hsome. by destruct Hsome.
    - intros Hn. apply map_eq. intros i. rewrite lookup_empty.
      destruct (names !! i) as [nm|] eqn:Hnm; [|done].
      destruct (H3 i nm Hnm) as [Hbad|(x & Hx & Hi & _)];
        [by rewrite lookup_empty in Hbad|].
      assert (x ∈ micromarkets dims) as Hx' by (apply Hin; by rewrite Hi).
      rewrite Hn in Hx'. by apply elem_of_nil in Hx'. }
  cbn [loc_microMarketName loc_microMarketId norm_loc].
  destruct (get_first cast_int r
              ["MicroMarketID"; "MICROMARKETID"; "locationid"; "LocationID"] None)
    as [m|]; [|split; [split; [by right|done]|by split]].
  case_bool_decide as Hne.
  - split; [|split].
    + split; [done|]. intros [Hnil|?]; [|done]. by apply Hempty in Hnil.
    + intros nm [= Hnm]. destruct (names !! m) as [onm|] eqn:Hm; [|done].
      cbn in Hnm. subst onm.
      destruct (H3 m (Some nm) Hm) as [Hbad|(x & Hx & Hi & Hn)];
        [by rewrite lookup_empty in Hbad|].
      exists x. split; [apply Hin; by rewrite Hi|done].
    + intros i [= <-] _ Hnone. f_equal.
      destruct (names !! m) as [onm|] eqn:Hm; [|done].
      destruct (H3 m onm Hm) as [Hbad|(x & Hx & Hi & Hn)];
        [by rewrite lookup_empty in Hbad|].
      destruct (Hnone x); [apply Hin; by rewrite Hi|done].
  - assert (names = ∅) as Hn by (by destruct (decide (names = ∅))).
    split; [|split].
    + split; [|done]. intros _. left. by apply Hempty.
    + done.
    + intros i _ Hnil. by apply Hempty in Hn.
Qed.

(** A locality row that names micro-market 8, which no row defines. *)
Definition loc_row_dangling : Row :=
  list_to_map [("LocalityID", Some "102"); ("LocalityName", Some "Juhu");
               ("CityID", Some "13"); ("MicroMarketID", Some "8")].

Lemma micro_market_names_resolved_witness :
  ∃ dims loc,
    main insertion_sort [] [] [] [mm_row_1] [loc_row_1; loc_row_dangling] = Ok dims
    ∧ loc ∈ localities dims
    ∧ loc_microMarketId loc = Some 8
    ∧ loc_microMarketName loc = Some None.
Proof.
  destruct (main insertion_sort [] [] [] [mm_row_1] [loc_row_1; loc_row_dangling])
    as [dims|e] eqn:Hmain; [|vm_compute in Hmain; discriminate Hmain].
  set (loc := norm_loc loc_row_dangling (mm_name_by_id [mm_row_1])).
  assert (loc ∈ localities dims) as Hloc.
  { vm_compute in Hmain. injection Hmain as <-. vm_compute. set_solver. }
  destruct (micro_market_names_resolved insertion_sort _ _ _ _ _ dims loc
              insertion_sort_stably Hmain Hloc) as (_ & _ & Hnull).
  exists dims, loc. split; [done|]. split; [done|]. split; [reflexivity|].
  apply (Hnull 8).
  - reflexivity.
  - vm_compute in Hmain. by injection Hmain as <-.
  - intros mm Hmm Hid. vm_compute in Hmain. injection Hmain as <-.
    cbn [micromarkets] in Hmm. apply list_elem_of_singleton in Hmm as ->.
    by vm_compute in Hid.
Defined.

(** *** The order of the lists *)

Lemma ascending_code (l : list Code) :
  ascending ltb_code code_key l → ascending String.ltb code l.
Proof. intros Hasc i j x y Hi Hj Hij. exact (Hasc i j x y Hi Hj Hij). Qed.

Lemma sorted_codes (list_sort : Sort) (l l' : list Code) :
  sorts_stably list_sort →
  list_sort _ _ lt_code code_key l = Ok l' →
  l' = stable_sort ltb_code code_key l.
Proof.
  intros [_ Hsort] Hl. rewrite (Hsort _ _ lt_code ltb_code code_key l) in Hl.
  - by injection Hl.
  - apply ltb_code_swo.
  - intros x y _ _. apply lt_code_total.
Qed.

(** The BHK list and the asset-type list hold one entry per row that has a
    code, in ascending order of the codes as strings (so ["10"] comes before
    ["2"]); entries with the same code keep the order of their rows. *)
Theorem code_lists_sorted (list_sort : Sort)
    (bhk_rows ast_rows city_rows mm_rows loc_rows : list Row) (dims : Dims) :
  sorts_stably list_sort →
  main list_sort bhk_rows ast_rows city_rows mm_rows loc_rows = Ok dims →
  ascending String.ltb code (bhk dims)
  ∧ ascending String.ltb code (assets dims)
  ∧ bhk dims
    = stable_sort ltb_code code_key
        (codes ["code"; "CODE"; "BHK"; "bhk"; "bhk_code"]
               ["label"; "LABEL"; "name"; "display"; "BHKLabel"] bhk_rows)
  ∧ assets dims
    = stable_sort ltb_code code_key
        (codes ["code"; "CODE"; "AssetType"; "ASSETTYPE"; "asset"; "asset_code"]
               ["label"; "LABEL"; "name"; "display"; "AssetTypeName"] ast_rows).
Proof.
  intros Hsort Hmain.
  destruct (dims_inv _ _ _ _ _ _ _ Hmain) as (Hb & Ha & _).
  apply (sorted_codes _ _ _ Hsort) in Hb, Ha. rewrite Hb, Ha.
  split; [|split; [|done]];
    apply ascending_code, stable_sort_ascending, ltb_code_swo.
Qed.

(** Three BHK rows: codes 2, 10 and 1. *)
Definition bhk_rows_3 : list Row :=
  [list_to_map [("code", Some "2"); ("label", Some "2 BHK")];
   list_to_map [("code", Some "10"); ("label", Some "10 BHK")];
   list_to_map [("BHK", Some "1")]].

Lemma code_lists_sorted_witness :
  ∃ dims,
    main insertion_sort bhk_rows_3 [] [] [] [] = Ok dims
    ∧ ascending String.ltb code (bhk dims)
    ∧ code <$> bhk dims = ["1"; "10"; "2"].
Proof.
  destruct (main insertion_sort bhk_rows_3 [] [] [] []) as [dims|e] eqn:Hmain;
    [|vm_compute in Hmain; discriminate Hmain].
  destruct (code_lists_sorted insertion_sort _ _ _ _ _ dims
              insertion_sort_stably Hmain) as (Hasc & _ & Hb & _).
  exists dims. split; [done|]. split; [done|]. rewrite Hb. vm_compute. reflexivity.
Defined.

(** A row with a cell for every column: no cell is [None]. *)
Definition full_row (r : Row) : Prop := ∀ k c, r !! k = Some c → is_Some c.

Lemma get_first_full (r : Row) (keys : list string) (default : string) :
  full_row r → is_Some (get_first no_cast r keys (Some default)).
Proof.
  intros Hfull. induction keys as [|k keys IH]; [by eexists|]. cbn [get_first].
  destruct (r !! k) as [c|] eqn:Hc; [|done].
  case_bool_decide; [|done]. cbn. by eapply Hfull.
Qed.

Lemma sorted_named {A : Type} (list_sort : Sort) (key : A → Z * option string)
    (l : list A) :
  sorts_stably list_sort →
  (∀ x, x ∈ l → is_Some (key x).2) →
  list_sort _ _ lt_city_name key l = Ok (stable_sort ltb_city_name key l).
Proof.
  intros [_ Hsort] Hnamed. apply Hsort; [apply ltb_city_name_swo|].
  intros x y Hx Hy. apply lt_city_name_named; by apply Hnamed.
Qed.

(** When every micro-market row and every locality row has a cell for each
    column, the run returns, and both lists are in ascending order of the
    pair (city id, with 0 for none; name): by city id first, by name in
    string order within a city. *)
Theorem full_rows_build_sorted (list_sort : Sort)
    (bhk_rows ast_rows city_rows mm_rows loc_rows : list Row) :
  sorts_stably list_sort →
  Forall full_row mm_rows →
  Forall full_row loc_rows →
  ∃ dims,
    main list_sort bhk_rows ast_rows city_rows mm_rows loc_rows = Ok dims
    ∧ ascending ltb_city_name mm_key (micromarkets dims)
    ∧ ascending ltb_city_name loc_key (localities dims).
Proof.
  intros Hsort Hmm Hloc. unfold main.
  destruct Hsort as [Hp Hs].
  rewrite (Hs _ _ lt_code ltb_code code_key _ ltb_code_swo)
    by (intros; apply lt_code_total).
  cbn [mbind result_bind].
  rewrite (Hs _ _ lt_code ltb_code code_key _ ltb_code_swo)
    by (intros; apply lt_code_total).
  cbn [mbind result_bind].
  destruct (collect_mm_spec mm_rows [] ∅) as (H1 & _ & _).
  destruct (collect_mm mm_rows [] ∅) as [mms names]. cbn [fst] in H1.
  rewrite app_nil_l in H1.
  rewrite (sorted_named list_sort mm_key mms (conj Hp Hs)).
  2:{ intros x Hx. rewrite H1 in Hx. apply list_elem_of_filter in Hx as [_ Hx].
      apply list_elem_of_fmap in Hx as (r & -> & Hr).
      rewrite Forall_forall in Hmm. apply get_first_full. by apply Hmm. }
  cbn [mbind result_bind].
  rewrite (sorted_named list_sort loc_key _ (conj Hp Hs)).
  2:{ intros x Hx. rewrite collect_loc_spec in Hx.
      apply list_elem_of_filter in Hx as [_ Hx].
      apply list_elem_of_fmap in Hx as (r & -> & Hr).
      rewrite Forall_forall in Hloc. apply get_first_full. by apply Hloc. }
  cbn [mbind result_bind mret result_ret]. eexists. split; [reflexivity|].
  cbn [micromarkets localities].
  split; apply stable_sort_ascending, ltb_city_name_swo.
Qed.

Lemma full_rows_build_sorted_witness :
  ∃ dims,
    main insertion_sort [] [] [] [mm_row_1; mm_row_blank]
      [loc_row_dangling; loc_row_1] = Ok dims
    ∧ ascending ltb_city_name mm_key (micromarkets dims)
    ∧ ascending ltb_city_name loc_key (localities dims).
Proof.
  apply (full_rows_build_sorted insertion_sort [] [] []
           [mm_row_1; mm_row_blank] [loc_row_dangling; loc_row_1]
           insertion_sort_stably).
  - repeat constructor; intros k c Hc;
      apply (elem_of_list_to_map_2 _ k c) in Hc;
      rewrite !elem_of_cons in Hc; set_solver.
  - repeat constructor; intros k c Hc;
      apply (elem_of_list_to_map_2 _ k c) in Hc;
      rewrite !elem_of_cons in Hc; set_solver.
Defined.

(** *** The city record (lines 97-107) *)









End MakeDims.
